(** * iCity export toolkit: a shallow embedding of [icity_export.py]

    The development follows the script top-down: Python strings and the
    few [str] / [re] operations the script uses, the page extractor
    ([extract_entries_from_page]), the date resolver
    ([parse_entry_datetime_parts]), the aggregator ([scrape_all]) and the
    exporter ([write_outputs], [write_split_markdown]) over a small model
    of the file system. *)

From Stdlib Require Import NArith ZArith Ascii String Lia.
From Stdlib Require Import Sorting.Sorted Sorting.Permutation.
From stdpp Require Import base option list gmap sets.

Set Warnings "-register-all".

Local Open Scope Z_scope.

(** ** Python strings

    A Python [str] is a sequence of Unicode code points. *)

Module Str.

Abbreviation str := (list N).

(** Literals are written as UTF-8 Rocq strings and decoded once. *)
Fixpoint utf8_decode (bs : list N) : str :=
  match bs with
  | [] => []
  | b0 :: r0 =>
    if (b0 <? 128)%N then b0 :: utf8_decode r0
    else if (b0 <? 224)%N then
      match r0 with
      | b1 :: r1 => ((b0 - 192) * 64 + (b1 - 128))%N :: utf8_decode r1
      | _ => []
      end
    else if (b0 <? 240)%N then
      match r0 with
      | b1 :: b2 :: r2 =>
        ((b0 - 224) * 4096 + (b1 - 128) * 64 + (b2 - 128))%N :: utf8_decode r2
      | _ => []
      end
    else
      match r0 with
      | b1 :: b2 :: b3 :: r3 =>
        ((b0 - 240) * 262144 + (b1 - 128) * 4096 + (b2 - 128) * 64 + (b3 - 128))%N
          :: utf8_decode r3
      | _ => []
      end
  end.

Definition u (s : string) : str :=
  utf8_decode (map N_of_ascii (list_ascii_of_string s)).

(** [str.isspace] on one code point; [\s] of [re] on a [str] pattern is the
    same class. *)
Definition is_space (c : N) : bool :=
  ((9 <=? c) && (c <=? 13) || (28 <=? c) && (c <=? 32)
   || (c =? 0x85) || (c =? 0xa0) || (c =? 0x1680)
   || (0x2000 <=? c) && (c <=? 0x200a)
   || (c =? 0x2028) || (c =? 0x2029) || (c =? 0x202f) || (c =? 0x205f)
   || (c =? 0x3000))%N.

(** The decimal digits of Unicode (general category Nd), each script given
    by the code point of its zero. [\d] of [re] on a [str] pattern is this
    class and [int] reads every such digit with its decimal value. *)
Definition digit_zeros : list N :=
  [0x30; 0x660; 0x6f0; 0x7c0; 0x966; 0x9e6; 0xa66; 0xae6; 0xb66; 0xbe6;
   0xc66; 0xce6; 0xd66; 0xde6; 0xe50; 0xed0; 0xf20; 0x1040; 0x1090; 0x17e0;
   0x1810; 0x1946; 0x19d0; 0x1a80; 0x1a90; 0x1b50; 0x1bb0; 0x1c40; 0x1c50;
   0xa620; 0xa8d0; 0xa900; 0xa9d0; 0xa9f0; 0xaa50; 0xabf0; 0xff10; 0x104a0;
   0x10d30; 0x11066; 0x110f0; 0x11136; 0x111d0; 0x112f0; 0x11450; 0x114d0;
   0x11650; 0x116c0; 0x11730; 0x118e0; 0x11950; 0x11c50; 0x11d50; 0x11da0;
   0x16a60; 0x16ac0; 0x16b50; 0x1d7ce; 0x1d7d8; 0x1d7e2; 0x1d7ec; 0x1d7f6;
   0x1e140; 0x1e2f0; 0x1e950; 0x1fbf0]%N.

Fixpoint digit_in (zs : list N) (c : N) : option N :=
  match zs with
  | [] => None
  | z :: zs' => if ((z <=? c) && (c <? z + 10))%N then Some (c - z)%N
                else digit_in zs' c
  end.

Definition digit_value (c : N) : option N := digit_in digit_zeros c.

Definition is_digit (c : N) : bool :=
  match digit_value c with Some _ => true | None => false end.

(** [int(s)] for a string of decimal digits. *)
Definition int (s : str) : Z :=
  fold_left (fun acc c => 10 * acc + Z.of_N (default 0%N (digit_value c))) s 0.

(** [str(n)] and the format specification [0<w>d]. *)
Fixpoint dec_digits (fuel : nat) (n : N) : str :=
  match fuel with
  | O => []
  | S fuel' =>
    if (n <? 10)%N then [(48 + n)%N]
    else dec_digits fuel' (n / 10)%N ++ [(48 + n mod 10)%N]
  end.

Definition str_of_N (n : N) : str := dec_digits (S (N.to_nat (N.log2 n))) n.

Definition str_of_Z (z : Z) : str :=
  if z <? 0 then 45%N :: str_of_N (Z.abs_N z) else str_of_N (Z.abs_N z).

Definition zfill (w : nat) (s : str) : str :=
  replicate (w - length s) 48%N ++ s.

Definition format_0d (w : nat) (z : Z) : str :=
  if z <? 0 then 45%N :: zfill (w - 1) (str_of_N (Z.abs_N z))
  else zfill w (str_of_N (Z.abs_N z)).

(** [s.lstrip()], [s.rstrip()], [s.strip()]. *)
Fixpoint lstrip (s : str) : str :=
  match s with
  | c :: s' => if is_space c then lstrip s' else s
  | [] => []
  end.

Definition rstrip (s : str) : str := rev (lstrip (rev s)).

Definition strip (s : str) : str := rstrip (lstrip s).

(** [sep.join(parts)]. *)
Fixpoint join (sep : str) (parts : list str) : str :=
  match parts with
  | [] => []
  | [p] => p
  | p :: ps => p ++ sep ++ join sep ps
  end.

(** [s.splitlines()]: the line boundaries of [str], with "\r\n" one
    boundary; no empty last line after a final boundary. *)
Definition is_linebreak (c : N) : bool :=
  ((10 <=? c) && (c <=? 13) || (28 <=? c) && (c <=? 30)
   || (c =? 0x85) || (c =? 0x2028) || (c =? 0x2029))%N.

Fixpoint splitlines_aux (cur : str) (s : str) : list str :=
  match s with
  | [] => match cur with [] => [] | _ => [cur] end
  | c :: s' =>
    if is_linebreak c then
      match c, s' with
      | 13%N, 10%N :: s'' => cur :: splitlines_aux [] s''
      | _, _ => cur :: splitlines_aux [] s'
      end
    else splitlines_aux (cur ++ [c]) s'
  end.

Definition splitlines (s : str) : list str := splitlines_aux [] s.

(** [s.replace(old, new)] for a one-character [old]. *)
Definition replace_char (old : N) (new : str) (s : str) : str :=
  flat_map (fun c => if (c =? old)%N then new else [c]) s.

(** [re.sub(r"\s+", " ", s)]: every maximal run of white space becomes one
    space. *)
Fixpoint collapse_spaces (in_run : bool) (s : str) : str :=
  match s with
  | [] => []
  | c :: s' =>
    if is_space c then
      if in_run then collapse_spaces true s' else 32%N :: collapse_spaces true s'
    else c :: collapse_spaces false s'
  end.

(** [sub in s]. *)
Fixpoint starts_with (p s : str) : bool :=
  match p, s with
  | [], _ => true
  | a :: p', b :: s' => (a =? b)%N && starts_with p' s'
  | _ :: _, [] => false
  end.

Fixpoint contains (sub s : str) : bool :=
  starts_with sub s || match s with [] => false | _ :: s' => contains sub s' end.

(** Comparison of strings, code point by code point. *)
Fixpoint str_leb (a b : str) : bool :=
  match a, b with
  | [], _ => true
  | _ :: _, [] => false
  | x :: a', y :: b' => (x <? y)%N || ((x =? y)%N && str_leb a' b')
  end.

End Str.
Export Str.



(** ** The fragment of [re] the script uses

    Every pattern of the script is a sequence of character classes under
    a greedy bounded or unbounded repetition, with capture groups that are
    never nested, [^] and [$]. The matcher backtracks the way [re] does:
    a greedy repetition first takes as many characters as it may and gives
    them back one at a time. *)

Module Re.

Inductive cclass :=
| CDigit                    (* \d *)
| CSpace                    (* \s *)
| CAlnum                    (* [A-Za-z0-9] *)
| CChar (c : N).            (* a literal character *)

Definition in_class (k : cclass) (c : N) : bool :=
  match k with
  | CDigit => is_digit c
  | CSpace => is_space c
  | CAlnum => ((65 <=? c) && (c <=? 90) || (97 <=? c) && (c <=? 122)
               || (48 <=? c) && (c <=? 57))%N
  | CChar d => (c =? d)%N
  end.

Inductive atom :=
| Rep (k : cclass) (lo : nat) (hi : option nat)   (* k{lo,hi}; hi = None: no bound *)
| GOpen                                           (* ( *)
| GClose                                          (* ) *)
| Bol                                             (* ^ *)
| Eol.                                            (* $ *)

Definition pattern := list atom.

Definition Lit (c : N) : atom := Rep (CChar c) 1 (Some 1%nat).
Definition Exactly (n : nat) (k : cclass) : atom := Rep k n (Some n).
Definition Plus (k : cclass) : atom := Rep k 1 None.
Definition Star (k : cclass) : atom := Rep k 0 None.

(** The state of one match attempt: the position in the subject, the
    groups already closed and the text of the group that is open. *)
Record mstate := MState {
  m_pos : nat;
  m_done : list str;
  m_open : option str
}.

Definition consume (c : N) (st : mstate) : mstate :=
  {| m_pos := S (m_pos st);
     m_done := m_done st;
     m_open := (fun g => g ++ [c]) <$> m_open st |}.

Fixpoint rep (k : cclass) (lo : nat) (hi : option nat)
    (kont : str -> mstate -> option (list str))
    (s : str) (st : mstate) : option (list str) :=
  let stop := match lo with O => kont s st | S _ => None end in
  match s with
  | c :: s' =>
    if in_class k c && negb (bool_decide (hi = Some O)) then
      match rep k (pred lo) (pred <$> hi) kont s' (consume c st) with
      | Some r => Some r
      | None => stop
      end
    else stop
  | [] => stop
  end.

Fixpoint exec (p : pattern) : str -> mstate -> option (list str) :=
  match p with
  | [] => fun _ st => Some (m_done st)
  | a :: p' =>
    match a with
    | Rep k lo hi => rep k lo hi (exec p')
    | GOpen => fun s st =>
        exec p' s {| m_pos := m_pos st; m_done := m_done st; m_open := Some [] |}
    | GClose => fun s st =>
        exec p' s {| m_pos := m_pos st;
                     m_done := m_done st ++ [default [] (m_open st)];
                     m_open := None |}
    | Bol => fun s st =>
        match m_pos st with O => exec p' s st | S _ => None end
    | Eol => fun s st =>
        match s with
        | [] | [10%N] => exec p' s st
        | _ => None
        end
    end
  end.

Definition start_at (pos : nat) : mstate :=
  {| m_pos := pos; m_done := []; m_open := None |}.

(** [re.match(p, s)]: the groups of a match at the start of [s]. *)
Definition re_match (p : pattern) (s : str) : option (list str) :=
  exec p s (start_at 0).

(** [re.search(p, s)]: the groups of the leftmost match. *)
Fixpoint search_from (p : pattern) (pos : nat) (s : str) : option (list str) :=
  match exec p s (start_at pos) with
  | Some r => Some r
  | None =>
    match s with
    | [] => None
    | _ :: s' => search_from p (S pos) s'
    end
  end.

Definition re_search (p : pattern) (s : str) : option (list str) :=
  search_from p 0 s.

End Re.
Export Re.

(** ** Entries *)

Record Entry := mkEntry {
  id : str;
  date_label : str;
  datetime_iso : str;
  datetime_local : str;
  time_label : str;
  title : str;
  text : str;
  location : str;
  source_url : str
}.

(** ** Date resolution *)

(** [^(\d{4})-(\d{2})-(\d{2})\s+(\d{2}:\d{2})$] *)
Definition datetime_local_re : pattern :=
  [Bol; GOpen; Exactly 4 CDigit; GClose; Lit 45;
   GOpen; Exactly 2 CDigit; GClose; Lit 45;
   GOpen; Exactly 2 CDigit; GClose; Plus CSpace;
   GOpen; Exactly 2 CDigit; Lit 58; Exactly 2 CDigit; GClose; Eol].

(** [(\d{1,2})月\s*(\d{1,2})日\s*(\d{4})] *)
Definition date_label_re : pattern :=
  [GOpen; Rep CDigit 1 (Some 2%nat); GClose; Lit 0x6708; Star CSpace;
   GOpen; Rep CDigit 1 (Some 2%nat); GClose; Lit 0x65e5; Star CSpace;
   GOpen; Exactly 4 CDigit; GClose].

(** [(\d{1,2}):(\d{2})] *)
Definition time_label_re : pattern :=
  [GOpen; Rep CDigit 1 (Some 2%nat); GClose; Lit 58;
   GOpen; Exactly 2 CDigit; GClose].

Definition tier1 (entry : Entry) : option (Z * Z * Z * str) :=
  match datetime_local entry with
  | [] => None
  | _ =>
    match re_match datetime_local_re (datetime_local entry) with
    | Some [g1; g2; g3; g4] => Some (int g1, int g2, int g3, g4)
    | _ => None
    end
  end.

Definition tier2 (entry : Entry) : option (Z * Z * Z * str) :=
  match re_search date_label_re (date_label entry),
        re_search time_label_re (time_label entry) with
  | Some [d1; d2; d3], Some [t1; t2] =>
    let year := int d3 in
    let month := int d1 in
    let day := int d2 in
    let hh := int t1 in
    let mm := int t2 in
    Some (year, month, day, format_0d 2 hh ++ [58%N] ++ format_0d 2 mm)
  | _, _ => None
  end.

Definition parse_entry_datetime_parts (entry : Entry) : option (Z * Z * Z * str) :=
  match tier1 entry with
  | Some r => Some r
  | None => tier2 entry
  end.

Definition entry_of_labels (dl dtl tl : str) : Entry :=
  mkEntry (u "a1") dl [] dtl tl [] [] [] [].

(** ** The document tree

    [BeautifulSoup(html, "html.parser")] is a library call; the script
    only walks the tree it returns. A tree is made of text nodes and tags;
    a tag has a name, its attributes (a dict) and its contents. The
    multi-valued attribute [class] is kept as written and split at white
    space where the script reads it. *)

Module Dom.


Inductive node :=
| NavigableString (s : str)
| Tag (name : str) (attrs : gmap str str) (contents : list node).

(** A node together with its ancestors, nearest first. *)
Definition located : Type := node * list node.

Definition tag_name (n : node) : option str :=
  match n with Tag name _ _ => Some name | NavigableString _ => None end.

Definition contents_of (n : node) : list node :=
  match n with Tag _ _ kids => kids | NavigableString _ => [] end.

(** [tag.get(key, default)] *)
Definition get (n : node) (key : str) (default_value : str) : str :=
  match n with
  | Tag _ attrs _ => default default_value (attrs !! key)
  | NavigableString _ => default_value
  end.

Fixpoint words_aux (cur : str) (s : str) : list str :=
  match s with
  | [] => match cur with [] => [] | _ => [cur] end
  | c :: s' =>
    if is_space c then
      match cur with [] => words_aux [] s' | _ => cur :: words_aux [] s' end
    else words_aux (cur ++ [c]) s'
  end.

(** [tag.get("class", [])] *)
Definition class_list (n : node) : list str :=
  match n with
  | Tag _ attrs _ =>
    match attrs !! u "class" with
    | Some v => words_aux [] v
    | None => []
    end
  | NavigableString _ => []
  end.

Definition has_class (c : str) (n : node) : bool :=
  bool_decide (c ∈ class_list n).

(** The descendants of a node in document order. *)
Fixpoint descendants (ancs : list node) (n : node) : list located :=
  match n with
  | NavigableString _ => []
  | Tag _ _ kids =>
    flat_map (fun k => (k, n :: ancs) :: descendants (n :: ancs) k) kids
  end.

(** *** Selectors

    A compound selector [tag.class[attr^='prefix']] and a chain of
    ancestors reached by the descendant combinator (a space) or the child
    combinator ([>]). The chain is read from the selected element
    upwards, and may use ancestors above the element [select_one] was
    called on. *)

Record compound := Compound {
  c_tag : str;
  c_classes : list str;
  c_attr_prefix : option (str * str)
}.

Inductive combinator := Descendant | Child.

Record selector := Selector {
  s_subject : compound;
  s_above : list (combinator * compound)
}.

Definition matches_compound (c : compound) (n : node) : bool :=
  match n with
  | NavigableString _ => false
  | Tag name attrs _ =>
    bool_decide (name = c_tag c)
    && forallb (fun cl => has_class cl n) (c_classes c)
    && match c_attr_prefix c with
       | None => true
       | Some (key, p) =>
         match attrs !! key with
         | Some v => starts_with p v
         | None => false
         end
       end
  end.

Fixpoint some_ancestor (c : compound) (rest : list node -> bool) (ancs : list node) : bool :=
  match ancs with
  | [] => false
  | a :: ancs' => (matches_compound c a && rest ancs') || some_ancestor c rest ancs'
  end.

Fixpoint matches_above (chain : list (combinator * compound)) (ancs : list node) : bool :=
  match chain with
  | [] => true
  | (Child, c) :: chain' =>
    match ancs with
    | a :: ancs' => matches_compound c a && matches_above chain' ancs'
    | [] => false
    end
  | (Descendant, c) :: chain' => some_ancestor c (matches_above chain') ancs
  end.

Definition matches (sel : selector) (l : located) : bool :=
  matches_compound (s_subject sel) (fst l) && matches_above (s_above sel) (snd l).

(** [tag.select_one(sel)] *)
Definition select_one (sel : selector) (l : located) : option located :=
  find (matches sel) (descendants (snd l) (fst l)).

(** [tag.find_all(name, recursive=False)] *)
Definition find_all_children (name : str) (l : located) : list located :=
  (fun k => (k, fst l :: snd l)) <$>
    List.filter (fun k => bool_decide (tag_name k = Some name)) (contents_of (fst l)).

(** The strings below a node, in document order. *)
Fixpoint all_strings (n : node) : list str :=
  match n with
  | NavigableString s => [s]
  | Tag _ _ kids => flat_map all_strings kids
  end.

(** [tag.get_text(sep, strip=True)]: every string is stripped and the
    empty ones are dropped before they are joined. *)
Definition get_text (sep : str) (n : node) : str :=
  join sep (List.filter (fun s => negb (bool_decide (s = []))) (strip <$> all_strings n)).

(** [for br in node.find_all("br"): br.replace_with("\n")] *)
Fixpoint replace_br (n : node) : node :=
  match n with
  | NavigableString s => n
  | Tag name attrs kids =>
    Tag name attrs
      (map (fun k => if bool_decide (tag_name k = Some (u "br"))
                     then NavigableString [10%N] else replace_br k) kids)
  end.

(** [icon = node.find(name); if icon: icon.extract()]: the first
    descendant with that name, in document order, leaves the tree.
    [None] when there is none. *)
Fixpoint extract_first (name : str) (n : node) : option node :=
  match n with
  | NavigableString _ => None
  | Tag nm attrs kids =>
    let fix go (ks : list node) : option (list node) :=
      match ks with
      | [] => None
      | k :: ks' =>
        if bool_decide (tag_name k = Some name) then Some ks'
        else match extract_first name k with
             | Some k' => Some (k' :: ks')
             | None => cons k <$> go ks'
             end
      end in
    Tag nm attrs <$> go kids
  end.

End Dom.
Export Dom.

(** ** Page extraction *)

Definition BASE : str := u "https://icity.ly".

Definition clean_text (s : str) : str :=
  let s := replace_char 0xa0 (u " ") s in
  let s := collapse_spaces false s in
  strip s.

Definition collapse_blank_lines (lines : list str) : list str :=
  fold_left
    (fun cleaned ln =>
       match ln with
       | [] =>
         match last cleaned with
         | Some [] => cleaned
         | _ => cleaned ++ [[]]
         end
       | _ => cleaned ++ [ln]
       end)
    lines [].

(** The text of [html_to_text_with_breaks] once [get_text] has run. *)
Definition normalize_text (text : str) : str :=
  let lines := rstrip <$> splitlines text in
  let cleaned := collapse_blank_lines lines in
  strip (join [10%N] cleaned).

Definition html_to_text_with_breaks (n : node) : str :=
  let n := replace_br n in
  let text := get_text [10%N] n in
  normalize_text text.

Definition sel (tag : string) (classes : list string) : compound :=
  {| c_tag := u tag; c_classes := u <$> classes; c_attr_prefix := None |}.

(** [ul.posts-list] *)
Definition sel_posts_list : selector :=
  Selector (sel "ul" ["posts-list"%string]) [].

(** [div.meta a.timeago[href^='/a/']] *)
Definition sel_meta_time_a : selector :=
  Selector {| c_tag := u "a"; c_classes := [u "timeago"];
              c_attr_prefix := Some (u "href", u "/a/") |}
           [(Descendant, sel "div" ["meta"%string])].

(** [time.hours] *)
Definition sel_time_hours : selector :=
  Selector (sel "time" ["hours"%string]) [].

(** [h4 a] *)
Definition sel_title : selector :=
  Selector (sel "a" []) [(Descendant, sel "h4" [])].

(** [div.line > div.comment] *)
Definition sel_comment : selector :=
  Selector (sel "div" ["comment"%string]) [(Child, sel "div" ["line"%string])].

(** [div.line > span.location] *)
Definition sel_location : selector :=
  Selector (sel "span" ["location"%string]) [(Child, sel "div" ["line"%string])].

(** [/a/([A-Za-z0-9]+)] *)
Definition entry_id_re : pattern :=
  [Lit 47; Lit 97; Lit 47; GOpen; Plus CAlnum; GClose].

Definition entry_id_of_href (href : str) : str :=
  match re_search entry_id_re href with
  | Some (g1 :: _) => g1
  | _ => href
  end.

Section Extract.

(** The two library functions the extractor calls on its input. *)
Variable html_parser : str -> node.          (* BeautifulSoup(html, "html.parser") *)
Variable urljoin : str -> str -> str.        (* urllib.parse.urljoin *)

(** One [li.diary] with its detail link. [html.parser] gives a [br] no
    contents, so replacing the [br] of the comment node by strings is not
    seen by the selections that follow on the same item. *)
Definition entry_of_item (current_date : str) (li meta_time_a : located) : Entry :=
  let href := get (fst meta_time_a) (u "href") [] in
  let source_url := urljoin BASE href in
  let entry_id := entry_id_of_href href in
  let time_tag := select_one sel_time_hours meta_time_a in
  let datetime_iso :=
    match time_tag with Some t => get (fst t) (u "datetime") [] | None => [] end in
  let datetime_local :=
    match time_tag with Some t => get (fst t) (u "title") [] | None => [] end in
  let time_label :=
    match time_tag with
    | Some t => clean_text (get_text (u " ") (fst t))
    | None => []
    end in
  let title :=
    match select_one sel_title li with
    | Some t => clean_text (get_text (u " ") (fst t))
    | None => []
    end in
  let text :=
    match select_one sel_comment li with
    | Some c => html_to_text_with_breaks (fst c)
    | None => []
    end in
  let location :=
    match select_one sel_location li with
    | Some l =>
      let l' := default (fst l) (extract_first (u "i") (fst l)) in
      clean_text (get_text (u " ") l')
    | None => []
    end in
  {| id := entry_id; date_label := current_date; datetime_iso := datetime_iso;
     datetime_local := datetime_local; time_label := time_label; title := title;
     text := text; location := location; source_url := source_url |}.

(** The body of the loop over the items of the list: the state is
    [current_date] and [entries]. *)
Definition extract_step (acc : str * list Entry) (li : located) : str * list Entry :=
  let '(current_date, entries) := acc in
  if has_class (u "day-cut") (fst li) then
    (clean_text (replace_char 0xea0a (u " ") (get_text (u " ") (fst li))), entries)
  else if negb (has_class (u "diary") (fst li)) then acc
  else
    match select_one sel_meta_time_a li with
    | None => acc
    | Some meta_time_a =>
      (current_date, entries ++ [entry_of_item current_date li meta_time_a])
    end.

Definition extract_entries_from_page (html : str) : list Entry :=
  let soup := html_parser html in
  match select_one sel_posts_list (soup, []) with
  | None => []
  | Some posts_list =>
    snd (fold_left extract_step (find_all_children (u "li") posts_list) ([], []))
  end.

End Extract.

(** ** Sorting and grouping

    [list.sort] and [sorted] are stable; an insertion that puts the new
    element in front of the first element that is not smaller gives the
    same list as any stable sort. *)

Section Sort.

Context {A K : Type} (leb : K -> K -> bool) (key : A -> K).

Fixpoint insert_sorted (x : A) (l : list A) : list A :=
  match l with
  | [] => [x]
  | y :: l' => if leb (key x) (key y) then x :: l else y :: insert_sorted x l'
  end.

Definition sort_by (l : list A) : list A := foldr insert_sorted [] l.

End Sort.

(** A [dict] whose order of insertion matters is a list of keys with
    their values. [d.setdefault(k, []).append(v)]: *)
Fixpoint setdefault_append {K V : Type} `{EqDecision K}
    (k : K) (v : V) (d : list (K * list V)) : list (K * list V) :=
  match d with
  | [] => [(k, [v])]
  | (k', vs) :: d' =>
    if decide (k = k') then (k', vs ++ [v]) :: d'
    else (k', vs) :: setdefault_append k v d'
  end.

Definition day_key : Type := Z * Z * Z.

(** The order of tuples of integers. *)
Definition day_key_leb (a b : day_key) : bool :=
  let '(y1, m1, d1) := a in
  let '(y2, m2, d2) := b in
  (y1 <? y2) || ((y1 =? y2) && ((m1 <? m2) || ((m1 =? m2) && (d1 <=? d2)))).

Definition group_step (grouped : list (day_key * list (str * Entry))) (entry : Entry)
    : list (day_key * list (str * Entry)) :=
  match parse_entry_datetime_parts entry with
  | None => grouped
  | Some (year, month, day, hm) => setdefault_append (year, month, day) (hm, entry) grouped
  end.

(** The dictionary [grouped] of [write_split_markdown] after its first loop. *)
Definition group_by_day (entries : list Entry) : list (day_key * list (str * Entry)) :=
  fold_left group_step entries [].

(** The days in the order the second loop visits them, each with its
    items after [items.sort(key=lambda x: x[0])]. *)
Definition day_groups (entries : list Entry) : list (day_key * list (str * Entry)) :=
  (fun g => (fst g, sort_by str_leb fst (snd g))) <$>
    sort_by day_key_leb fst (group_by_day entries).

(** ** Exceptions, the file system and the output files *)

(** The text of an [OSError] and of a [UnicodeEncodeError] is made by the
    operating system and the codec; the texts below stand for it, and
    nothing is stated about them. *)
Inductive exn :=
| RuntimeError (msg : str)
| RequestException (msg : str)
| OSError (msg : str)
| UnicodeEncodeError (msg : str).

Definition exn_str (e : exn) : str :=
  match e with
  | RuntimeError m | RequestException m | OSError m | UnicodeEncodeError m => m
  end.

Inductive result (A : Type) :=
| Ok (a : A)
| Raise (e : exn).
Arguments Ok {A} a.
Arguments Raise {A} e.

(** What [json.dump] is given. *)
Inductive json :=
| JString (s : str)
| JArray (items : list json)
| JObject (fields : list (str * json)).

(** A file holds text, or the document [json.dump] wrote, or what was
    written of one of these before a piece of it could not be encoded. *)
Inductive content :=
| TextFile (s : str)
| JsonFile (v : json)
| Truncated (c : content).

(** What the [utf-8] codec encodes: every character but the surrogates. *)
Definition utf8_char (c : N) : bool := ((c <? 0xD800) || (0xDFFF <? c))%N.

Definition utf8_ok (s : str) : bool := forallb utf8_char s.

(** [json.dump(..., ensure_ascii=False)] writes the strings as they are. *)
Fixpoint json_ok (v : json) : bool :=
  match v with
  | JString s => utf8_ok s
  | JArray items => forallb json_ok items
  | JObject fields => forallb (fun kv => let '(k, x) := kv in utf8_ok k && json_ok x) fields
  end.

Definition content_ok (c : content) : bool :=
  match c with
  | TextFile s => utf8_ok s
  | JsonFile v => json_ok v
  | Truncated _ => true
  end.

Module Fs.

(** A path is the list of its components, [[]] being the directory the
    paths start from (["."]); [os.path.join] with plain names appends
    them. *)
Abbreviation path := (list str).

Record filesystem := Filesystem {
  files : gmap path content;
  dirs : gset path
}.

Definition io (A : Type) : Type := filesystem -> result A * filesystem.

Definition ret {A : Type} (a : A) : io A := fun fs => (Ok a, fs).

Definition raise {A : Type} (e : exn) : io A := fun fs => (Raise e, fs).

Definition bind {A B : Type} (m : io A) (f : A -> io B) : io B :=
  fun fs =>
    match m fs with
    | (Ok a, fs') => f a fs'
    | (Raise e, fs') => (Raise e, fs')
    end.

Definition is_dir (fs : filesystem) (p : path) : bool :=
  bool_decide (p = [] ∨ p ∈ dirs fs).

Definition is_file (fs : filesystem) (p : path) : bool :=
  bool_decide (is_Some (files fs !! p)).

(** [os.path.exists(p)] *)
Definition path_exists (p : path) : io bool :=
  fun fs => (Ok (is_dir fs p || is_file fs p), fs).

(** [shutil.rmtree(p)]: [p] has to be a directory; everything at and
    below it goes, but the directory the paths start from cannot be
    removed itself, which is an error once it is empty. *)
Definition rmtree (p : path) : io unit :=
  fun fs =>
    if is_dir fs p then
      let emptied := {| files := filter (fun kv => ¬ p `prefix_of` kv.1) (files fs);
                        dirs := filter (fun d => ¬ p `prefix_of` d) (dirs fs) |} in
      match p with
      | [] => (Raise (OSError (u "rmtree: cannot remove the current directory")), emptied)
      | _ => (Ok tt, emptied)
      end
    else (Raise (OSError (u "rmtree: not a directory")), fs).

(** [os.makedirs(p, exist_ok=True)]: the directories on the way are made
    from the top; a file in the way is an error. *)
Fixpoint makedirs_from (made : path) (todo : list str) : io unit :=
  match todo with
  | [] => ret tt
  | c :: todo' =>
    fun fs =>
      let q := made ++ [c] in
      if is_file fs q then (Raise (OSError (u "makedirs: file exists")), fs)
      else makedirs_from q todo' {| files := files fs; dirs := {[q]} ∪ dirs fs |}
  end.

Definition makedirs (p : path) : io unit := makedirs_from [] p.

(** [with open(p, "w", encoding="utf-8") as f: ...]: the parent has to
    be a directory and [p] must not be one. The file is there once it is
    open; a piece that cannot be encoded ends the writing with an error
    and leaves in the file what was written before it. *)
Definition write_file (p : path) (c : content) : io unit :=
  fun fs =>
    if is_dir fs p then (Raise (OSError (u "open: is a directory")), fs)
    else if negb (is_dir fs (removelast p)) then
      (Raise (OSError (u "open: no such directory")), fs)
    else if content_ok c then
      (Ok tt, {| files := <[p := c]> (files fs); dirs := dirs fs |})
    else
      (Raise (UnicodeEncodeError (u "surrogates not allowed")),
       {| files := <[p := Truncated c]> (files fs); dirs := dirs fs |}).

End Fs.
Export Fs.

Notation "'let!' x ':=' m 'in' k" := (bind m (fun x => k))
  (at level 10, x name, m at level 100, k at level 200, only parsing).
Notation "m >>> k" := (bind m (fun _ => k))
  (at level 90, right associativity, only parsing).

(** *** Markdown, one file a day *)

Definition format_entry_markdown (entry : Entry) (time_label : str) : str :=
  let lines :=
    [match title entry with
     | [] => u "## " ++ time_label
     | _ => u "## " ++ time_label ++ u " - " ++ title entry
     end;
     [];
     u "- ID: `" ++ id entry ++ u "`"]
    ++ match location entry with
       | [] => []
       | _ => [u "- 地点: " ++ location entry]
       end
    ++ [u "- 链接: " ++ source_url entry;
        [];
        match text entry with [] => [] | _ => strip (text entry) end;
        []] in
  join [10%N] lines.

Fixpoint day_sections (items : list (str * Entry)) : str :=
  match items with
  | [] => []
  | [(hm, entry)] => format_entry_markdown entry hm
  | (hm, entry) :: rest =>
    format_entry_markdown entry hm ++ u "---" ++ [10; 10]%N ++ day_sections rest
  end.

Definition day_name (k : day_key) : str :=
  let '(year, month, day) := k in
  format_0d 4 year ++ u "-" ++ format_0d 2 month ++ u "-" ++ format_0d 2 day.

Definition day_dir (md_root_dir : path) (k : day_key) : path :=
  let '(year, month, day) := k in
  md_root_dir ++ [format_0d 4 year; format_0d 2 month].

Definition day_file (md_root_dir : path) (k : day_key) : path :=
  day_dir md_root_dir k ++ [day_name k ++ u ".md"].

Definition day_text (k : day_key) (items : list (str * Entry)) : str :=
  u "# " ++ day_name k ++ [10; 10]%N
  ++ u "> 共 " ++ str_of_Z (Z.of_nat (length items)) ++ u " 条日记" ++ [10; 10]%N
  ++ day_sections items.

(** The second loop of [write_split_markdown]; [file_count] is threaded. *)
Fixpoint write_days (md_root_dir : path) (days : list (day_key * list (str * Entry)))
    (file_count : Z) : io Z :=
  match days with
  | [] => ret file_count
  | (k, unsorted) :: days' =>
    let items := sort_by str_leb fst unsorted in
    makedirs (day_dir md_root_dir k) >>>
    write_file (day_file md_root_dir k) (TextFile (day_text k items)) >>>
    write_days md_root_dir days' (file_count + 1)
  end.

Definition write_split_markdown (entries : list Entry) (md_root_dir : path) : io Z :=
  let grouped := group_by_day entries in
  let! there := path_exists md_root_dir in
  (if there : bool then rmtree md_root_dir else ret tt) >>>
  makedirs md_root_dir >>>
  write_days md_root_dir (sort_by day_key_leb fst grouped) 0.

(** *** JSON and TXT *)

Definition asdict (e : Entry) : json :=
  JObject
    [(u "id", JString (id e)); (u "date_label", JString (date_label e));
     (u "datetime_iso", JString (datetime_iso e));
     (u "datetime_local", JString (datetime_local e));
     (u "time_label", JString (time_label e)); (u "title", JString (title e));
     (u "text", JString (text e)); (u "location", JString (location e));
     (u "source_url", JString (source_url e))].

Definition txt_block (idx : Z) (entry : Entry) : str :=
  u "#" ++ str_of_Z idx ++ u "  ID: " ++ id entry ++ [10%N]
  ++ match datetime_local entry, date_label entry, time_label entry with
     | _ :: _, _, _ => u "DateTime: " ++ datetime_local entry ++ [10%N]
     | [], [], [] => []
     | [], _, _ =>
       strip (u "DateTime: " ++ date_label entry ++ u " " ++ time_label entry) ++ [10%N]
     end
  ++ match title entry with [] => [] | _ => u "Title: " ++ title entry ++ [10%N] end
  ++ match location entry with [] => [] | _ => u "Location: " ++ location entry ++ [10%N] end
  ++ u "URL: " ++ source_url entry ++ [10%N]
  ++ u "Text:" ++ [10%N]
  ++ strip (text entry) ++ [10%N]
  ++ replicate 80 45%N ++ [10; 10]%N.

Fixpoint txt_blocks (idx : Z) (entries : list Entry) : str :=
  match entries with
  | [] => []
  | e :: rest => txt_block idx e ++ txt_blocks (idx + 1) rest
  end.

Definition txt_text (entries : list Entry) : str :=
  u "iCity Diary Export (text)" ++ [10%N]
  ++ u "Total entries: " ++ str_of_Z (Z.of_nat (length entries)) ++ [10%N]
  ++ replicate 80 61%N ++ [10; 10]%N
  ++ txt_blocks 1 entries.

Definition write_outputs (entries : list Entry) (json_path txt_path : path) : io unit :=
  write_file json_path (JsonFile (JArray (asdict <$> entries))) >>>
  write_file txt_path (TextFile (txt_text entries)).

(** ** The aggregator *)

(** What a run does that can be seen from outside. *)
Inductive event :=
| EvGet (url : str)
| EvPrint (line : str)
| EvSleep.

(** [session.get(url, timeout=30)] followed by [raise_for_status()] and
    [resp.text]; [session.post] likewise. Within one run no address is
    asked for twice, so a function of the address covers a server that
    changes between requests. *)
Record session := Session {
  session_get : str -> result str;
  session_post : str -> list (str * str) -> result str
}.

Definition LOGIN_PAGE : str := BASE ++ u "/welcome".
Definition LOGIN_POST : str := BASE ++ u "/users/sign_in".

Definition build_posts_url (target_user : str) : str :=
  BASE ++ u "/u/" ++ target_user ++ u "/posts".

Definition is_login_page (html : str) : bool :=
  contains (u "开始使用网页版") html && contains (u "用户名 / Email") html
  && contains (u "登入") html.

(** The address of a page of the list. *)
Definition page_url (posts_url : str) (page : Z) : str :=
  if page =? 1 then posts_url else posts_url ++ u "?page=" ++ str_of_Z page.

Definition session_expired (page : Z) : exn :=
  RuntimeError (u "抓取到第 " ++ str_of_Z page ++ u " 页时会话失效，请重新运行").

Definition progress_line (page : Z) (entries all_entries : list Entry) : str :=
  u "[page " ++ str_of_Z page ++ u "] +" ++ str_of_Z (Z.of_nat (length entries))
  ++ u " entries (total: " ++ str_of_Z (Z.of_nat (length all_entries)) ++ u ")".

(** [seen = set(); deduped = []; for entry in all_entries: ...] *)
Fixpoint dedup_loop (seen : gset str) (all_entries : list Entry) : list Entry :=
  match all_entries with
  | [] => []
  | entry :: rest =>
    if bool_decide (id entry ∈ seen) then dedup_loop seen rest
    else entry :: dedup_loop ({[id entry]} ∪ seen) rest
  end.

Definition dedup_entries (all_entries : list Entry) : list Entry :=
  dedup_loop ∅ all_entries.

Section Scrape.

Variable html_parser : str -> node.
Variable urljoin : str -> str -> str.
Variable s : session.
Variable posts_url : str.
Variable max_pages : option Z.

(** The [while True] loop; [None] when [fuel] iterations did not reach a
    [break] or a [raise]. *)
Fixpoint scrape_loop (fuel : nat) (page : Z) (all_entries : list Entry)
    : list event * option (result (list Entry)) :=
  match fuel with
  | O => ([], None)
  | S fuel' =>
    let url := page_url posts_url page in
    match session_get s url with
    | Raise e => ([EvGet url], Some (Raise e))
    | Ok html =>
      if is_login_page html then ([EvGet url], Some (Raise (session_expired page)))
      else
        match extract_entries_from_page html_parser urljoin html with
        | [] => ([EvGet url], Some (Ok all_entries))
        | (_ :: _) as entries =>
          let all_entries := all_entries ++ entries in
          let seen := [EvGet url; EvPrint (progress_line page entries all_entries)] in
          if match max_pages with Some m => m <=? page | None => false end
          then (seen, Some (Ok all_entries))
          else
            let '(later, r) := scrape_loop fuel' (page + 1) all_entries in
            (seen ++ EvSleep :: later, r)
        end
    end
  end.

Definition scrape_all (fuel : nat) : list event * option (result (list Entry)) :=
  let '(evs, r) := scrape_loop fuel 1 [] in
  (evs,
   match r with
   | Some (Ok all_entries) => Some (Ok (dedup_entries all_entries))
   | other => other
   end).

End Scrape.

(** ** Logging in and the export of [main] *)

(** [soup.find(name, attrs={key: value})] *)
Definition find_with_attr (name key value : str) (n : node) : option node :=
  fst <$> find (fun l => match fst l with
                         | Tag nm attrs _ =>
                           bool_decide (nm = name) && bool_decide (attrs !! key = Some value)
                         | NavigableString _ => false
                         end)
               (descendants [] n).

Definition truthy_attr (n : option node) (key : str) : option str :=
  match n with
  | Some t => match get t key [] with [] => None | v => Some v end
  | None => None
  end.

Definition get_csrf_token (html_parser : str -> node) (html : str) : option str :=
  let soup := html_parser html in
  match truthy_attr (find_with_attr (u "meta") (u "name") (u "csrf-token") soup) (u "content") with
  | Some v => Some v
  | None =>
    truthy_attr (find_with_attr (u "input") (u "name") (u "authenticity_token") soup) (u "value")
  end.

Definition login (html_parser : str -> node) (s : session)
    (username password target_user : str) : result unit :=
  match session_get s LOGIN_PAGE with
  | Raise e => Raise e
  | Ok login_page =>
    match get_csrf_token html_parser login_page with
    | None => Raise (RuntimeError (u "无法获取登录 token，请稍后重试"))
    | Some token =>
      let payload :=
        [(u "utf8", u "✓"); (u "authenticity_token", token);
         (u "icty_user[login]", username); (u "icty_user[password]", password);
         (u "icty_user[remember_me]", u "1"); (u "commit", u "登入")] in
      match session_post s LOGIN_POST payload with
      | Raise e => Raise e
      | Ok _ =>
        match session_get s (BASE ++ u "/u/" ++ target_user) with
        | Raise e => Raise e
        | Ok page_text =>
          if contains (u "开始使用网页版") page_text && contains (u "用户名 / Email") page_text
          then Raise (RuntimeError (u "登录失败：账号或密码不正确，或触发了额外验证"))
          else Ok tt
        end
      end
    end
  end.

Record options := Options {
  username : str;
  password : str;
  target_user : str;
  max_pages : option Z;
  split_md : bool;
  output_dir : path;
  prefix : str
}.

(** The three outputs, for a [prefix] that is the name of a file:
    [os.path.join] would split a prefix with a separator in it. *)
Definition json_path_of (o : options) : path := output_dir o ++ [prefix o ++ u ".json"].
Definition txt_path_of (o : options) : path := output_dir o ++ [prefix o ++ u ".txt"].
Definition md_root_of (o : options) : path := output_dir o ++ [prefix o ++ u "_md"].

Section Main.

Variable html_parser : str -> node.
Variable urljoin : str -> str -> str.

(** The body of the [try] of [main]: the entries and the number of
    Markdown files. *)
Definition try_export (s : session) (o : options) (fuel : nat)
    : option (io (list Entry * Z)) :=
  match login html_parser s (username o) (password o) (target_user o) with
  | Raise e => Some (raise e)
  | Ok _ =>
    match snd (scrape_all html_parser urljoin s (build_posts_url (target_user o))
                          (max_pages o) fuel) with
    | None => None
    | Some (Raise e) => Some (raise e)
    | Some (Ok []) =>
      Some (raise (RuntimeError (u "没有抓到任何日记，请检查账号权限或目标用户")))
    | Some (Ok entries) =>
      Some (write_outputs entries (json_path_of o) (txt_path_of o) >>>
            if split_md o then
              let! md_file_count := write_split_markdown entries (md_root_of o) in
              ret (entries, md_file_count)
            else ret (entries, 0))
    end
  end.

(** [main] from [build_output_paths] on: the exit status and what went to
    standard error. An exception of [os.makedirs] before the [try] is not
    caught. *)
Definition export_main (s : session) (o : options) (fuel : nat) (fs : filesystem)
    : option (result (Z * str) * filesystem) :=
  match makedirs (output_dir o) fs with
  | (Raise e, fs1) => Some (Raise e, fs1)
  | (Ok _, fs1) =>
    match try_export s o fuel with
    | None => None
    | Some body =>
      match body fs1 with
      | (Raise (RequestException m), fs2) => Some (Ok (1, u "网络请求失败：" ++ m), fs2)
      | (Raise e, fs2) => Some (Ok (1, u "导出失败：" ++ exn_str e), fs2)
      | (Ok _, fs2) => Some (Ok (0, []), fs2)
      end
    end
  end.

End Main.

(** ** The command line

    [input] and [getpass] are parameters of the functions that ask; what
    they are asked is recorded, with what is printed on standard error. *)

Module Cli.

Inductive console_event :=
| Asked (prompt : str)             (* input_fn(prompt) *)
| AskedHidden (prompt : str)       (* getpass_fn(prompt) *)
| Printed (line : str).            (* print(line, file=sys.stderr) *)

Inductive value_error :=
| ValueError (msg : str).

(** Truth of an optional string, and [a or b]. *)
Definition truthy (a : option str) : bool :=
  match a with Some (_ :: _) => true | _ => false end.

Definition py_or (a b : option str) : option str :=
  if truthy a then a else b.

Section Console.

Variable input_fn : str -> str.
Variable getpass_fn : str -> str.
Variable lower : str -> str.                 (* str.lower *)
Variable os_sep : str.                       (* os.sep, for os.path.join *)

Definition prompt_with_default (prompt default_value : str) : str * list console_event :=
  match default_value with
  | _ :: _ =>
    let question := prompt ++ u "（默认：" ++ default_value ++ u "）：" in
    let value := strip (input_fn question) in
    (match value with [] => default_value | _ => value end, [Asked question])
  | [] =>
    let question := prompt ++ u "：" in
    (strip (input_fn question), [Asked question])
  end.

Definition prompt_yes_no (prompt : str) (default_yes : bool) : bool * list console_event :=
  let default_text := if default_yes then u "Y/n" else u "y/N" in
  let question := prompt ++ u "（" ++ default_text ++ u "）：" in
  let raw := lower (strip (input_fn question)) in
  (match raw with
   | [] => default_yes
   | _ => bool_decide (raw ∈ [u "y"; u "yes"; u "是"; u "1"])
   end,
   [Asked question]).

Definition resolve_credentials (username password : option str)
    : (value_error + str * str) * list console_event :=
  let ask_name := u "请输入 iCity 登录用户名或邮箱：" in
  let ask_pass := u "请输入登录密码（输入时不会显示）：" in
  let given := strip (default [] username) in
  let '(final_username, asked1) :=
    match given with
    | [] => (strip (input_fn ask_name), [Asked ask_name])
    | _ => (given, [])
    end in
  match final_username with
  | [] => (inl (ValueError (u "用户名不能为空")), asked1)
  | _ =>
    let '(final_password, asked2) :=
      match password with
      | None => (getpass_fn ask_pass, [AskedHidden ask_pass])
      | Some p => (p, [])
      end in
    match final_password with
    | [] => (inl (ValueError (u "密码不能为空")), asked1 ++ asked2)
    | _ => (inr (final_username, final_password), asked1 ++ asked2)
    end
  end.

(** What [parse_args] returns, and [len(sys.argv)]. *)
Record arguments := Arguments {
  legacy_username : option str;
  legacy_password : option str;
  legacy_prefix : option str;
  arg_username : option str;
  arg_password : option str;
  arg_target_user : option str;
  arg_output_dir : option str;
  arg_prefix : option str;
  arg_max_pages : option Z;
  no_split_md : bool;
  no_interactive : bool;
  argv_len : nat
}.

(** What [main] has settled when it starts the export. *)
Record setup := Setup {
  the_username : str;
  the_password : str;
  the_target_user : str;
  the_output_dir : str;
  the_prefix : str;
  the_split_md : bool;
  the_max_pages : option Z
}.

(** [main] up to the export, the packages it needs being there: the
    status 2, or what the export starts from. *)
Definition main_setup (args : arguments) : (Z + setup) * list console_event :=
  if match arg_max_pages args with Some m => m <? 1 | None => false end then
    (inl 2, [Printed (u "参数错误：--max-pages 必须是大于等于 1 的整数")])
  else
    let username_input := py_or (arg_username args) (legacy_username args) in
    let password_input := py_or (arg_password args) (legacy_password args) in
    let interactive_mode := negb (no_interactive args) in
    let guided_mode := interactive_mode && bool_decide (argv_len args = 1%nat) in
    if negb interactive_mode && (negb (truthy username_input) || negb (truthy password_input))
    then
      (inl 2, [Printed (u "参数错误：禁用交互模式时，必须提供 --username 和 --password")])
    else
      match resolve_credentials username_input password_input with
      | (inl (ValueError msg), log1) => (inl 2, log1 ++ [Printed (u "输入错误：" ++ msg)])
      | (inr (username, password), log1) =>
        let '(target_user, log2) :=
          if interactive_mode && negb (truthy (arg_target_user args))
          then prompt_with_default (u "请输入要导出的用户ID") username
          else (strip (default [] (py_or (arg_target_user args) (Some username))), []) in
        match target_user with
        | [] => (inl 2, log1 ++ log2 ++ [Printed (u "输入错误：target user 不能为空")])
        | _ =>
          let default_output_dir := u "." ++ os_sep ++ u "export" in
          let '(output_dir, log3) :=
            if interactive_mode && negb (truthy (arg_output_dir args))
            then prompt_with_default (u "请输入导出目录") default_output_dir
            else (default [] (py_or (arg_output_dir args) (Some default_output_dir)), []) in
          let default_prefix := u "icity_" ++ target_user ++ u "_diary_export" in
          let '(prefix, log4) :=
            if interactive_mode && negb (truthy (arg_prefix args))
               && negb (truthy (legacy_prefix args))
            then prompt_with_default (u "请输入导出文件名前缀") default_prefix
            else (default [] (py_or (arg_prefix args)
                                (py_or (legacy_prefix args) (Some default_prefix))), []) in
          let '(split_md, log5) :=
            if guided_mode && negb (no_split_md args)
            then prompt_yes_no (u "是否按 年/月/日 生成 Markdown 文件") true
            else (negb (no_split_md args), []) in
          (inr {| the_username := username; the_password := password;
                  the_target_user := target_user; the_output_dir := output_dir;
                  the_prefix := prefix; the_split_md := split_md;
                  the_max_pages := arg_max_pages args |},
           log1 ++ log2 ++ log3 ++ log4 ++ log5)
        end
      end.

End Console.

End Cli.
Export Cli.

(** ** A small site to run the definitions on *)

Module Fixture.

Definition attrs_of (l : list (string * string)) : gmap str str :=
  list_to_map ((fun kv => (u (fst kv), u (snd kv))) <$> l).

Definition elem (name : string) (attrs : list (string * string)) (kids : list node) : node :=
  Tag (u name) (attrs_of attrs) kids.

Definition txt (s : string) : node := NavigableString (u s).

Definition day_cut (label : string) : node :=
  elem "li" [("class", "day-cut")]%string [txt label].

Definition diary (href time body : string) : node :=
  elem "li" [("class", "diary")]%string
    [elem "div" [("class", "line")]%string
       [elem "div" [("class", "comment")]%string [txt body]];
     elem "div" [("class", "meta")]%string
       [elem "a" [("class", "timeago"); ("href", href)]%string
          [elem "time" [("class", "hours")]%string [txt time]]]].

Definition page_of (items : list node) : node :=
  elem "[document]" [] [elem "ul" [("class", "posts-list")]%string items].

(** A parser that knows a few documents by name. *)
Definition parser_of (known : list (str * node)) (html : str) : node :=
  match find (fun kv => bool_decide (fst kv = html)) known with
  | Some kv => snd kv
  | None => elem "[document]" [] []
  end.

Definition concat_url (base href : str) : str := base ++ href.

Definition server_of (pages : list (str * str)) : session :=
  {| session_get := fun url =>
       match find (fun kv => bool_decide (fst kv = url)) pages with
       | Some kv => Ok (snd kv)
       | None => Ok (u "nothing here")
       end;
     session_post := fun _ _ => Ok [] |}.

Definition posts : str := build_posts_url (u "me").

(** Two pages that share the entry [a2]; the third page is empty. *)
Definition overlap_parser : str -> node :=
  parser_of
    [(u "one", page_of [day_cut "3月5日2026"; diary "/a/a1" "08:30" "first";
                        diary "/a/a2" "09:00" "second"]);
     (u "two", page_of [day_cut "3月4日2026"; diary "/a/a2" "09:00" "second again";
                        diary "/a/a3" "07:15" "third"])].

Definition overlap_site : session :=
  server_of [(posts, u "one"); (posts ++ u "?page=2", u "two")].

(** Logging in works, and the login page comes back as page 3. *)
Definition expired_parser : str -> node :=
  parser_of
    [(u "one", page_of [day_cut "3月5日2026"; diary "/a/a1" "08:30" "first"]);
     (u "two", page_of [diary "/a/a2" "09:00" "second"]);
     (u "welcome",
      elem "[document]" []
        [elem "meta" [("name", "csrf-token"); ("content", "token")]%string []])].

Definition expired_site : session :=
  server_of [(LOGIN_PAGE, u "welcome");
             (posts, u "one"); (posts ++ u "?page=2", u "two");
             (posts ++ u "?page=3", u "开始使用网页版 用户名 / Email 登入")].

Definition my_options : options :=
  {| username := u "me"; password := u "secret"; target_user := u "me";
     max_pages := None; split_md := true; output_dir := [u "export"];
     prefix := u "icity_me_diary_export" |}.

Definition overlap_out : list Entry :=
  Eval vm_compute in
    match snd (scrape_all overlap_parser concat_url overlap_site posts None 5) with
    | Some (Ok out) => out
    | _ => []
    end.

Definition overlap_events : list event :=
  Eval vm_compute in fst (scrape_all overlap_parser concat_url overlap_site posts None 5).

(** A page whose first entry has a body with trailing spaces, a run of
    blank lines and a [br], and whose second entry has a detail link
    without an id. *)
Definition messy_parser : str -> node :=
  parser_of
    [(u "messy",
      page_of
        [day_cut "3月5日2026";
         elem "li" [("class", "diary")]%string
           [elem "div" [("class", "line")]%string
              [elem "div" [("class", "comment")]%string
                 [NavigableString (u "  one  " ++ [10; 10; 10]%N ++ u " two ");
                  elem "br" [] [];
                  txt "three"]];
            elem "div" [("class", "meta")]%string
              [elem "a" [("class", "timeago"); ("href", "/a/a1?x=1")]%string
                 [elem "time" [("class", "hours")]%string [txt "08:30"]]]];
         diary "/a/" "09:00" "no id"])].

Definition no_entry : Entry := mkEntry [] [] [] [] [] [] [] [] [].

Definition messy_first : Entry :=
  Eval vm_compute in
    nth 0 (extract_entries_from_page messy_parser concat_url (u "messy")) no_entry.

Definition messy_second : Entry :=
  Eval vm_compute in
    nth 1 (extract_entries_from_page messy_parser concat_url (u "messy")) no_entry.

Definition empty_fs : filesystem := {| files := ∅; dirs := ∅ |}.

End Fixture.

(** ** What the claims speak of *)

(** *** Words of a pattern

    [accepts p s st r]: a prefix of [s] is a word of [p], and reading it
    from the state [st] leaves the groups [r]. *)

Definition consume_all (w : str) (st : mstate) : mstate :=
  fold_left (fun st c => consume c st) w st.

Fixpoint accepts (p : pattern) (s : str) (st : mstate) (r : list str) : Prop :=
  match p with
  | [] => r = m_done st
  | Rep k lo hi :: p' =>
    exists w s', s = w ++ s' /\ forallb (in_class k) w = true
      /\ (lo <= length w)%nat /\ (forall h, hi = Some h -> (length w <= h)%nat)
      /\ accepts p' s' (consume_all w st) r
  | GOpen :: p' =>
    accepts p' s {| m_pos := m_pos st; m_done := m_done st; m_open := Some [] |} r
  | GClose :: p' =>
    accepts p' s {| m_pos := m_pos st;
                    m_done := m_done st ++ [default [] (m_open st)];
                    m_open := None |} r
  | Bol :: p' => m_pos st = O /\ accepts p' s st r
  | Eol :: p' => (s = [] \/ s = [10%N]) /\ accepts p' s st r
  end.

(** [n] decimal digits. *)
Definition digits (n : nat) (w : str) : Prop :=
  length w = n /\ forallb is_digit w = true.

(** One or two decimal digits. *)
Definition digits12 (w : str) : Prop :=
  (1 <= length w <= 2)%nat /\ forallb is_digit w = true.

Definition spaces (w : str) : Prop := forallb is_space w = true.

(** [s] is a date and a time of day, [YYYY-MM-DD HH:MM]: the pattern of
    the first tier, with white space between the two and at most one
    newline at the end. *)
Definition strict_datetime (s y mo d hm : str) : Prop :=
  exists ws h mi nl,
    s = y ++ [45%N] ++ mo ++ [45%N] ++ d ++ ws ++ hm ++ nl
    /\ hm = h ++ [58%N] ++ mi
    /\ digits 4 y /\ digits 2 mo /\ digits 2 d /\ digits 2 h /\ digits 2 mi
    /\ ws <> [] /\ spaces ws /\ (nl = [] \/ nl = [10%N]).

Definition matches_strict (s : str) : Prop :=
  exists y mo d hm, strict_datetime s y mo d hm.

(** [mo月d日y] occurs in [s]. *)
Definition date_occurs (s mo d y : str) : Prop :=
  exists pre ws1 ws2 post,
    s = pre ++ mo ++ [0x6708%N] ++ ws1 ++ d ++ [0x65e5%N] ++ ws2 ++ y ++ post
    /\ digits12 mo /\ digits12 d /\ digits 4 y /\ spaces ws1 /\ spaces ws2.

Definition contains_date (s : str) : Prop :=
  exists mo d y, date_occurs s mo d y.

(** [h:mi] occurs in [s]. *)
Definition time_occurs (s h mi : str) : Prop :=
  exists pre post,
    s = pre ++ h ++ [58%N] ++ mi ++ post /\ digits12 h /\ digits 2 mi.

Definition contains_time (s : str) : Prop :=
  exists h mi, time_occurs s h mi.

(** What the second tier makes of a date [mo月d日y] and a time [h:mi]. *)
Definition tier2_value (mo d y h mi : str) : Z * Z * Z * str :=
  (int y, int mo, int d, format_0d 2 (int h) ++ [58%N] ++ format_0d 2 (int mi)).

(** *** The date and the time a label is read as

    [re.search] takes the match that starts first. *)

(** [s] starts with the date [mo月d日y]. *)
Definition date_at (s mo d y : str) : Prop :=
  exists ws1 ws2 post,
    s = mo ++ [0x6708%N] ++ ws1 ++ d ++ [0x65e5%N] ++ ws2 ++ y ++ post
    /\ digits12 mo /\ digits12 d /\ digits 4 y /\ spaces ws1 /\ spaces ws2.

(** [mo月d日y] is the date of [s] that starts first. *)
Definition first_date (s mo d y : str) : Prop :=
  exists pre s',
    s = pre ++ s' /\ date_at s' mo d y
    /\ forall pre' s'' mo' d' y',
         s = pre' ++ s'' -> date_at s'' mo' d' y' -> (length pre <= length pre')%nat.

(** [s] starts with the time [h:mi]. *)
Definition time_at (s h mi : str) : Prop :=
  exists post, s = h ++ [58%N] ++ mi ++ post /\ digits12 h /\ digits 2 mi.

(** [h:mi] is the time of [s] that starts first. *)
Definition first_time (s h mi : str) : Prop :=
  exists pre s',
    s = pre ++ s' /\ time_at s' h mi
    /\ forall pre' s'' h' mi',
         s = pre' ++ s'' -> time_at s'' h' mi' -> (length pre <= length pre')%nat.

(** The two decimal digits of a number below 100, in ASCII. *)
Definition two_digits (v : Z) : str :=
  [Z.to_N (48 + v / 10); Z.to_N (48 + v mod 10)].

(** *** Normal text

    The lines of a text are what lies between its newlines
    ([t.split("\n")]). *)

Fixpoint split_on (d : N) (s : str) : list str :=
  match s with
  | [] => [[]]
  | c :: s' =>
    if (c =? d)%N then [] :: split_on d s'
    else match split_on d s' with
         | l :: ls => (c :: l) :: ls
         | [] => [[c]]
         end
  end.

Definition lines_of (t : str) : list str := split_on 10 t.

(** [ln.rstrip() == ln] *)
Definition right_trimmed (l : str) : Prop := rstrip l = l.

Fixpoint no_double_blank (ls : list str) : Prop :=
  match ls with
  | a :: ((b :: _) as rest) => ~ (a = [] /\ b = []) /\ no_double_blank rest
  | _ => True
  end.

(** Every line is right-trimmed, no two blank lines follow each other,
    and a text that is not empty neither starts nor ends with a blank
    line. *)
Definition normalized (t : str) : Prop :=
  Forall right_trimmed (lines_of t)
  /\ no_double_blank (lines_of t)
  /\ (t = [] \/ (head (lines_of t) <> Some [] /\ last (lines_of t) <> Some [])).

(** Lines without their blank lines at the front, the first line left
    stripped; lines without their blank lines at the end. *)
Fixpoint lstrip_lines (ls : list str) : list str :=
  match ls with
  | [] => []
  | [] :: rest => lstrip_lines rest
  | l :: rest => lstrip l :: rest
  end.

Fixpoint drop_blank_end (ls : list str) : list str :=
  match ls with
  | [] => []
  | l :: rest =>
    match drop_blank_end rest with
    | [] => match l with [] => [] | _ => [l] end
    | r => l :: r
    end
  end.

(** A line as [collapse_blank_lines] gets it: right-trimmed and without
    a newline. *)
Definition plain_line (l : str) : Prop :=
  right_trimmed l /\ Forall (fun c => c <> 10%N) l.

(** *** Entry ids *)

Definition is_alnum (c : N) : bool := in_class CAlnum c.

(** [/a/<seg>] occurs in [href], [seg] letters and digits. *)
Definition id_occurs (href seg : str) : Prop :=
  exists pre post,
    href = pre ++ u "/a/" ++ seg ++ post /\ seg <> [] /\ forallb is_alnum seg = true.

(** *** Pages of a run *)

(** The addresses a run asked for, in order. *)
Definition requests (evs : list event) : list str :=
  omap (fun ev => match ev with EvGet url => Some url | _ => None end) evs.

Section Pages.

Variable html_parser : str -> node.
Variable urljoin : str -> str -> str.
Variable s : session.
Variable posts_url : str.

(** The records of a page that was fetched and is not the login page. *)
Definition page_entries (page : Z) : option (list Entry) :=
  match session_get s (page_url posts_url page) with
  | Ok html =>
    if is_login_page html then None
    else Some (extract_entries_from_page html_parser urljoin html)
  | Raise _ => None
  end.

(** The page was fetched and has records. *)
Definition page_full (page : Z) : Prop :=
  exists es, page_entries page = Some es /\ es <> [].

(** The page was fetched and is the login page. *)
Definition page_is_login (page : Z) : Prop :=
  exists html, session_get s (page_url posts_url page) = Ok html
               /\ is_login_page html = true.

(** The records of the pages [from], ..., [from + n - 1], concatenated. *)
Definition entries_of_pages (from : Z) (n : nat) : list Entry :=
  concat ((fun p => default [] (page_entries p)) <$> seqZ from (Z.of_nat n)).

End Pages.

(** [max_pages] lets the loop go on after [page]. *)
Definition goes_on (max_pages : option Z) (page : Z) : Prop :=
  forall m, max_pages = Some m -> page < m.

(** [e] is the first record of [l] with its id. *)
Definition first_with_id (l : list Entry) (e : Entry) : Prop :=
  exists i, l !! i = Some e
            /\ forall j x, (j < i)%nat -> l !! j = Some x -> id x <> id e.

(** *** Days *)

Definition is_resolved (e : Entry) : bool :=
  match parse_entry_datetime_parts e with Some _ => true | None => false end.

(** The records of a day with their time, in the order of [entries]. *)
Definition items_of_day (k : day_key) (entries : list Entry) : list (str * Entry) :=
  omap (fun e =>
          match parse_entry_datetime_parts e with
          | Some (y, m, d, hm) => if decide ((y, m, d) = k) then Some (hm, e) else None
          | None => None
          end) entries.

(** The items of a day once more records have been grouped. *)
Definition add_items (o : option (list (str * Entry))) (l : list (str * Entry))
    : option (list (str * Entry)) :=
  match o, l with
  | Some old, _ => Some (old ++ l)
  | None, [] => None
  | None, _ => Some l
  end.

(** The number of records in the Markdown files of a run. *)
Definition markdown_total (days : list (day_key * list (str * Entry))) : nat :=
  sum_list_with (fun g => length (snd g)) days.

(** A day that was read from digits. *)
Definition day_nonneg (k : day_key) : Prop :=
  let '(y, m, d) := k in 0 <= y /\ 0 <= m /\ 0 <= d.

(** *** File systems *)

(** The directories above a file or a directory exist. *)
Definition fs_wf (fs : filesystem) : Prop :=
  (forall p q, is_Some (files fs !! p) -> q `prefix_of` p -> q <> p -> is_dir fs q = true)
  /\ (forall d q, d ∈ dirs fs -> q `prefix_of` d -> is_dir fs q = true).

(** What the second loop of [write_split_markdown] does to the files. *)
Definition put_day (md_root_dir : path) (m : gmap path content)
    (g : day_key * list (str * Entry)) : gmap path content :=
  <[day_file md_root_dir (fst g) := TextFile (day_text (fst g) (sort_by str_leb fst (snd g)))]> m.

(** ** What the further facts speak of *)

(** *** Tidy text

    White space is the plain space only, never twice in a row, and neither
    at the start nor at the end. *)

Fixpoint spaced (s : str) : Prop :=
  match s with
  | [] => True
  | c :: rest =>
    (is_space c = true ->
     c = 32%N /\ match rest with d :: _ => is_space d = false | [] => True end)
    /\ spaced rest
  end.

Definition starts_dark (s : str) : Prop :=
  match s with c :: _ => is_space c = false | [] => True end.

Definition ends_dark (s : str) : Prop :=
  match last s with Some c => is_space c = false | None => True end.

Definition tidy (s : str) : Prop := spaced s /\ starts_dark s /\ ends_dark s.

(** *** The items of a page *)

(** The text of a date heading. *)
Definition heading_text (li : located) : str :=
  clean_text (replace_char 0xea0a (u " ") (get_text (u " ") (fst li))).

Definition is_day_cut (li : located) : bool := has_class (u "day-cut") (fst li).

(** The date heading in force after the items [before], [label] being in
    force in front of them. *)
Definition label_after (label : str) (before : list located) : str :=
  match last (List.filter is_day_cut before) with
  | Some h => heading_text h
  | None => label
  end.

(** The detail link of an item that makes an entry. *)
Definition detail_link (li : located) : option located :=
  if is_day_cut li then None
  else if has_class (u "diary") (fst li) then select_one sel_meta_time_a li
  else None.

(** The items of the list of a page. *)
Definition page_items (soup : node) : list located :=
  match select_one sel_posts_list (soup, []) with
  | Some posts_list => find_all_children (u "li") posts_list
  | None => []
  end.

(** The entries of the items [items] when the heading [label] is in
    force in front of them. *)
Fixpoint entries_of_items (urljoin : str -> str -> str) (label : str)
    (items : list located) : list Entry :=
  match items with
  | [] => []
  | li :: rest =>
    if is_day_cut li then entries_of_items urljoin (heading_text li) rest
    else
      match detail_link li with
      | Some a => entry_of_item urljoin label li a :: entries_of_items urljoin label rest
      | None => entries_of_items urljoin label rest
      end
  end.

(** The entry of the item at position [i], if it makes one. *)
Definition entry_at (urljoin : str -> str -> str) (items : list located) (i : nat)
    : option Entry :=
  match items !! i with
  | Some li =>
    match detail_link li with
    | Some a => Some (entry_of_item urljoin (label_after [] (take i items)) li a)
    | None => None
    end
  | None => None
  end.

(** *** Traces *)

Definition without_prints (evs : list event) : list event :=
  List.filter (fun ev => match ev with EvPrint _ => false | _ => true end) evs.

(** Requests with a pause between two of them. *)
Fixpoint paced (urls : list str) : list event :=
  match urls with
  | [] => []
  | [url] => [EvGet url]
  | url :: rest => EvGet url :: EvSleep :: paced rest
  end.

(** *** The console *)

Definition is_printed (ev : console_event) : Prop :=
  match ev with Printed _ => True | _ => False end.

(** *** The Markdown tree while it is written

    No file lies on the way to the root, the files below the root are
    three levels down and the directories below it at most two. *)
Definition tree_ready (root : path) (fs : filesystem) : Prop :=
  (forall q, q `prefix_of` root -> q <> [] -> is_file fs q = false)
  /\ (forall p, is_Some (files fs !! p) -> root `prefix_of` p ->
                length p = (length root + 3)%nat)
  /\ (forall d, d ∈ dirs fs -> root `prefix_of` d -> (length d <= length root + 2)%nat).

(** *** Runs of [main] *)

(** The file system a run ends with. *)
Definition end_of (run : option (result (Z * str) * filesystem)) : filesystem :=
  match run with
  | Some (_, fs') => fs'
  | None => {| files := ∅; dirs := ∅ |}
  end.

(** ** More to run the definitions on *)

Module Sample.

Import Fixture.

(** *** At the console *)

(** Whoever sits at the console gives the name with blanks around it and
    takes every default. *)
Definition answers (prompt : str) : str :=
  if bool_decide (prompt = u "请输入 iCity 登录用户名或邮箱：") then u "  me " else [].

Definition typed (prompt : str) : str := u "secret".

(** [str.lower] on text without capital letters. *)
Definition lower_plain (s : str) : str := s.

Definition slash : str := u "/".

(** [python icity_export.py] *)
Definition guided_args : arguments :=
  {| legacy_username := None; legacy_password := None; legacy_prefix := None;
     arg_username := None; arg_password := None; arg_target_user := None;
     arg_output_dir := None; arg_prefix := None; arg_max_pages := None;
     no_split_md := false; no_interactive := false; argv_len := 1 |}.

(** [python icity_export.py --username me --password secret --max-pages 2
    --no-interactive] *)
Definition silent_args : arguments :=
  {| legacy_username := None; legacy_password := None; legacy_prefix := None;
     arg_username := Some (u "me"); arg_password := Some (u "secret");
     arg_target_user := None; arg_output_dir := None; arg_prefix := None;
     arg_max_pages := Some 2;
     no_split_md := false; no_interactive := true; argv_len := 8 |}.

(** The same with a name of two blanks. *)
Definition blank_args : arguments :=
  {| legacy_username := None; legacy_password := None; legacy_prefix := None;
     arg_username := Some (u "  "); arg_password := Some (u "secret");
     arg_target_user := None; arg_output_dir := None; arg_prefix := None;
     arg_max_pages := Some 2;
     no_split_md := false; no_interactive := true; argv_len := 8 |}.

Definition guided_setup : setup :=
  {| the_username := u "me"; the_password := u "secret"; the_target_user := u "me";
     the_output_dir := u "./export"; the_prefix := u "icity_me_diary_export";
     the_split_md := true; the_max_pages := None |}.

(** *** Sites *)

Definition welcome : node :=
  elem "[document]" []
    [elem "meta" [("name", "csrf-token"); ("content", "token")]%string []].

Definition good_parser : str -> node :=
  parser_of
    [(u "one", page_of [day_cut "3月5日2026"; diary "/a/a1" "08:30" "first";
                        diary "/a/a2" "09:00" "second"]);
     (u "two", page_of [day_cut "3月4日2026"; diary "/a/a3" "07:15" "third"]);
     (u "welcome", welcome)].

(** Logging in works, two pages have entries and the third has none. *)
Definition good_site : session :=
  server_of [(LOGIN_PAGE, u "welcome"); (posts, u "one"); (posts ++ u "?page=2", u "two")].

(** The second page cannot be fetched. *)
Definition flaky_site : session :=
  {| session_get := fun url =>
       if bool_decide (url = posts ++ u "?page=2")
       then Raise (RequestException (u "timed out"))
       else session_get good_site url;
     session_post := session_post good_site |}.

(** Logging in works and there is no entry. *)
Definition empty_site : session := server_of [(LOGIN_PAGE, u "welcome")].

(** The page of the user is the login page. *)
Definition closed_site : session :=
  server_of [(LOGIN_PAGE, u "welcome");
             (BASE ++ u "/u/me", u "开始使用网页版 用户名 / Email 登入")].

Definition plain_options : options :=
  {| username := u "me"; password := u "secret"; target_user := u "me";
     max_pages := None; split_md := false; output_dir := [u "export"];
     prefix := u "icity_me_diary_export" |}.

Definition good_out : list Entry :=
  Eval vm_compute in
    match snd (scrape_all good_parser concat_url good_site posts None 5) with
    | Some (Ok out) => out
    | _ => []
    end.

Definition good_events : list event :=
  Eval vm_compute in fst (scrape_all good_parser concat_url good_site posts None 5).

(** *** File systems *)

Definition md_root : path := [u "export"; u "md"].

Definition notes : path := [u "export"; u "notes.txt"].

(** A file beside the Markdown root. *)
Definition kept_fs : filesystem :=
  {| files := {[ notes := TextFile (u "kept") ]}; dirs := {[ [u "export"] ]} |}.

(** A file where the Markdown root is to be. *)
Definition file_root_fs : filesystem :=
  {| files := {[ md_root := TextFile (u "in the way") ]}; dirs := {[ [u "export"] ]} |}.

Definition out_json : path := [u "export"; u "out.json"].

Definition out_txt : path := [u "export"; u "out.txt"].

(** A directory where the text file is to be. *)
Definition txt_dir_fs : filesystem :=
  {| files := ∅; dirs := {[ [u "export"]; out_txt ]} |}.

Definition old_day : path := md_root_of plain_options ++ [u "old.md"].

(** The Markdown tree of an earlier run. *)
Definition old_md_fs : filesystem :=
  {| files := {[ old_day := TextFile (u "old") ]};
     dirs := {[ [u "export"]; md_root_of plain_options ]} |}.

Definition good_end : filesystem :=
  end_of (export_main good_parser concat_url good_site my_options 5 empty_fs).

Definition plain_end : filesystem :=
  end_of (export_main good_parser concat_url good_site plain_options 5 old_md_fs).

End Sample.

(** *** Entries that can be written

    Every field of the entry can be encoded. *)
Definition entry_utf8 (e : Entry) : bool :=
  utf8_ok (id e) && utf8_ok (date_label e) && utf8_ok (datetime_iso e)
  && utf8_ok (datetime_local e) && utf8_ok (time_label e) && utf8_ok (title e)
  && utf8_ok (text e) && utf8_ok (location e) && utf8_ok (source_url e).

(** A name of a file: no separator of paths is in it. *)
Definition plain_name (s : str) : Prop :=
  Forall (fun c => c <> 47%N /\ c <> 92%N /\ c <> 58%N) s.
Example u_month_day : u "3月5日2026" = [51; 26376; 53; 26085; 50; 48; 50; 54]%N.
Proof. reflexivity. Qed.

Example splitlines_ex :
  splitlines (u "a" ++ [13; 10]%N ++ u "b" ++ [10; 10]%N ++ u "c" ++ [10]%N)
  = [u "a"; u "b"; []; u "c"].
Proof. reflexivity. Qed.

Example format_ex : format_0d 2 7 = u "07" /\ format_0d 4 2026 = u "2026" /\ format_0d 2 123 = u "123".
Proof. repeat split; reflexivity. Qed.

Example resolve_tier2 :
  parse_entry_datetime_parts (entry_of_labels (u "3月5日2026") [] (u "08:30"))
  = Some (2026, 3, 5, u "08:30").
Proof. reflexivity. Qed.

Example resolve_tier1 :
  parse_entry_datetime_parts (entry_of_labels (u "1月1日1999") (u "2026-03-05 08:30") (u "7:05"))
  = Some (2026, 3, 5, u "08:30").
Proof. reflexivity. Qed.

Example resolve_tier2_pad :
  parse_entry_datetime_parts (entry_of_labels (u "周四 12月 25日 2025") (u "yesterday") (u "at 7:05 pm"))
  = Some (2025, 12, 25, u "07:05").
Proof. reflexivity. Qed.

Example resolve_none :
  parse_entry_datetime_parts (entry_of_labels (u "3月5日") (u "2026-03-05") (u "08:30"))
  = None.
Proof. reflexivity. Qed.

(** * Facts *)

(** ** Characters *)

Lemma is_space_cases c :
  is_space c = true ->
  In c [9; 10; 11; 12; 13; 28; 29; 30; 31; 32; 0x85; 0xa0; 0x1680; 0x2000; 0x2001;
        0x2002; 0x2003; 0x2004; 0x2005; 0x2006; 0x2007; 0x2008; 0x2009; 0x200a;
        0x2028; 0x2029; 0x202f; 0x205f; 0x3000]%N.
Proof.
  unfold is_space. intros H.
  repeat (apply orb_prop in H; destruct H as [H | H]);
    try (apply andb_prop in H; destruct H as [H1 H2];
         apply N.leb_le in H1; apply N.leb_le in H2);
    try apply N.eqb_eq in H; simpl; lia.
Qed.

Lemma space_not_digit c : is_space c = true -> is_digit c = false.
Proof.
  intros H. apply is_space_cases in H. simpl in H.
  repeat (destruct H as [<- | H]; [reflexivity |]). destruct H.
Qed.

Lemma digit_not_space c : is_digit c = true -> is_space c = false.
Proof.
  intros H. destruct (is_space c) eqn:E; [| reflexivity].
  apply space_not_digit in E. congruence.
Qed.

(** ** The matcher finds the words of a pattern *)

Lemma consume_all_state w pos done opened :
  consume_all w (MState pos done opened)
  = MState (pos + length w) done ((fun g => g ++ w) <$> opened).
Proof.
  revert pos opened. induction w as [| c w IH]; intros pos opened.
  - simpl. rewrite Nat.add_0_r. destruct opened; simpl; [rewrite app_nil_r |]; reflexivity.
  - unfold consume_all in *. cbn [fold_left]. unfold consume at 2. cbn [m_pos m_done m_open].
    rewrite IH. f_equal; [simpl; lia |].
    destruct opened; simpl; [rewrite <- app_assoc |]; reflexivity.
Qed.

Lemma rep_sound k kont s :
  forall lo hi st r,
    rep k lo hi kont s st = Some r ->
    exists w s', s = w ++ s' /\ forallb (in_class k) w = true
      /\ (lo <= length w)%nat /\ (forall h, hi = Some h -> (length w <= h)%nat)
      /\ kont s' (consume_all w st) = Some r.
Proof.
  induction s as [| c s IH]; intros lo hi st r H.
  - simpl in H. destruct lo; [| discriminate].
    exists [], []. repeat split; simpl; auto; lia.
  - cbn [rep] in H.
    assert (Hstop : match lo with O => kont (c :: s) st | S _ => None end = Some r ->
                    exists w s', c :: s = w ++ s' /\ forallb (in_class k) w = true
                      /\ (lo <= length w)%nat
                      /\ (forall h, hi = Some h -> (length w <= h)%nat)
                      /\ kont s' (consume_all w st) = Some r).
    { intros Hs. destruct lo; [| discriminate].
      exists [], (c :: s). repeat split; simpl; auto; lia. }
    destruct (in_class k c && negb (bool_decide (hi = Some O))) eqn:E; [| auto].
    destruct (rep k (pred lo) (pred <$> hi) kont s (consume c st)) as [r' |] eqn:E'; [| auto].
    injection H as ->.
    apply andb_prop in E. destruct E as [Ec Eh].
    apply IH in E'. destruct E' as (w & s' & -> & Hw & Hlo & Hhi & Hk).
    exists (c :: w), s'. repeat split.
    + simpl. rewrite Ec. exact Hw.
    + simpl. lia.
    + intros h ->. simpl in *.
      apply negb_true_iff, bool_decide_eq_false in Eh.
      destruct h; [congruence |]. specialize (Hhi h eq_refl). lia.
    + exact Hk.
Qed.

Lemma rep_complete k kont w :
  forall s' lo hi st,
    forallb (in_class k) w = true ->
    (lo <= length w)%nat -> (forall h, hi = Some h -> (length w <= h)%nat) ->
    is_Some (kont s' (consume_all w st)) ->
    is_Some (rep k lo hi kont (w ++ s') st).
Proof.
  induction w as [| c w IH]; intros s' lo hi st Hw Hlo Hhi Hk.
  - simpl in *. assert (lo = O) as -> by lia.
    destruct s' as [| c s']; simpl; [exact Hk |].
    destruct (in_class k c && negb (bool_decide (hi = Some O))); [| exact Hk].
    destruct (rep k 0 (pred <$> hi) kont s' (consume c st)); [eauto | exact Hk].
  - simpl in Hw. apply andb_prop in Hw. destruct Hw as [Hc Hw].
    cbn [app rep]. rewrite Hc.
    assert (bool_decide (hi = Some O) = false) as ->.
    { apply bool_decide_eq_false. intros ->. specialize (Hhi O eq_refl). simpl in Hhi. lia. }
    cbn [negb andb].
    destruct (IH s' (pred lo) (pred <$> hi) (consume c st)) as [r Hr]; auto.
    + simpl in Hlo. lia.
    + intros h Hh. destruct hi as [h0 |]; [| discriminate].
      injection Hh as <-. specialize (Hhi h0 eq_refl). simpl in Hhi. lia.
    + rewrite Hr. eauto.
Qed.

Lemma exec_sound p :
  forall s st r, exec p s st = Some r -> accepts p s st r.
Proof.
  induction p as [| a p IH]; intros s st r H.
  - simpl in *. congruence.
  - destruct a; cbn [exec accepts] in *.
    + apply rep_sound in H. destruct H as (w & s' & ? & ? & ? & ? & ?).
      exists w, s'. auto 10.
    + auto.
    + auto.
    + destruct (m_pos st); [auto | discriminate].
    + destruct s as [| c [| ? ?]]; try discriminate; auto.
      * destruct c as [| p0]; try discriminate.
        do 4 (destruct p0; try discriminate). auto.
      * destruct c as [| p0]; try discriminate.
        do 4 (destruct p0; try discriminate).
Qed.

Lemma exec_complete p :
  forall s st r, accepts p s st r -> is_Some (exec p s st).
Proof.
  induction p as [| a p IH]; intros s st r H.
  - simpl. eauto.
  - destruct a; cbn [exec accepts] in *.
    + destruct H as (w & s' & -> & ? & ? & ? & ?).
      apply rep_complete; eauto.
    + eauto.
    + eauto.
    + destruct H as [-> ?]. eauto.
    + destruct H as [[-> | ->] ?]; eauto.
Qed.

Lemma search_sound p s :
  forall pos r,
    search_from p pos s = Some r ->
    exists pre s', s = pre ++ s' /\ accepts p s' (start_at (pos + length pre)) r.
Proof.
  induction s as [| c s IH]; intros pos r H; cbn [search_from] in H.
  - destruct (exec p [] (start_at pos)) eqn:E; [| discriminate].
    injection H as ->. exists [], []. split; [reflexivity |].
    simpl. rewrite Nat.add_0_r. apply exec_sound, E.
  - destruct (exec p (c :: s) (start_at pos)) eqn:E.
    + injection H as ->. exists [], (c :: s). split; [reflexivity |].
      simpl. rewrite Nat.add_0_r. apply exec_sound, E.
    + apply IH in H. destruct H as (pre & s' & -> & H).
      exists (c :: pre), s'. split; [reflexivity |].
      simpl. replace (pos + S (length pre))%nat with (S pos + length pre)%nat by lia.
      exact H.
Qed.

Lemma search_complete p pre :
  forall pos s' r,
    accepts p s' (start_at (pos + length pre)) r ->
    is_Some (search_from p pos (pre ++ s')).
Proof.
  induction pre as [| c pre IH]; intros pos s' r H.
  - simpl in H. rewrite Nat.add_0_r in H. apply exec_complete in H.
    destruct H as [r' Hr']. destruct s'; simpl; rewrite Hr'; eauto.
  - cbn [app search_from].
    destruct (exec p (c :: pre ++ s') (start_at pos)); [eauto |].
    apply (IH (S pos) s' r).
    simpl in H. replace (S pos + length pre)%nat with (pos + S (length pre))%nat by lia.
    exact H.
Qed.

(** ** The three patterns of the date resolver *)

Lemma m_done_consume_all w st : m_done (consume_all w st) = m_done st.
Proof. destruct st. rewrite consume_all_state. reflexivity. Qed.

Lemma m_open_consume_all w st :
  m_open (consume_all w st) = (fun g => g ++ w) <$> m_open st.
Proof. destruct st. rewrite consume_all_state. reflexivity. Qed.

Lemma lit_word c w :
  forallb (in_class (CChar c)) w = true -> (1 <= length w)%nat ->
  (forall h, Some 1%nat = Some h -> (length w <= h)%nat) -> w = [c].
Proof.
  intros Hw Hlo Hhi. specialize (Hhi 1%nat eq_refl).
  destruct w as [| x [| ? ?]]; simpl in *; try lia.
  rewrite andb_true_r in Hw. apply N.eqb_eq in Hw. congruence.
Qed.

(** Take an assumption [accepts p s st r] apart, word by word. *)
Ltac open_accepts H :=
  cbn [accepts m_pos m_done m_open] in H;
  repeat match goal with
  | H : _ /\ _ |- _ => destruct H as [? H]
  | H : exists _, _ |- _ => destruct H as [? H]
  end;
  repeat (rewrite ?m_done_consume_all, ?m_open_consume_all in H;
          cbn [m_done m_open m_pos fmap option_fmap option_map default app] in H);
  unfold Datatypes.id in H;
  repeat match goal with
  | H1 : forallb (in_class (CChar ?c)) ?w = true, H2 : (1 <= length ?w)%nat,
    H3 : forall h, Some 1%nat = Some h -> _ |- _ =>
      pose proof (lit_word c w H1 H2 H3); subst w; clear H1 H2 H3
  | H3 : forall h : nat, Some ?n = Some h -> _ |- _ => specialize (H3 n eq_refl)
  | H3 : forall h : nat, None = Some h -> _ |- _ => clear H3
  end.

(** Give the next word of a pattern in a goal [accepts p s st r]. *)
Ltac give_word w :=
  cbn [accepts]; exists w; eexists;
  split; [reflexivity |];
  split; [first [assumption | reflexivity] |];
  split; [simpl; lia |];
  split; [intros ? [= <-]; simpl; lia |].

Ltac give_group := cbn [accepts m_pos m_done m_open].

Ltac close_accepts :=
  cbn [accepts];
  repeat (rewrite ?m_done_consume_all, ?m_open_consume_all;
          cbn [m_done m_open m_pos fmap option_fmap option_map default app]);
  unfold Datatypes.id; rewrite <- ?app_assoc; reflexivity.

Lemma datetime_local_re_sound s r :
  accepts datetime_local_re s (start_at 0) r ->
  exists y mo d hm, strict_datetime s y mo d hm /\ r = [y; mo; d; hm].
Proof.
  unfold datetime_local_re, Lit, Exactly, Plus, start_at. intros H.
  open_accepts H. subst.
  match goal with
  | |- context [strict_datetime (?y ++ [45%N] ++ ?mo ++ [45%N] ++ ?d ++ ?ws ++ ?h ++ [58%N] ++ ?mi ++ ?nl)] =>
    exists y, mo, d, (h ++ [58%N] ++ mi); split;
      [exists ws, h, mi, nl | rewrite <- app_assoc; reflexivity]
  end.
  unfold digits, spaces. repeat split; auto; try lia.
  - rewrite <- !app_assoc. reflexivity.
  - intros ->. simpl in *. lia.
Qed.

Lemma datetime_local_re_complete s y mo d hm :
  strict_datetime s y mo d hm ->
  accepts datetime_local_re s (start_at 0) [y; mo; d; hm].
Proof.
  intros (ws & h & mi & nl & -> & -> & [Ly Hy] & [Lmo Hmo] & [Ld Hd] & [Lh Hh] & [Lmi Hmi]
          & Hne & Hws & Hnl).
  unfold datetime_local_re, Lit, Exactly, Plus, start_at.
  rewrite <- !app_assoc.
  cbn [accepts m_pos m_done m_open]. split; [reflexivity |].
  give_word y. give_word [45%N]. give_group.
  give_word mo. give_word [45%N]. give_group.
  give_word d. give_group.
  cbn [accepts]. exists ws. eexists. split; [reflexivity |]. split; [exact Hws |].
  split; [destruct ws; [congruence | simpl; lia] |]. split; [discriminate |].
  give_group. give_word h. give_word [58%N]. give_word mi. give_group.
  split; [exact Hnl |].
  close_accepts.
Qed.

Lemma spaces_split ws :
  forall ws' a a' r r',
    spaces ws -> spaces ws' -> is_space a = false -> is_space a' = false ->
    ws ++ a :: r = ws' ++ a' :: r' -> ws = ws' /\ a = a' /\ r = r'.
Proof.
  unfold spaces.
  induction ws as [| c ws IH]; intros [| c' ws'] a a' r r' Hs Hs' Ha Ha' E;
    simpl in *.
  - injection E as ? ?. auto.
  - injection E as ? ?. subst. apply andb_prop in Hs'. destruct Hs'. congruence.
  - injection E as ? ?. subst. apply andb_prop in Hs. destruct Hs. congruence.
  - injection E as ? E. subst. apply andb_prop in Hs, Hs'. destruct Hs, Hs'.
    destruct (IH ws' a a' r r') as (? & ? & ?); auto. subst. auto.
Qed.

(** A word of known length, letter by letter. *)
Ltac letters :=
  repeat match goal with
  | H : digits _ _ |- _ => destruct H as [? ?]
  | H : length ?w = _ |- _ =>
    is_var w; destruct w; simpl in H; try discriminate H;
    try (apply Nat.succ_inj in H)
  | H : O = O |- _ => clear H
  end.

Lemma strict_datetime_unique s y mo d hm y' mo' d' hm' :
  strict_datetime s y mo d hm -> strict_datetime s y' mo' d' hm' ->
  y = y' /\ mo = mo' /\ d = d' /\ hm = hm'.
Proof.
  intros (ws & h & mi & nl & -> & -> & Hy & Hmo & Hd & Hh & Hmi & _ & Hws & _)
         (ws' & h' & mi' & nl' & E & -> & Hy' & Hmo' & Hd' & Hh' & Hmi' & _ & Hws' & _).
  letters. simpl in E. injection E; clear E; intros E; intros; subst.
  repeat match goal with
  | H : forallb is_digit (_ :: _) = true |- _ =>
    simpl in H; apply andb_prop in H; destruct H as [? H]
  end.
  apply spaces_split in E; auto using digit_not_space.
  destruct E as (? & ? & E). injection E; intros; subst. auto.
Qed.

Lemma date_label_re_sound s pos r :
  accepts date_label_re s (start_at pos) r ->
  exists mo d y ws1 ws2 post,
    s = mo ++ [0x6708%N] ++ ws1 ++ d ++ [0x65e5%N] ++ ws2 ++ y ++ post
    /\ digits12 mo /\ digits12 d /\ digits 4 y /\ spaces ws1 /\ spaces ws2
    /\ r = [mo; d; y].
Proof.
  unfold date_label_re, Lit, Exactly, Star, start_at. intros H.
  open_accepts H. subst.
  match goal with
  | |- context [?mo ++ [26376%N] ++ ?ws1 ++ ?d ++ [26085%N] ++ ?ws2 ++ ?y ++ ?post = _] =>
    exists mo, d, y, ws1, ws2, post
  end.
  unfold digits12, digits, spaces. repeat split; auto; lia.
Qed.

Lemma date_label_re_complete mo d y ws1 ws2 post pos :
  digits12 mo -> digits12 d -> digits 4 y -> spaces ws1 -> spaces ws2 ->
  accepts date_label_re
    (mo ++ [0x6708%N] ++ ws1 ++ d ++ [0x65e5%N] ++ ws2 ++ y ++ post)
    (start_at pos) [mo; d; y].
Proof.
  intros [Lmo Hmo] [Ld Hd] [Ly Hy] Hws1 Hws2.
  unfold date_label_re, Lit, Exactly, Star, start_at.
  cbn [accepts m_pos m_done m_open].
  give_word mo. give_group. give_word [0x6708%N].
  cbn [accepts]. exists ws1. eexists. split; [reflexivity |]. split; [exact Hws1 |].
  split; [lia |]. split; [discriminate |].
  give_group. give_word d. give_group. give_word [0x65e5%N].
  cbn [accepts]. exists ws2. eexists. split; [reflexivity |]. split; [exact Hws2 |].
  split; [lia |]. split; [discriminate |].
  give_group. give_word y. give_group.
  close_accepts.
Qed.

Lemma time_label_re_sound s pos r :
  accepts time_label_re s (start_at pos) r ->
  exists h mi post,
    s = h ++ [58%N] ++ mi ++ post /\ digits12 h /\ digits 2 mi /\ r = [h; mi].
Proof.
  unfold time_label_re, Lit, Exactly, start_at. intros H.
  open_accepts H. subst.
  match goal with
  | |- context [?h ++ [58%N] ++ ?mi ++ ?post = _] => exists h, mi, post
  end.
  unfold digits12, digits. repeat split; auto; lia.
Qed.

Lemma time_label_re_complete h mi post pos :
  digits12 h -> digits 2 mi ->
  accepts time_label_re (h ++ [58%N] ++ mi ++ post) (start_at pos) [h; mi].
Proof.
  intros [Lh Hh] [Lmi Hmi].
  unfold time_label_re, Lit, Exactly, start_at.
  cbn [accepts m_pos m_done m_open].
  give_word h. give_group. give_word [58%N]. give_group. give_word mi. give_group.
  close_accepts.
Qed.

Lemma search_date_sound s r :
  re_search date_label_re s = Some r ->
  exists mo d y, date_occurs s mo d y /\ r = [mo; d; y].
Proof.
  intros H. apply search_sound in H. destruct H as (pre & s' & -> & H).
  apply date_label_re_sound in H.
  destruct H as (mo & d & y & ws1 & ws2 & post & -> & ? & ? & ? & ? & ? & ->).
  exists mo, d, y. split; [| reflexivity].
  exists pre, ws1, ws2, post. auto 10.
Qed.

Lemma search_date_complete s mo d y :
  date_occurs s mo d y -> is_Some (re_search date_label_re s).
Proof.
  intros (pre & ws1 & ws2 & post & -> & ? & ? & ? & ? & ?).
  eapply search_complete, date_label_re_complete; eauto.
Qed.

Lemma search_time_sound s r :
  re_search time_label_re s = Some r ->
  exists h mi, time_occurs s h mi /\ r = [h; mi].
Proof.
  intros H. apply search_sound in H. destruct H as (pre & s' & -> & H).
  apply time_label_re_sound in H.
  destruct H as (h & mi & post & -> & ? & ? & ->).
  exists h, mi. split; [| reflexivity]. exists pre, post. auto.
Qed.

Lemma search_time_complete s h mi :
  time_occurs s h mi -> is_Some (re_search time_label_re s).
Proof.
  intros (pre & post & -> & ? & ?).
  eapply search_complete, time_label_re_complete; eauto.
Qed.

(** The three patterns decide the three shapes. *)
Lemma matches_strict_iff s :
  matches_strict s <-> is_Some (re_match datetime_local_re s).
Proof.
  split.
  - intros (y & mo & d & hm & H).
    eapply exec_complete, datetime_local_re_complete, H.
  - intros [r H]. apply exec_sound, datetime_local_re_sound in H.
    destruct H as (y & mo & d & hm & H & _). exists y, mo, d, hm. exact H.
Qed.

Lemma contains_date_iff s :
  contains_date s <-> is_Some (re_search date_label_re s).
Proof.
  split.
  - intros (mo & d & y & H). eapply search_date_complete, H.
  - intros [r H]. apply search_date_sound in H.
    destruct H as (mo & d & y & H & _). exists mo, d, y. exact H.
Qed.

Lemma contains_time_iff s :
  contains_time s <-> is_Some (re_search time_label_re s).
Proof.
  split.
  - intros (h & mi & H). eapply search_time_complete, H.
  - intros [r H]. apply search_time_sound in H.
    destruct H as (h & mi & H & _). exists h, mi. exact H.
Qed.

(** ** The two tiers *)

Lemma tier1_inv e res :
  tier1 e = Some res ->
  exists y mo d hm,
    strict_datetime (datetime_local e) y mo d hm /\ res = (int y, int mo, int d, hm).
Proof.
  unfold tier1. destruct (datetime_local e) as [| c s] eqn:E; [discriminate |].
  destruct (re_match datetime_local_re (c :: s)) as [r |] eqn:Hr; [| discriminate].
  apply exec_sound, datetime_local_re_sound in Hr.
  destruct Hr as (y & mo & d & hm & H & ->). intros [= <-].
  exists y, mo, d, hm. auto.
Qed.

Lemma tier1_strict e y mo d hm :
  strict_datetime (datetime_local e) y mo d hm ->
  tier1 e = Some (int y, int mo, int d, hm).
Proof.
  intros H. unfold tier1.
  destruct (exec_complete _ _ _ _ (datetime_local_re_complete _ _ _ _ _ H)) as [r Hr].
  pose proof Hr as Hr'. apply exec_sound, datetime_local_re_sound in Hr'.
  destruct Hr' as (y' & mo' & d' & hm' & H' & ->).
  destruct (strict_datetime_unique _ _ _ _ _ _ _ _ _ H H') as (<- & <- & <- & <-).
  unfold re_match. rewrite Hr.
  destruct (datetime_local e) eqn:E; [| reflexivity].
  destruct H as (ws & h & mi & nl & Hs & _ & [Ly _] & _).
  destruct y; [discriminate Ly | discriminate Hs].
Qed.

Lemma tier1_none e : ~ matches_strict (datetime_local e) -> tier1 e = None.
Proof.
  intros H. destruct (tier1 e) as [res |] eqn:E; [| reflexivity].
  apply tier1_inv in E. destruct E as (y & mo & d & hm & E & _).
  exfalso. apply H. exists y, mo, d, hm. exact E.
Qed.

Lemma tier2_inv e res :
  tier2 e = Some res ->
  exists mo d y h mi,
    date_occurs (date_label e) mo d y /\ time_occurs (time_label e) h mi
    /\ res = tier2_value mo d y h mi.
Proof.
  unfold tier2.
  destruct (re_search date_label_re (date_label e)) as [rd |] eqn:Ed; [| discriminate].
  destruct (re_search time_label_re (time_label e)) as [rt |] eqn:Et;
    [| destruct rd as [| ? [| ? [| ? [| ? ?]]]]; discriminate].
  apply search_date_sound in Ed. destruct Ed as (mo & d & y & Hd & ->).
  apply search_time_sound in Et. destruct Et as (h & mi & Ht & ->).
  intros [= <-]. exists mo, d, y, h, mi. auto.
Qed.

Lemma tier2_some e :
  contains_date (date_label e) -> contains_time (time_label e) ->
  exists mo d y h mi,
    date_occurs (date_label e) mo d y /\ time_occurs (time_label e) h mi
    /\ tier2 e = Some (tier2_value mo d y h mi).
Proof.
  intros Hd Ht. apply contains_date_iff in Hd. apply contains_time_iff in Ht.
  destruct Hd as [rd Ed], Ht as [rt Et].
  pose proof Ed as Ed'. apply search_date_sound in Ed'. destruct Ed' as (mo & d & y & Hd & ->).
  pose proof Et as Et'. apply search_time_sound in Et'. destruct Et' as (h & mi & Ht & ->).
  exists mo, d, y, h, mi. repeat split; auto.
  unfold tier2. rewrite Ed, Et. reflexivity.
Qed.

Lemma tier2_none e :
  ~ (contains_date (date_label e) /\ contains_time (time_label e)) -> tier2 e = None.
Proof.
  intros H. destruct (tier2 e) as [res |] eqn:E; [| reflexivity].
  apply tier2_inv in E. destruct E as (mo & d & y & h & mi & Hd & Ht & _).
  exfalso. apply H. split; [exists mo, d, y | exists h, mi]; assumption.
Qed.

(** ** Reading and writing numbers *)

Lemma digit_in_bound zs c v : digit_in zs c = Some v -> (v < 10)%N.
Proof.
  induction zs as [| z zs IH]; simpl; [discriminate |].
  destruct ((z <=? c)%N && (c <? z + 10)%N) eqn:E; [| exact IH].
  apply andb_prop in E. destruct E as [E1 E2].
  apply N.leb_le in E1. apply N.ltb_lt in E2. intros [= <-]. lia.
Qed.

Lemma int_snoc w c : int (w ++ [c]) = 10 * int w + Z.of_N (default 0%N (digit_value c)).
Proof. unfold int. rewrite fold_left_app. reflexivity. Qed.

Lemma int_bound w : 0 <= int w < 10 ^ Z.of_nat (length w).
Proof.
  induction w as [| c w IH] using rev_ind.
  - unfold int. simpl. lia.
  - rewrite int_snoc, length_app. simpl length.
    replace (Z.of_nat (length w + 1)) with (Z.succ (Z.of_nat (length w))) by lia.
    rewrite Z.pow_succ_r by lia.
    assert (0 <= Z.of_N (default 0%N (digit_value c)) < 10).
    { destruct (digit_value c) as [v |] eqn:E; simpl; [| lia].
      apply digit_in_bound in E. lia. }
    lia.
Qed.

Lemma format_0d_2_length z : 0 <= z < 100 -> length (format_0d 2 z) = 2%nat.
Proof.
  intros Hz.
  assert (H : forallb (fun n => Nat.eqb (length (format_0d 2 (Z.of_nat n))) 2) (seq 0 100) = true)
    by (vm_compute; reflexivity).
  rewrite forallb_forall in H. specialize (H (Z.to_nat z)).
  rewrite Z2Nat.id in H by lia. apply Nat.eqb_eq, H, in_seq. lia.
Qed.

Lemma format_0d_2_digits12 w : digits12 w -> length (format_0d 2 (int w)) = 2%nat.
Proof.
  intros [Hl _]. apply format_0d_2_length.
  pose proof (int_bound w) as Hb.
  assert (10 ^ Z.of_nat (length w) <= 10 ^ 2) by (apply Z.pow_le_mono_r; lia).
  lia.
Qed.

Lemma format_0d_2_digits2 w : digits 2 w -> length (format_0d 2 (int w)) = 2%nat.
Proof. intros [Hl Hd]. apply format_0d_2_digits12. split; [lia | exact Hd]. Qed.

(** ** The match that starts first *)

Lemma exec_none_accepts p s st r : exec p s st = None -> ~ accepts p s st r.
Proof. intros E H. apply exec_complete in H. rewrite E in H. destruct H. discriminate. Qed.

Lemma search_leftmost p s :
  forall pos r,
    search_from p pos s = Some r ->
    exists pre s',
      s = pre ++ s' /\ accepts p s' (start_at (pos + length pre)) r
      /\ exec p s' (start_at (pos + length pre)) = Some r
      /\ forall pre' s'' r',
           s = pre' ++ s'' -> accepts p s'' (start_at (pos + length pre')) r' ->
           (length pre <= length pre')%nat.
Proof.
  induction s as [| c s IH]; intros pos r H; cbn [search_from] in H.
  - destruct (exec p [] (start_at pos)) eqn:E; [| discriminate].
    injection H as ->. exists [], []. split; [reflexivity |].
    cbn [length]. rewrite Nat.add_0_r. split; [apply exec_sound, E |].
    split; [exact E |]. intros. lia.
  - destruct (exec p (c :: s) (start_at pos)) eqn:E.
    + injection H as ->. exists [], (c :: s). split; [reflexivity |].
      cbn [length]. rewrite Nat.add_0_r. split; [apply exec_sound, E |].
      split; [exact E |]. intros. lia.
    + apply IH in H. destruct H as (pre & s' & -> & Hacc & Hex & Hmin).
      exists (c :: pre), s'. split; [reflexivity |].
      cbn [length].
      replace (pos + S (length pre))%nat with (S pos + length pre)%nat by lia.
      split; [exact Hacc |]. split; [exact Hex |].
      intros pre' s'' r' Es H'. destruct pre' as [| c' pre'].
      * cbn [app length] in *. subst s''. rewrite Nat.add_0_r in H'.
        exfalso. eapply exec_none_accepts; eauto.
      * cbn [app length] in *. injection Es as _ Es.
        apply le_n_S. apply (Hmin pre' s'' r' Es).
        replace (S pos + length pre')%nat with (pos + S (length pre'))%nat by lia.
        exact H'.
Qed.

Lemma class_split (f : N -> bool) w :
  forall w' a a' r r',
    forallb f w = true -> forallb f w' = true -> f a = false -> f a' = false ->
    w ++ a :: r = w' ++ a' :: r' -> w = w' /\ a = a' /\ r = r'.
Proof.
  induction w as [| c w IH]; intros [| c' w'] a a' r r' Hs Hs' Ha Ha' E;
    simpl in *.
  - injection E as ? ?. auto.
  - injection E as ? ?. subst. apply andb_prop in Hs'. destruct Hs'. congruence.
  - injection E as ? ?. subst. apply andb_prop in Hs. destruct Hs. congruence.
  - injection E as ? E. subst. apply andb_prop in Hs, Hs'. destruct Hs, Hs'.
    destruct (IH w' a a' r r') as (? & ? & ?); auto. subst. auto.
Qed.

Lemma digits12_cons w : digits12 w -> exists c w', w = c :: w' /\ is_digit c = true
                                                 /\ forallb is_digit w' = true.
Proof.
  intros [Hl Hd]. destruct w as [| c w']; [simpl in Hl; lia |].
  simpl in Hd. apply andb_prop in Hd. destruct Hd. eauto.
Qed.

Lemma date_at_unique s mo d y mo' d' y' :
  date_at s mo d y -> date_at s mo' d' y' -> mo = mo' /\ d = d' /\ y = y'.
Proof.
  intros (ws1 & ws2 & post & -> & Hmo & Hd & Hy & Hw1 & Hw2)
         (ws1' & ws2' & post' & E & Hmo' & Hd' & Hy' & Hw1' & Hw2').
  cbn [app] in E.
  apply (class_split is_digit) in E;
    [| apply Hmo | apply Hmo' | reflexivity | reflexivity].
  destruct E as (<- & _ & E).
  destruct (digits12_cons d Hd) as (c & d0 & -> & Hc & Hd0).
  destruct (digits12_cons d' Hd') as (c' & d0' & -> & Hc' & Hd0').
  cbn [app] in E.
  apply (class_split is_space) in E;
    [| exact Hw1 | exact Hw1' | apply digit_not_space, Hc | apply digit_not_space, Hc'].
  destruct E as (_ & <- & E).
  apply (class_split is_digit) in E; [| exact Hd0 | exact Hd0' | reflexivity | reflexivity].
  destruct E as (<- & _ & E).
  destruct Hy as [Ly Hy], Hy' as [Ly' Hy'].
  destruct y as [| c1 y]; [discriminate |]. destruct y' as [| c1' y']; [discriminate |].
  simpl in Hy, Hy'. apply andb_prop in Hy, Hy'. destruct Hy as [Hc1 _], Hy' as [Hc1' _].
  cbn [app] in E.
  apply (class_split is_space) in E;
    [| exact Hw2 | exact Hw2' | apply digit_not_space, Hc1 | apply digit_not_space, Hc1'].
  destruct E as (_ & <- & E).
  apply app_inj_1 in E; [| simpl in Ly, Ly'; lia]. destruct E as [<- _]. auto.
Qed.

Lemma time_at_unique s h mi h' mi' :
  time_at s h mi -> time_at s h' mi' -> h = h' /\ mi = mi'.
Proof.
  intros (post & -> & Hh & Hmi) (post' & E & Hh' & Hmi').
  cbn [app] in E.
  apply (class_split is_digit) in E;
    [| apply Hh | apply Hh' | reflexivity | reflexivity].
  destruct E as (<- & _ & E).
  destruct Hmi as [L _], Hmi' as [L' _].
  apply app_inj_1 in E; [| lia]. destruct E as [<- _]. auto.
Qed.

Lemma date_label_re_at s pos r :
  accepts date_label_re s (start_at pos) r <-> exists mo d y, date_at s mo d y /\ r = [mo; d; y].
Proof.
  split.
  - intros H. apply date_label_re_sound in H.
    destruct H as (mo & d & y & ws1 & ws2 & post & -> & ? & ? & ? & ? & ? & ->).
    exists mo, d, y. split; [| reflexivity]. exists ws1, ws2, post. auto 10.
  - intros (mo & d & y & (ws1 & ws2 & post & -> & ? & ? & ? & ? & ?) & ->).
    apply date_label_re_complete; assumption.
Qed.

Lemma time_label_re_at s pos r :
  accepts time_label_re s (start_at pos) r <-> exists h mi, time_at s h mi /\ r = [h; mi].
Proof.
  split.
  - intros H. apply time_label_re_sound in H.
    destruct H as (h & mi & post & -> & ? & ? & ->).
    exists h, mi. split; [| reflexivity]. exists post. auto.
  - intros (h & mi & (post & -> & ? & ?) & ->).
    apply time_label_re_complete; assumption.
Qed.

Lemma search_date_first s r :
  re_search date_label_re s = Some r ->
  exists mo d y, first_date s mo d y /\ r = [mo; d; y].
Proof.
  intros H. apply search_leftmost in H. destruct H as (pre & s' & -> & Hacc & _ & Hmin).
  apply date_label_re_at in Hacc. destruct Hacc as (mo & d & y & Hat & ->).
  exists mo, d, y. split; [| reflexivity].
  exists pre, s'. split; [reflexivity |]. split; [exact Hat |].
  intros pre' s'' mo' d' y' E Hat'. apply (Hmin pre' s'' [mo'; d'; y'] E).
  apply date_label_re_at. eauto.
Qed.

Lemma search_time_first s r :
  re_search time_label_re s = Some r ->
  exists h mi, first_time s h mi /\ r = [h; mi].
Proof.
  intros H. apply search_leftmost in H. destruct H as (pre & s' & -> & Hacc & _ & Hmin).
  apply time_label_re_at in Hacc. destruct Hacc as (h & mi & Hat & ->).
  exists h, mi. split; [| reflexivity].
  exists pre, s'. split; [reflexivity |]. split; [exact Hat |].
  intros pre' s'' h' mi' E Hat'. apply (Hmin pre' s'' [h'; mi'] E).
  apply time_label_re_at. eauto.
Qed.

Lemma first_date_unique s mo d y mo' d' y' :
  first_date s mo d y -> first_date s mo' d' y' -> mo = mo' /\ d = d' /\ y = y'.
Proof.
  intros (pre & s1 & -> & Hat & Hmin) (pre' & s1' & E & Hat' & Hmin').
  pose proof (Hmin pre' s1' mo' d' y' E Hat') as L1.
  pose proof (Hmin' pre s1 mo d y eq_refl Hat) as L2.
  apply app_inj_1 in E; [| lia]. destruct E as [_ <-].
  eapply date_at_unique; eassumption.
Qed.

Lemma first_time_unique s h mi h' mi' :
  first_time s h mi -> first_time s h' mi' -> h = h' /\ mi = mi'.
Proof.
  intros (pre & s1 & -> & Hat & Hmin) (pre' & s1' & E & Hat' & Hmin').
  pose proof (Hmin pre' s1' h' mi' E Hat') as L1.
  pose proof (Hmin' pre s1 h mi eq_refl Hat) as L2.
  apply app_inj_1 in E; [| lia]. destruct E as [_ <-].
  eapply time_at_unique; eassumption.
Qed.

Lemma contains_first_date s : contains_date s -> exists mo d y, first_date s mo d y.
Proof.
  intros H. apply contains_date_iff in H. destruct H as [r E].
  apply search_date_first in E. destruct E as (mo & d & y & H & _). eauto.
Qed.

Lemma contains_first_time s : contains_time s -> exists h mi, first_time s h mi.
Proof.
  intros H. apply contains_time_iff in H. destruct H as [r E].
  apply search_time_first in E. destruct E as (h & mi & H & _). eauto.
Qed.

Lemma first_date_search s mo d y :
  first_date s mo d y -> re_search date_label_re s = Some [mo; d; y].
Proof.
  intros H. destruct (re_search date_label_re s) as [r |] eqn:E.
  - apply search_date_first in E. destruct E as (mo' & d' & y' & H' & ->).
    destruct (first_date_unique _ _ _ _ _ _ _ H H') as (-> & -> & ->). reflexivity.
  - exfalso. destruct H as (pre & s' & -> & (ws1 & ws2 & post & -> & ? & ? & ? & ? & ?) & _).
    assert (Hc : contains_date
                   (pre ++ mo ++ [0x6708%N] ++ ws1 ++ d ++ [0x65e5%N] ++ ws2 ++ y ++ post)).
    { exists mo, d, y, pre, ws1, ws2, post. auto 10. }
    apply contains_date_iff in Hc. rewrite E in Hc. destruct Hc. discriminate.
Qed.

Lemma first_time_search s h mi :
  first_time s h mi -> re_search time_label_re s = Some [h; mi].
Proof.
  intros H. destruct (re_search time_label_re s) as [r |] eqn:E.
  - apply search_time_first in E. destruct E as (h' & mi' & H' & ->).
    destruct (first_time_unique _ _ _ _ _ H H') as (-> & ->). reflexivity.
  - exfalso. destruct H as (pre & s' & -> & (post & -> & ? & ?) & _).
    assert (Hc : contains_time (pre ++ h ++ [58%N] ++ mi ++ post)).
    { exists h, mi, pre, post. auto. }
    apply contains_time_iff in Hc. rewrite E in Hc. destruct Hc. discriminate.
Qed.

Lemma format_0d_two_digits v : 0 <= v < 100 -> format_0d 2 v = two_digits v.
Proof.
  intros Hv.
  assert (H : forallb (fun n => bool_decide (format_0d 2 (Z.of_nat n) = two_digits (Z.of_nat n)))
                (seq 0 (Z.to_nat 100)) = true) by (vm_compute; reflexivity).
  rewrite forallb_forall in H.
  assert (Hin : In (Z.to_nat v) (seq 0 (Z.to_nat 100))) by (apply in_seq; lia).
  apply H in Hin. rewrite Z2Nat.id in Hin by lia.
  apply bool_decide_eq_true in Hin. exact Hin.
Qed.

Lemma int_digits12_range w : digits12 w -> 0 <= int w < 100.
Proof.
  intros [Hl _]. pose proof (int_bound w) as Hb.
  assert (10 ^ Z.of_nat (length w) <= 10 ^ 2) by (apply Z.pow_le_mono_r; lia). lia.
Qed.

(** The second tier reads the date and the time that start first. *)
Lemma tier2_first e mo d y h mi :
  first_date (date_label e) mo d y -> first_time (time_label e) h mi ->
  tier2 e = Some (int y, int mo, int d, two_digits (int h) ++ [58%N] ++ two_digits (int mi)).
Proof.
  intros Hd Ht. unfold tier2.
  rewrite (first_date_search _ _ _ _ Hd), (first_time_search _ _ _ Ht).
  destruct Ht as (_ & _ & _ & (_ & _ & Hh & [Lmi Dmi]) & _).
  rewrite (format_0d_two_digits (int h)) by (apply int_digits12_range, Hh).
  rewrite (format_0d_two_digits (int mi))
    by (apply int_digits12_range; split; [lia | exact Dmi]).
  reflexivity.
Qed.

Lemma first_date_by_run s mo d y :
  re_search date_label_re s = Some [mo; d; y] -> first_date s mo d y.
Proof.
  intros E. apply search_date_first in E.
  destruct E as (mo' & d' & y' & H & [= -> -> ->]). exact H.
Qed.

Lemma first_time_by_run s h mi :
  re_search time_label_re s = Some [h; mi] -> first_time s h mi.
Proof.
  intros E. apply search_time_first in E.
  destruct E as (h' & mi' & H & [= -> ->]). exact H.
Qed.

(** ** Stripping *)

Lemma lstrip_app x y :
  lstrip (x ++ y) = match lstrip x with [] => lstrip y | _ => lstrip x ++ y end.
Proof.
  induction x as [| c x IH]; simpl.
  - reflexivity.
  - destruct (is_space c); [exact IH | reflexivity].
Qed.

Lemma rstrip_snoc s c :
  rstrip (s ++ [c]) = if is_space c then rstrip s else s ++ [c].
Proof.
  unfold rstrip. rewrite rev_app_distr. simpl.
  destruct (is_space c); [reflexivity |].
  simpl. rewrite rev_involutive. reflexivity.
Qed.

Lemma rstrip_app x y :
  rstrip (x ++ y) = match rstrip y with [] => rstrip x | _ => x ++ rstrip y end.
Proof.
  induction y as [| c y IH] using rev_ind.
  - rewrite app_nil_r. reflexivity.
  - rewrite app_assoc, !rstrip_snoc. destruct (is_space c).
    + exact IH.
    + destruct (y ++ [c]) eqn:E; [destruct y; discriminate |].
      rewrite <- E, app_assoc. reflexivity.
Qed.

Lemma right_trimmed_iff l :
  right_trimmed l <-> l = [] \/ exists l' c, l = l' ++ [c] /\ is_space c = false.
Proof.
  unfold right_trimmed. split.
  - destruct l as [| c l] using rev_ind; [auto |].
    clear IHl. rewrite rstrip_snoc. destruct (is_space c) eqn:E; [| eauto].
    intros H. exfalso.
    assert (Hl : forall s, (length (rstrip s) <= length s)%nat).
    { induction s as [| a s IH] using rev_ind; [simpl; lia |].
      rewrite rstrip_snoc, length_app. destruct (is_space a); simpl; [lia |].
      rewrite length_app. simpl. lia. }
    specialize (Hl l). rewrite H, length_app in Hl. simpl in Hl. lia.
  - intros [-> | (l' & c & -> & E)]; [reflexivity |].
    rewrite rstrip_snoc, E. reflexivity.
Qed.

Lemma rstrip_right_trimmed l : right_trimmed (rstrip l).
Proof.
  induction l as [| c l IH] using rev_ind; [reflexivity |].
  rewrite rstrip_snoc. destruct (is_space c) eqn:E; [exact IH |].
  apply right_trimmed_iff. eauto.
Qed.

Lemma rstrip_prefix l : exists t, l = rstrip l ++ t.
Proof.
  induction l as [| c l [t IH]] using rev_ind; [exists []; reflexivity |].
  rewrite rstrip_snoc. destruct (is_space c).
  - exists (t ++ [c]). rewrite app_assoc, <- IH. reflexivity.
  - exists []. rewrite app_nil_r. reflexivity.
Qed.

Lemma lstrip_suffix l : exists t, l = t ++ lstrip l.
Proof.
  induction l as [| c l [t IH]]; [exists []; reflexivity |].
  simpl. destruct (is_space c).
  - exists (c :: t). simpl. rewrite <- IH. reflexivity.
  - exists []. reflexivity.
Qed.

Lemma lstrip_plain l :
  plain_line l -> l <> [] -> lstrip l <> [] /\ plain_line (lstrip l).
Proof.
  intros [Ht Hn] Hl.
  apply right_trimmed_iff in Ht. destruct Ht as [-> | (l' & c & -> & E)]; [congruence |].
  rewrite lstrip_app.
  assert (Hc : lstrip [c] = [c]) by (simpl; rewrite E; reflexivity).
  assert (Hn' : Forall (fun c => c <> 10%N) (lstrip (l' ++ [c]))).
  { destruct (lstrip_suffix (l' ++ [c])) as [t Ht]. rewrite Ht in Hn.
    apply Forall_app in Hn. apply Hn. }
  rewrite lstrip_app in Hn'.
  destruct (lstrip l') as [| a r] eqn:E'.
  - rewrite Hc in *. split; [discriminate |]. split; [| exact Hn'].
    apply right_trimmed_iff. right. exists [], c. auto.
  - split; [discriminate |]. split; [| exact Hn'].
    apply right_trimmed_iff. right. exists (a :: r), c. auto.
Qed.

(** ** The lines of [splitlines] *)

Lemma splitlines_aux_no_break s :
  forall cur,
    Forall (fun c => is_linebreak c = false) cur ->
    Forall (Forall (fun c => is_linebreak c = false)) (splitlines_aux cur s).
Proof.
  induction s as [| c s IH]; intros cur Hcur.
  - simpl. destruct cur; repeat constructor; inversion Hcur; auto.
  - cbn [splitlines_aux]. destruct (is_linebreak c) eqn:E.
    + assert (Hs : Forall (Forall (fun c => is_linebreak c = false)) (splitlines_aux [] s))
        by (apply IH; constructor).
      assert (Hdef : Forall (Forall (fun c => is_linebreak c = false))
                            (cur :: splitlines_aux [] s)) by (constructor; assumption).
      destruct s as [| c' s']; [destruct c as [| p]; try exact Hdef;
        do 4 (destruct p; try exact Hdef) |].
      destruct (decide (c = 13%N /\ c' = 10%N)) as [[-> ->] | Hne].
      * constructor; [exact Hcur |]. simpl in Hs. inversion Hs. assumption.
      * destruct c as [| p]; try exact Hdef.
        do 4 (destruct p; try exact Hdef).
        destruct c' as [| p']; try exact Hdef.
        do 4 (destruct p'; try exact Hdef).
        exfalso. apply Hne. auto.
    + apply IH. apply Forall_app. split; [exact Hcur |]. repeat constructor. exact E.
Qed.

Lemma splitlines_plain text : Forall plain_line (rstrip <$> splitlines text).
Proof.
  apply Forall_fmap.
  pose proof (splitlines_aux_no_break text [] (Forall_nil_2 _)) as H.
  unfold splitlines. induction H as [| l ls Hl _ IH]; constructor; [| exact IH].
  split; [apply rstrip_right_trimmed |].
  destruct (rstrip_prefix l) as [t Ht]. rewrite Ht in Hl.
  apply Forall_app in Hl. destruct Hl as [Hl _].
  eapply Forall_impl; [exact Hl |]. simpl. intros c Hc ->. discriminate.
Qed.

(** ** Blank lines *)

Lemma no_double_blank_snoc ls x :
  no_double_blank (ls ++ [x]) <-> no_double_blank ls /\ ~ (last ls = Some [] /\ x = []).
Proof.
  induction ls as [| a ls IH].
  - simpl. split; [intros _; split; [exact I | intros [? _]; discriminate] | auto].
  - destruct ls as [| b ls'].
    + simpl. split.
      * intros [H _]. split; [exact I |]. intros [[= ->] ->]. auto.
      * intros [_ H]. split; [| exact I]. intros [-> ->]. auto.
    + change ((a :: b :: ls') ++ [x]) with (a :: (b :: ls') ++ [x]).
      cbn [no_double_blank app] in *.
      change (last (a :: b :: ls')) with (last (b :: ls')). tauto.
Qed.

Lemma no_double_blank_tail a ls : no_double_blank (a :: ls) -> no_double_blank ls.
Proof. destruct ls; simpl; tauto. Qed.

Lemma no_double_blank_head a a' ls :
  a' <> [] -> no_double_blank (a :: ls) -> no_double_blank (a' :: ls).
Proof. destruct ls; simpl; tauto. Qed.

Lemma collapse_blank_lines_inv lines :
  Forall plain_line lines ->
  Forall plain_line (collapse_blank_lines lines)
  /\ no_double_blank (collapse_blank_lines lines).
Proof.
  unfold collapse_blank_lines. intros Hl.
  assert (H : forall cleaned,
             Forall plain_line cleaned -> no_double_blank cleaned ->
             Forall plain_line
               (fold_left (fun cleaned ln =>
                  match ln with
                  | [] => match last cleaned with
                          | Some [] => cleaned
                          | _ => cleaned ++ [[]]
                          end
                  | _ => cleaned ++ [ln]
                  end) lines cleaned)
             /\ no_double_blank
               (fold_left (fun cleaned ln =>
                  match ln with
                  | [] => match last cleaned with
                          | Some [] => cleaned
                          | _ => cleaned ++ [[]]
                          end
                  | _ => cleaned ++ [ln]
                  end) lines cleaned)).
  { induction Hl as [| ln lines Hln _ IH]; intros cleaned Hc Hn; [simpl; auto |].
    cbn [fold_left]. apply IH.
    - destruct ln as [| c ln].
      + destruct (last cleaned) as [[| ? ?] |]; auto;
          apply Forall_app; split; auto.
      + apply Forall_app; split; auto.
    - destruct ln as [| c ln].
      + destruct (last cleaned) as [[| ? ?] |] eqn:E; auto;
          apply no_double_blank_snoc; split; auto; intros [? _]; congruence.
      + apply no_double_blank_snoc; split; auto. intros [_ ?]. discriminate. }
  apply H; [constructor | exact I].
Qed.

(** ** Joining and stripping lines *)

Lemma join_cons sep l rest :
  rest <> [] -> join sep (l :: rest) = l ++ sep ++ join sep rest.
Proof. destruct rest; [congruence | reflexivity]. Qed.

Lemma join_nil_inv sep r : sep <> [] -> join sep r = [] -> r = [] \/ r = [[]].
Proof.
  intros Hsep. destruct r as [| l [| l' r']]; simpl; auto.
  - intros ->. auto.
  - intros H. apply app_eq_nil in H. destruct H as [_ H].
    apply app_eq_nil in H. destruct H. congruence.
Qed.

Lemma lstrip_join ls :
  Forall plain_line ls -> lstrip (join [10%N] ls) = join [10%N] (lstrip_lines ls).
Proof.
  induction 1 as [| l rest Hl _ IH]; [reflexivity |].
  destruct rest as [| l' rest'].
  - destruct l; [reflexivity |]. reflexivity.
  - rewrite join_cons by discriminate. destruct l as [| c l].
    + change (lstrip (join [10%N] (l' :: rest'))
              = join [10%N] (lstrip_lines (l' :: rest'))).
      exact IH.
    + destruct (lstrip_plain (c :: l) Hl) as [Hne _]; [discriminate |].
      rewrite lstrip_app. cbn [lstrip_lines].
      destruct (lstrip (c :: l)) eqn:E; [congruence |].
      rewrite (join_cons _ _ (l' :: rest')) by discriminate. reflexivity.
Qed.

Lemma drop_blank_end_last ls : last (drop_blank_end ls) <> Some [].
Proof.
  induction ls as [| l rest IH]; [discriminate |].
  simpl. destruct (drop_blank_end rest) as [| r rs] eqn:E.
  - destruct l; [discriminate |]. simpl. discriminate.
  - change (last (l :: r :: rs)) with (last (r :: rs)). exact IH.
Qed.

Lemma rstrip_join ls :
  Forall plain_line ls -> rstrip (join [10%N] ls) = join [10%N] (drop_blank_end ls).
Proof.
  induction 1 as [| l rest Hl _ IH]; [reflexivity |].
  destruct (decide (rest = [])) as [-> | Hne].
  - simpl. destruct Hl as [Hl _]. rewrite Hl. destruct l; reflexivity.
  - rewrite join_cons by exact Hne. cbn [drop_blank_end].
    rewrite rstrip_app, (rstrip_app [10%N]), IH.
    pose proof (drop_blank_end_last rest) as Hlast.
    destruct (drop_blank_end rest) as [| r rs] eqn:E.
    + simpl. destruct Hl as [Hl _]. rewrite Hl. destruct l; reflexivity.
    + destruct (join [10%N] (r :: rs)) eqn:Ej.
      * apply join_nil_inv in Ej; [| discriminate].
        destruct Ej as [Ej | Ej]; [discriminate |].
        injection Ej as -> ->. exfalso. apply Hlast. reflexivity.
      * rewrite <- Ej. rewrite (join_cons _ l (r :: rs)) by discriminate. reflexivity.
Qed.

Lemma drop_blank_end_Forall (P : str -> Prop) ls :
  Forall P ls -> Forall P (drop_blank_end ls).
Proof.
  induction 1 as [| l rest Hl _ IH]; [constructor |].
  simpl. destruct (drop_blank_end rest) as [| r rs].
  - destruct l; repeat constructor; auto.
  - constructor; [exact Hl | exact IH].
Qed.

Lemma drop_blank_end_head ls l :
  head ls = Some l -> l <> [] -> head (drop_blank_end ls) = Some l.
Proof.
  destruct ls as [| l' rest]; [discriminate |]. simpl. intros [= ->] Hl.
  destruct (drop_blank_end rest); [destruct l; [congruence |] |]; reflexivity.
Qed.

Lemma drop_blank_end_no_double_blank ls :
  no_double_blank ls -> no_double_blank (drop_blank_end ls).
Proof.
  induction ls as [| l rest IH]; [auto |]. intros H.
  pose proof (no_double_blank_tail _ _ H) as Ht. specialize (IH Ht).
  simpl. destruct (drop_blank_end rest) as [| r rs] eqn:E.
  - destruct l; exact I.
  - cbn [no_double_blank]. split; [| exact IH].
    destruct rest as [| b rest']; [discriminate |].
    simpl in H. destruct H as [H _]. intros [-> ->]. apply H. split; [reflexivity |].
    simpl in E. destruct (drop_blank_end rest'); [destruct b; congruence | congruence].
Qed.

Lemma lstrip_lines_Forall ls :
  Forall plain_line ls -> Forall plain_line (lstrip_lines ls).
Proof.
  induction 1 as [| l rest Hl Hr IH]; [constructor |].
  destruct l as [| c l]; [exact IH |].
  simpl lstrip_lines. constructor; [| exact Hr].
  apply (lstrip_plain (c :: l)); [exact Hl | discriminate].
Qed.

Lemma lstrip_lines_head ls :
  Forall plain_line ls ->
  lstrip_lines ls = [] \/ exists l rest, lstrip_lines ls = l :: rest /\ l <> [].
Proof.
  induction 1 as [| l rest Hl Hr IH]; [auto |].
  destruct l as [| c l]; [exact IH |]. right.
  exists (lstrip (c :: l)), rest. split; [reflexivity |].
  apply (lstrip_plain (c :: l)); [exact Hl | discriminate].
Qed.

Lemma lstrip_lines_no_double_blank ls :
  Forall plain_line ls -> no_double_blank ls -> no_double_blank (lstrip_lines ls).
Proof.
  induction 1 as [| l rest Hl Hr IH]; [auto |]. intros H.
  destruct l as [| c l]; [apply IH; eapply no_double_blank_tail; exact H |].
  simpl lstrip_lines. eapply no_double_blank_head; [| exact H].
  apply (lstrip_plain (c :: l)); [exact Hl | discriminate].
Qed.

Lemma split_on_line d l rest :
  Forall (fun c => c <> d) l -> split_on d (l ++ d :: rest) = l :: split_on d rest.
Proof.
  induction 1 as [| c l Hc _ IH]; simpl.
  - rewrite N.eqb_refl. reflexivity.
  - apply N.eqb_neq in Hc. rewrite Hc, IH. reflexivity.
Qed.

Lemma split_on_last d l : Forall (fun c => c <> d) l -> split_on d l = [l].
Proof.
  induction 1 as [| c l Hc _ IH]; simpl; [reflexivity |].
  apply N.eqb_neq in Hc. rewrite Hc, IH. reflexivity.
Qed.

Lemma lines_of_join ls :
  ls <> [] -> Forall plain_line ls -> lines_of (join [10%N] ls) = ls.
Proof.
  intros Hne H. unfold lines_of.
  induction H as [| l rest [_ Hl] Hr IH]; [congruence |].
  destruct rest as [| l' rest'].
  - simpl. apply split_on_last, Hl.
  - rewrite join_cons by discriminate.
    change ([10%N] ++ join [10%N] (l' :: rest')) with (10%N :: join [10%N] (l' :: rest')).
    rewrite split_on_line by exact Hl. rewrite IH by discriminate. reflexivity.
Qed.

Lemma normalize_text_lines text :
  exists ls,
    normalize_text text = join [10%N] ls
    /\ Forall plain_line ls /\ no_double_blank ls
    /\ head ls <> Some [] /\ last ls <> Some [].
Proof.
  unfold normalize_text, strip.
  destruct (collapse_blank_lines_inv _ (splitlines_plain text)) as [Hp Hn].
  set (cleaned := collapse_blank_lines (rstrip <$> splitlines text)) in *.
  exists (drop_blank_end (lstrip_lines cleaned)).
  pose proof (lstrip_lines_Forall _ Hp) as Hp'.
  split; [rewrite lstrip_join, rstrip_join; auto |].
  split; [apply drop_blank_end_Forall, Hp' |].
  split; [apply drop_blank_end_no_double_blank, lstrip_lines_no_double_blank; auto |].
  split; [| apply drop_blank_end_last].
  destruct (lstrip_lines_head _ Hp) as [-> | (l & rest & -> & Hl)]; [discriminate |].
  rewrite (drop_blank_end_head _ l); [congruence | reflexivity | exact Hl].
Qed.

Lemma normalize_text_normalized text : normalized (normalize_text text).
Proof.
  destruct (normalize_text_lines text) as (ls & -> & Hp & Hn & Hh & Hl).
  destruct ls as [| l rest].
  - repeat split; simpl; auto. repeat constructor.
  - unfold normalized. rewrite lines_of_join by (auto; discriminate).
    split; [eapply Forall_impl; [exact Hp | intros ? [? _]; assumption] |].
    split; [exact Hn |]. right. auto.
Qed.

Lemma empty_normalized : normalized [].
Proof. repeat split; simpl; auto. repeat constructor. Qed.

(** ** Sorting *)

Section SortFacts.

Context {A K : Type} (leb : K -> K -> bool) (key : A -> K).

Hypothesis leb_total : forall a b, leb a b = true \/ leb b a = true.

Local Abbreviation le_key := (fun x y => leb (key x) (key y) = true).

Lemma insert_sorted_perm x l : Permutation (insert_sorted leb key x l) (x :: l).
Proof.
  induction l as [| y l IH]; simpl; [reflexivity |].
  destruct (leb (key x) (key y)); [reflexivity |].
  rewrite IH. apply perm_swap.
Qed.

Lemma sort_by_perm l : Permutation (sort_by leb key l) l.
Proof.
  induction l as [| x l IH]; simpl; [reflexivity |].
  rewrite insert_sorted_perm. constructor. exact IH.
Qed.

Lemma insert_sorted_Sorted x l :
  Sorted le_key l -> Sorted le_key (insert_sorted leb key x l).
Proof.
  induction 1 as [| y l Hs IH Hh]; simpl; [repeat constructor |].
  destruct (leb (key x) (key y)) eqn:E.
  - constructor; [constructor; assumption | constructor; exact E].
  - constructor; [exact IH |].
    destruct l as [| z l]; simpl.
    + constructor. destruct (leb_total (key x) (key y)); congruence.
    + inversion Hh; subst.
      destruct (leb (key x) (key z)); constructor; [| assumption].
      destruct (leb_total (key x) (key y)); congruence.
Qed.

Lemma sort_by_Sorted l : Sorted le_key (sort_by leb key l).
Proof.
  induction l as [| x l IH]; simpl; [constructor |].
  apply insert_sorted_Sorted, IH.
Qed.

(** The sort is stable: the elements of one key keep their order. *)
Lemma insert_sorted_stable (pick : A -> bool) x l :
  (forall y, pick y = true -> pick x = true -> leb (key x) (key y) = true) ->
  List.filter pick (insert_sorted leb key x l) = List.filter pick (x :: l).
Proof.
  intros Hsame. induction l as [| y l IH]; [reflexivity |].
  cbn [insert_sorted]. destruct (leb (key x) (key y)) eqn:E; [reflexivity |].
  cbn [List.filter] in *. rewrite IH.
  destruct (pick y) eqn:Ey; [| reflexivity].
  destruct (pick x) eqn:Ex; [| reflexivity].
  rewrite (Hsame y Ey eq_refl) in E. discriminate.
Qed.

Lemma sort_by_stable (pick : A -> bool) l :
  (forall x y, pick x = true -> pick y = true -> leb (key x) (key y) = true) ->
  List.filter pick (sort_by leb key l) = List.filter pick l.
Proof.
  intros Hsame. induction l as [| x l IH]; [reflexivity |].
  cbn [sort_by foldr]. fold (sort_by leb key l).
  rewrite insert_sorted_stable; [| intros y Hy Hx; apply Hsame; assumption].
  cbn [List.filter]. rewrite IH. reflexivity.
Qed.

End SortFacts.

(** The order of strings and the order of days. *)
Lemma str_leb_total a : forall b, str_leb a b = true \/ str_leb b a = true.
Proof.
  induction a as [| x a IH]; intros [| y b]; simpl; auto.
  destruct (N.lt_trichotomy x y) as [H | [-> | H]].
  - left. apply N.ltb_lt in H. rewrite H. reflexivity.
  - rewrite N.ltb_irrefl, N.eqb_refl. simpl. apply IH.
  - right. apply N.ltb_lt in H. rewrite H. reflexivity.
Qed.

Lemma str_leb_refl a : str_leb a a = true.
Proof. destruct (str_leb_total a a); assumption. Qed.

Lemma str_leb_trans a :
  forall b c, str_leb a b = true -> str_leb b c = true -> str_leb a c = true.
Proof.
  induction a as [| x a IH]; intros [| y b] [| z c]; simpl; try discriminate; auto.
  intros H1 H2.
  apply orb_prop in H1. apply orb_prop in H2. apply orb_true_intro.
  destruct H1 as [H1 | H1], H2 as [H2 | H2];
    try (apply andb_prop in H1; destruct H1 as [H1 H1']; apply N.eqb_eq in H1; subst);
    try (apply andb_prop in H2; destruct H2 as [H2 H2']; apply N.eqb_eq in H2; subst);
    try apply N.ltb_lt in H1; try apply N.ltb_lt in H2.
  - left. apply N.ltb_lt. lia.
  - left. apply N.ltb_lt. lia.
  - left. apply N.ltb_lt. lia.
  - right. rewrite N.eqb_refl. simpl. eapply IH; eassumption.
Qed.

Lemma day_key_leb_total a b : day_key_leb a b = true \/ day_key_leb b a = true.
Proof.
  destruct a as [[y1 m1] d1], b as [[y2 m2] d2]. unfold day_key_leb.
  destruct (Z.lt_trichotomy y1 y2) as [H | [-> | H]].
  - left. apply Z.ltb_lt in H. rewrite H. reflexivity.
  - rewrite Z.ltb_irrefl, Z.eqb_refl. simpl.
    destruct (Z.lt_trichotomy m1 m2) as [H | [-> | H]].
    + left. apply Z.ltb_lt in H. rewrite H. reflexivity.
    + rewrite Z.ltb_irrefl, Z.eqb_refl. simpl.
      destruct (Z.le_ge_cases d1 d2) as [H | H]; apply Z.leb_le in H; auto.
    + right. apply Z.ltb_lt in H. rewrite H. reflexivity.
  - right. apply Z.ltb_lt in H. rewrite H. reflexivity.
Qed.

(** ** The extractor *)

Section ExtractFacts.

Variable html_parser : str -> node.
Variable urljoin : str -> str -> str.

(** What holds of every entry made from an item and its detail link holds
    of every entry of a page. *)
Lemma extract_entries_Forall (P : Entry -> Prop) :
  (forall current_date li a,
      select_one sel_meta_time_a li = Some a ->
      P (entry_of_item urljoin current_date li a)) ->
  forall html, Forall P (extract_entries_from_page html_parser urljoin html).
Proof.
  intros HP html. unfold extract_entries_from_page.
  destruct (select_one sel_posts_list (html_parser html, [])) as [posts_list |];
    [| constructor].
  assert (H : forall items acc,
             Forall P (snd acc) ->
             Forall P (snd (fold_left (extract_step urljoin) items acc))).
  { induction items as [| li items IH]; intros acc Hacc; [exact Hacc |].
    cbn [fold_left]. apply IH. unfold extract_step. destruct acc as [cd entries].
    destruct (has_class (u "day-cut") (fst li)); [exact Hacc |].
    destruct (has_class (u "diary") (fst li)); [| exact Hacc]. cbn [negb].
    destruct (select_one sel_meta_time_a li) as [a |] eqn:E; [| exact Hacc].
    cbn [snd] in *. apply Forall_app. split; [exact Hacc |].
    constructor; [| constructor]. apply HP, E. }
  apply H. constructor.
Qed.

End ExtractFacts.

Lemma select_meta_time_a_href li a :
  select_one sel_meta_time_a li = Some a ->
  exists href, get (fst a) (u "href") [] = href /\ starts_with (u "/a/") href = true.
Proof.
  unfold select_one. intros H. apply find_some in H. destruct H as [_ H].
  unfold matches in H. apply andb_prop in H. destruct H as [H _].
  unfold matches_compound in H. destruct (fst a) as [| name attrs kids]; [discriminate |].
  apply andb_prop in H. destruct H as [_ H]. cbn [sel_meta_time_a s_subject c_attr_prefix] in H.
  unfold get. destruct (attrs !! u "href") as [v |]; [| discriminate].
  exists v. split; [reflexivity | exact H].
Qed.

Lemma entry_id_re_sound s pos r :
  accepts entry_id_re s (start_at pos) r ->
  exists seg post,
    s = u "/a/" ++ seg ++ post /\ seg <> [] /\ forallb is_alnum seg = true /\ r = [seg].
Proof.
  unfold entry_id_re, Lit, Plus, start_at. intros H.
  open_accepts H. subst.
  match goal with
  | |- context [[47%N] ++ [97%N] ++ [47%N] ++ ?seg ++ ?post = _] => exists seg, post
  end.
  repeat split; auto. intros ->. simpl in *. lia.
Qed.

Lemma entry_id_re_complete seg post pos :
  seg <> [] -> forallb is_alnum seg = true ->
  accepts entry_id_re (u "/a/" ++ seg ++ post) (start_at pos) [seg].
Proof.
  intros Hne Hseg. unfold entry_id_re, Lit, Plus, start_at.
  change (u "/a/" ++ seg ++ post) with ([47%N] ++ [97%N] ++ [47%N] ++ seg ++ post).
  give_word [47%N]. give_word [97%N]. give_word [47%N]. give_group.
  cbn [accepts]. exists seg. eexists. split; [reflexivity |]. split; [exact Hseg |].
  split; [destruct seg; [congruence | simpl; lia] |]. split; [discriminate |].
  give_group. close_accepts.
Qed.

Lemma entry_id_of_href_cases href :
  (exists seg, id_occurs href seg /\ entry_id_of_href href = seg)
  \/ ((forall seg, ~ id_occurs href seg) /\ entry_id_of_href href = href).
Proof.
  unfold entry_id_of_href.
  destruct (re_search entry_id_re href) as [r |] eqn:E.
  - left. apply search_sound in E. destruct E as (pre & s' & -> & H).
    apply entry_id_re_sound in H. destruct H as (seg & post & -> & Hne & Hseg & ->).
    exists seg. split; [| reflexivity]. exists pre, post. auto.
  - right. split; [| reflexivity]. intros seg (pre & post & -> & Hne & Hseg).
    destruct (search_complete entry_id_re pre 0 (u "/a/" ++ seg ++ post) [seg]) as [r Hr].
    + apply entry_id_re_complete; assumption.
    + unfold re_search in E. congruence.
Qed.

Lemma entry_id_of_href_nonempty href :
  starts_with (u "/a/") href = true -> entry_id_of_href href <> [].
Proof.
  intros Hp. destruct (entry_id_of_href_cases href) as [(seg & Ho & ->) | [_ ->]].
  - destruct Ho as (_ & _ & _ & Hne & _). exact Hne.
  - intros ->. discriminate.
Qed.

(** ** Grouping by day *)

Lemma setdefault_append_to_map {V : Type} (k : day_key) (v : V) (d : list (day_key * list V)) :
  (list_to_map (setdefault_append k v d) : gmap day_key (list V))
  = <[k := default [] ((list_to_map d : gmap day_key (list V)) !! k) ++ [v]]> (list_to_map d).
Proof.
  induction d as [| [k' vs] d IH]; [reflexivity |].
  cbn [setdefault_append]. destruct (decide (k = k')) as [<- | Hne].
  - cbn [list_to_map foldr uncurry fst snd]. rewrite lookup_insert_eq.
    cbn [from_option]. unfold Datatypes.id. rewrite insert_insert_eq. reflexivity.
  - cbn [list_to_map foldr uncurry fst snd] in *. rewrite IH.
    rewrite lookup_insert_ne by congruence.
    apply insert_insert_ne. congruence.
Qed.

Lemma setdefault_append_keys {V : Type} (k : day_key) (v : V) (d : list (day_key * list V)) :
  (setdefault_append k v d).*1 = if decide (k ∈ d.*1) then d.*1 else d.*1 ++ [k].
Proof.
  induction d as [| [k' vs] d IH]; [reflexivity |].
  cbn [setdefault_append]. destruct (decide (k = k')) as [<- | Hne].
  - rewrite decide_True by (cbn; left). reflexivity.
  - cbn [fmap list_fmap fst] in *. rewrite IH.
    destruct (decide (k ∈ d.*1)) as [Hin | Hin].
    + rewrite decide_True by (right; exact Hin). reflexivity.
    + rewrite decide_False; [reflexivity |].
      intros H. apply elem_of_cons in H. destruct H; [congruence | auto].
Qed.

Lemma setdefault_append_NoDup {V : Type} (k : day_key) (v : V) (d : list (day_key * list V)) :
  NoDup d.*1 -> NoDup (setdefault_append k v d).*1.
Proof.
  intros H. rewrite setdefault_append_keys.
  destruct (decide (k ∈ d.*1)); [exact H |].
  apply NoDup_app. split; [exact H |]. split; [| apply NoDup_singleton].
  intros x Hx Hk. apply list_elem_of_singleton in Hk. subst. auto.
Qed.

Lemma setdefault_append_total {V : Type} (k : day_key) (v : V) (d : list (day_key * list V)) :
  sum_list_with (fun g => length (snd g)) (setdefault_append k v d)
  = S (sum_list_with (fun g => length (snd g)) d).
Proof.
  induction d as [| [k' vs] d IH]; [reflexivity |].
  cbn [setdefault_append]. destruct (decide (k = k')).
  - cbn. rewrite length_app. cbn. lia.
  - cbn in *. rewrite IH. lia.
Qed.

Lemma group_fold_lookup entries :
  forall g k,
    (list_to_map (fold_left group_step entries g) : gmap day_key _) !! k
    = add_items ((list_to_map g : gmap day_key _) !! k) (items_of_day k entries).
Proof.
  induction entries as [| e entries IH]; intros g k.
  - cbn [fold_left items_of_day omap list_omap].
    match goal with
    | |- _ = add_items ?o _ => destruct o as [old |]; cbn
    end; [rewrite app_nil_r |]; reflexivity.
  - cbn [fold_left]. rewrite IH. unfold group_step, items_of_day. cbn [omap list_omap].
    destruct (parse_entry_datetime_parts e) as [[[[y m] d] hm] |]; [| reflexivity].
    rewrite setdefault_append_to_map.
    destruct (decide ((y, m, d) = k)) as [<- | Hne].
    + rewrite lookup_insert_eq.
      fold (items_of_day (y, m, d) entries).
      match goal with
      | |- _ = add_items ?o _ => destruct o as [old |]; cbn
      end.
      * rewrite <- app_assoc. reflexivity.
      * reflexivity.
    + rewrite lookup_insert_ne by exact Hne. reflexivity.
Qed.

Lemma group_fold_NoDup entries :
  forall g, NoDup g.*1 -> NoDup (fold_left group_step entries g).*1.
Proof.
  induction entries as [| e entries IH]; intros g Hg; [exact Hg |].
  cbn [fold_left]. apply IH. unfold group_step.
  destruct (parse_entry_datetime_parts e) as [[[[y m] d] hm] |]; [| exact Hg].
  apply setdefault_append_NoDup, Hg.
Qed.

Lemma group_fold_total entries :
  forall g,
    sum_list_with (fun g => length (snd g)) (fold_left group_step entries g)
    = (sum_list_with (fun g => length (snd g)) g
       + length (List.filter is_resolved entries))%nat.
Proof.
  induction entries as [| e entries IH]; intros g; [cbn; lia |].
  cbn [fold_left List.filter]. rewrite IH. unfold group_step, is_resolved.
  destruct (parse_entry_datetime_parts e) as [[[[y m] d] hm] |]; [| lia].
  rewrite setdefault_append_total. cbn. lia.
Qed.

Lemma group_by_day_NoDup entries : NoDup (group_by_day entries).*1.
Proof. apply group_fold_NoDup. constructor. Qed.

(** A day of [grouped] has the records of that day, in their order, and
    at least one. *)
Lemma group_by_day_items entries k raw :
  (k, raw) ∈ group_by_day entries <-> raw = items_of_day k entries /\ raw <> [].
Proof.
  rewrite (elem_of_list_to_map (M := gmap day_key)) by apply group_by_day_NoDup.
  unfold group_by_day. rewrite group_fold_lookup. cbn [list_to_map foldr].
  rewrite lookup_empty. cbn [add_items].
  destruct (items_of_day k entries) eqn:E; split.
  - discriminate.
  - intros [-> H]. congruence.
  - intros [= <-]. split; [reflexivity | discriminate].
  - intros [-> _]. reflexivity.
Qed.

Lemma items_of_day_resolved k entries hm e :
  (hm, e) ∈ items_of_day k entries <->
  e ∈ entries /\ exists y m d, k = (y, m, d)
                             /\ parse_entry_datetime_parts e = Some (y, m, d, hm).
Proof.
  unfold items_of_day. rewrite list_elem_of_omap. split.
  - intros (e' & He & H).
    destruct (parse_entry_datetime_parts e') as [[[[y m] d] hm'] |] eqn:E; [| discriminate].
    destruct (decide ((y, m, d) = k)) as [<- | ?]; [| discriminate].
    injection H as <- <-. split; [exact He |]. exists y, m, d. auto.
  - intros (He & y & m & d & -> & E). exists e. split; [exact He |].
    rewrite E. rewrite decide_True by reflexivity. reflexivity.
Qed.

Lemma items_of_day_nonempty k entries :
  items_of_day k entries <> [] <->
  exists e hm, e ∈ entries
               /\ exists y m d, k = (y, m, d)
                                /\ parse_entry_datetime_parts e = Some (y, m, d, hm).
Proof.
  split.
  - destruct (items_of_day k entries) as [| [hm e] rest] eqn:E; [congruence |]. intros _.
    exists e, hm. apply items_of_day_resolved. rewrite E. left.
  - intros (e & hm & H). apply items_of_day_resolved in H.
    intros E. rewrite E in H. inversion H.
Qed.

(** The days of [day_groups]: the days of [grouped], each once, with
    their items sorted. *)
Lemma day_groups_items entries k items :
  (k, items) ∈ day_groups entries <->
  items = sort_by str_leb fst (items_of_day k entries) /\ items_of_day k entries <> [].
Proof.
  unfold day_groups. rewrite list_elem_of_fmap. split.
  - intros ([k' raw] & [= -> ->] & H).
    rewrite (sort_by_perm day_key_leb fst) in H.
    apply group_by_day_items in H. destruct H as [-> H]. auto.
  - intros [-> H]. exists (k, items_of_day k entries). split; [reflexivity |].
    rewrite (sort_by_perm day_key_leb fst). apply group_by_day_items. auto.
Qed.

Lemma day_groups_NoDup entries : NoDup (day_groups entries).*1.
Proof.
  unfold day_groups. rewrite <- list_fmap_compose.
  change (fst ∘ _) with (@fst day_key (list (str * Entry))).
  rewrite (sort_by_perm day_key_leb fst). apply group_by_day_NoDup.
Qed.

Lemma length_sort_by {A K : Type} (leb : K -> K -> bool) (key : A -> K) l :
  length (sort_by leb key l) = length l.
Proof. apply Permutation_length, sort_by_perm. Qed.

Lemma day_groups_total entries :
  markdown_total (day_groups entries) = length (List.filter is_resolved entries).
Proof.
  unfold markdown_total, day_groups.
  transitivity (sum_list_with (fun g : day_key * list (str * Entry) => length (snd g))
                  (sort_by day_key_leb fst (group_by_day entries))).
  - induction (sort_by day_key_leb fst (group_by_day entries)) as [| g gs IH];
      [reflexivity |].
    cbn. rewrite length_sort_by, <- IH. reflexivity.
  - rewrite (sort_by_perm day_key_leb fst).
    unfold group_by_day. rewrite group_fold_total. reflexivity.
Qed.

(** ** Deduplication *)

Lemma dedup_loop_sublist l : forall seen, dedup_loop seen l `sublist_of` l.
Proof.
  induction l as [| e l IH]; intros seen; simpl; [constructor |].
  destruct (bool_decide (id e ∈ seen)).
  - apply sublist_cons, IH.
  - apply sublist_skip, IH.
Qed.

Lemma dedup_loop_unseen l :
  forall seen e, e ∈ dedup_loop seen l -> id e ∉ seen.
Proof.
  induction l as [| x l IH]; intros seen e; simpl; [inversion 1 |].
  destruct (bool_decide (id x ∈ seen)) eqn:E.
  - apply IH.
  - apply bool_decide_eq_false in E. intros H. apply elem_of_cons in H.
    destruct H as [-> | H]; [exact E |].
    apply IH in H. set_solver.
Qed.

Lemma dedup_loop_NoDup l : forall seen, NoDup (id <$> dedup_loop seen l).
Proof.
  induction l as [| x l IH]; intros seen; simpl; [constructor |].
  destruct (bool_decide (id x ∈ seen)); [apply IH |].
  rewrite fmap_cons. constructor; [| apply IH].
  intros H. apply list_elem_of_fmap in H. destruct H as (e & He & H).
  apply dedup_loop_unseen in H. set_solver.
Qed.

Lemma dedup_loop_complete l :
  forall seen e, e ∈ l -> id e ∈ seen \/ id e ∈ id <$> dedup_loop seen l.
Proof.
  induction l as [| x l IH]; intros seen e He; [inversion He |].
  simpl. apply elem_of_cons in He.
  destruct (bool_decide (id x ∈ seen)) eqn:E.
  - apply bool_decide_eq_true in E. destruct He as [-> | He]; [auto |]. apply IH, He.
  - rewrite fmap_cons. destruct He as [-> | He]; [right; left |].
    destruct (IH ({[id x]} ∪ seen) e He) as [H | H]; [| right; right; exact H].
    apply elem_of_union in H. destruct H as [H | H]; [| auto].
    apply elem_of_singleton in H. right. rewrite H. left.
Qed.

Lemma dedup_loop_first l :
  forall seen e, e ∈ dedup_loop seen l -> first_with_id l e.
Proof.
  induction l as [| x l IH]; intros seen e; simpl; [inversion 1 |].
  assert (Hrest : forall seen', id x ∈ seen' -> e ∈ dedup_loop seen' l -> first_with_id (x :: l) e).
  { intros seen' Hx He. pose proof (dedup_loop_unseen _ _ _ He) as Hu.
    destruct (IH _ _ He) as (i & Hi & Hf). exists (S i). split; [exact Hi |].
    intros [| j] y Hj Hy.
    - injection Hy as <-. intros Heq. rewrite Heq in Hx. auto.
    - apply (Hf j); [lia | exact Hy]. }
  destruct (bool_decide (id x ∈ seen)) eqn:E.
  - apply bool_decide_eq_true in E. apply Hrest, E.
  - intros H. apply elem_of_cons in H. destruct H as [-> | H].
    + exists O. split; [reflexivity |]. intros j y Hj. lia.
    + apply (Hrest ({[id x]} ∪ seen)); [set_solver | exact H].
Qed.

(** ** The fetch loop *)

Section ScrapeFacts.

Variable html_parser : str -> node.
Variable urljoin : str -> str -> str.
Variable s : session.
Variable posts_url : str.
Variable max_pages : option Z.

Local Abbreviation loop := (scrape_loop html_parser urljoin s posts_url max_pages).
Local Abbreviation pages := (entries_of_pages html_parser urljoin s posts_url).
Local Abbreviation full := (page_full html_parser urljoin s posts_url).
Local Abbreviation entries := (page_entries html_parser urljoin s posts_url).

Lemma entries_of_pages_S from n :
  pages from (S n) = default [] (entries from) ++ pages (from + 1) n.
Proof.
  unfold entries_of_pages. rewrite Nat2Z.inj_succ, seqZ_cons by lia.
  rewrite fmap_cons, Z.pred_succ. reflexivity.
Qed.

(** A run that returns has read some pages and returns their records. *)
Lemma scrape_loop_returns fuel :
  forall page acc evs res,
    loop fuel page acc = (evs, Some (Ok res)) ->
    exists n, res = acc ++ pages page n
              /\ forall p, page <= p < page + Z.of_nat n -> is_Some (entries p).
Proof.
  induction fuel as [| fuel IH]; intros page acc evs res H; [discriminate |].
  cbn [scrape_loop] in H.
  destruct (session_get s (page_url posts_url page)) as [html | e] eqn:Eg; [| discriminate].
  destruct (is_login_page html) eqn:El; [discriminate |].
  assert (Ee : entries page = Some (extract_entries_from_page html_parser urljoin html)).
  { unfold page_entries. rewrite Eg, El. reflexivity. }
  destruct (extract_entries_from_page html_parser urljoin html) as [| e es] eqn:Ex.
  - injection H as _ <-. exists O. split; [rewrite app_nil_r; reflexivity |].
    intros p Hp. lia.
  - assert (Hone : acc ++ e :: es = acc ++ pages page 1).
    { rewrite entries_of_pages_S, Ee. unfold entries_of_pages. simpl.
      rewrite app_nil_r. reflexivity. }
    destruct (match max_pages with Some m => m <=? page | None => false end).
    + injection H as _ <-. exists 1%nat. split; [exact Hone |].
      intros p Hp. assert (p = page) as -> by lia. rewrite Ee. eauto.
    + destruct (loop fuel (page + 1) (acc ++ e :: es)) as [later r] eqn:Er.
      injection H as _ ->. apply IH in Er. destruct Er as (n & -> & Hn).
      exists (S n). split.
      * rewrite entries_of_pages_S, Ee. simpl. rewrite <- app_assoc. reflexivity.
      * intros p Hp. destruct (decide (p = page)) as [-> | Hne]; [rewrite Ee; eauto |].
        apply Hn. lia.
Qed.

(** Full pages on which [max_pages] lets the loop go on are read one
    after the other. *)
Lemma scrape_loop_goes_on n :
  forall fuel page acc,
    (forall p, page <= p < page + Z.of_nat n -> full p /\ goes_on max_pages p) ->
    exists evs,
      requests evs = page_url posts_url <$> seqZ page (Z.of_nat n)
      /\ loop (n + fuel) page acc
         = (let '(later, r) := loop fuel (page + Z.of_nat n) (acc ++ pages page n) in
            (evs ++ later, r)).
Proof.
  induction n as [| n IH]; intros fuel page acc Hp.
  - exists []. split; [reflexivity |].
    change (Z.of_nat 0) with 0. rewrite Z.add_0_r.
    unfold entries_of_pages. simpl. rewrite app_nil_r.
    destruct (loop fuel page acc). reflexivity.
  - destruct (Hp page) as [(es & Ees & Hne) Hgo]; [lia |].
    destruct (IH fuel (page + 1) (acc ++ es)) as (evs & Hreq & Hrun).
    { intros p Hp'. apply Hp. lia. }
    pose proof Ees as Ees'. unfold page_entries in Ees'.
    destruct (session_get s (page_url posts_url page)) as [html | e] eqn:Eg; [| discriminate].
    destruct (is_login_page html) eqn:El; [discriminate |]. injection Ees' as Ex.
    exists (EvGet (page_url posts_url page)
            :: EvPrint (progress_line page es (acc ++ es)) :: EvSleep :: evs).
    split.
    + rewrite Nat2Z.inj_succ, seqZ_cons by lia. rewrite fmap_cons. simpl. f_equal.
      rewrite Hreq. do 2 f_equal. lia.
    + cbn [Nat.add scrape_loop]. rewrite Eg, El, Ex.
      destruct es as [| e es]; [congruence |].
      assert (match max_pages with Some m => m <=? page | None => false end = false) as ->.
      { destruct max_pages as [m |] eqn:Em; [| reflexivity].
        apply Z.leb_gt. apply Hgo. reflexivity. }
      rewrite Hrun. rewrite entries_of_pages_S, Ees. cbn [from_option].
      replace (page + 1 + Z.of_nat n) with (page + Z.of_nat (S n)) by lia.
      rewrite <- app_assoc. unfold Datatypes.id.
      destruct (loop fuel (page + Z.of_nat (S n)) (acc ++ (e :: es) ++ pages (page + 1) n)).
      reflexivity.
Qed.

(** The three ways the loop ends on the page it has reached. *)
Lemma scrape_loop_empty fuel page acc :
  entries page = Some [] ->
  loop (S fuel) page acc = ([EvGet (page_url posts_url page)], Some (Ok acc)).
Proof.
  unfold page_entries. intros H. cbn [scrape_loop].
  destruct (session_get s (page_url posts_url page)) as [html | e]; [| discriminate].
  destruct (is_login_page html); [discriminate |].
  injection H as ->. reflexivity.
Qed.

Lemma scrape_loop_max fuel page acc es m :
  entries page = Some es -> es <> [] -> max_pages = Some m -> m <= page ->
  loop (S fuel) page acc
  = ([EvGet (page_url posts_url page); EvPrint (progress_line page es (acc ++ es))],
     Some (Ok (acc ++ es))).
Proof.
  unfold page_entries. intros H Hne Hm Hle. cbn [scrape_loop].
  destruct (session_get s (page_url posts_url page)) as [html | e]; [| discriminate].
  destruct (is_login_page html); [discriminate |].
  injection H as ->. destruct es as [| e es]; [congruence |].
  rewrite Hm. apply Z.leb_le in Hle. rewrite Hle. reflexivity.
Qed.

Lemma scrape_loop_login fuel page acc :
  page_is_login s posts_url page ->
  loop (S fuel) page acc
  = ([EvGet (page_url posts_url page)], Some (Raise (session_expired page))).
Proof.
  intros (html & Eg & El). cbn [scrape_loop]. rewrite Eg, El. reflexivity.
Qed.

Lemma entries_of_pages_last n :
  entries (1 + Z.of_nat n) = Some [] -> pages 1 (S n) = pages 1 n.
Proof.
  intros H. unfold entries_of_pages. rewrite seqZ_S, fmap_app, concat_app.
  simpl. rewrite H. simpl. apply app_nil_r.
Qed.

Lemma entries_of_pages_full n es :
  entries (1 + Z.of_nat n) = Some es -> pages 1 (S n) = pages 1 n ++ es.
Proof.
  intros H. unfold entries_of_pages. rewrite seqZ_S, fmap_app, concat_app.
  simpl. rewrite H. simpl. rewrite app_nil_r. reflexivity.
Qed.

Lemma requests_app evs evs' : requests (evs ++ evs') = requests evs ++ requests evs'.
Proof. apply omap_app. Qed.

End ScrapeFacts.

Lemma page_url_scheme posts_url :
  page_url posts_url 1 = posts_url
  /\ forall n, 1 < n -> page_url posts_url n = posts_url ++ u "?page=" ++ str_of_Z n.
Proof.
  split; [reflexivity |]. intros n Hn. unfold page_url.
  destruct (n =? 1) eqn:E; [apply Z.eqb_eq in E; lia | reflexivity].
Qed.

Lemma makedirs_from_files todo :
  forall made fs, files (snd (makedirs_from made todo fs)) = files fs.
Proof.
  induction todo as [| c todo IH]; intros made fs; [reflexivity |].
  cbn [makedirs_from]. destruct (is_file fs (made ++ [c])); [reflexivity |].
  rewrite IH. reflexivity.
Qed.

(** ** Numbers in file names *)

Lemma digit_value_ascii n : (n < 10)%N -> digit_value (48 + n) = Some n.
Proof.
  intros H. unfold digit_value, digit_zeros. cbn [digit_in].
  assert ((48 <=? 48 + n)%N && (48 + n <? 48 + 10)%N = true) as ->.
  { apply andb_true_intro. split; [apply N.leb_le | apply N.ltb_lt]; lia. }
  f_equal. lia.
Qed.

Lemma int_dec_digits fuel :
  forall n, (n < 2 ^ N.of_nat fuel)%N -> int (dec_digits fuel n) = Z.of_N n.
Proof.
  induction fuel as [| fuel IH]; intros n Hn.
  - simpl in Hn. assert (n = 0%N) as -> by lia. reflexivity.
  - cbn [dec_digits]. destruct (n <? 10)%N eqn:E.
    + apply N.ltb_lt in E. unfold int. cbn [fold_left].
      rewrite digit_value_ascii by exact E. cbn. lia.
    + apply N.ltb_ge in E. rewrite int_snoc.
      rewrite digit_value_ascii by (apply N.mod_lt; lia). cbn [from_option].
      rewrite IH.
      * unfold Datatypes.id. pose proof (N.div_mod n 10). lia.
      * rewrite Nat2N.inj_succ, N.pow_succ_r' in Hn.
        apply N.Div0.div_lt_upper_bound; lia.
Qed.

Lemma int_str_of_N n : int (str_of_N n) = Z.of_N n.
Proof.
  apply int_dec_digits. rewrite Nat2N.inj_succ, N2Nat.id.
  destruct n as [| p]; [reflexivity |].
  apply N.log2_spec. reflexivity.
Qed.

Lemma int_zeros k s : int (replicate k 48%N ++ s) = int s.
Proof.
  unfold int. rewrite fold_left_app. f_equal.
  induction k as [| k IH]; [reflexivity |].
  change (replicate (S k) 48%N) with ([48%N] ++ replicate k 48%N).
  rewrite fold_left_app. exact IH.
Qed.

Lemma int_format_0d w z : 0 <= z -> int (format_0d w z) = z.
Proof.
  intros Hz. unfold format_0d.
  assert ((z <? 0) = false) as -> by (apply Z.ltb_ge; exact Hz).
  unfold zfill. rewrite int_zeros, int_str_of_N. lia.
Qed.

Lemma format_0d_inj w a b : 0 <= a -> 0 <= b -> format_0d w a = format_0d w b -> a = b.
Proof.
  intros Ha Hb H. rewrite <- (int_format_0d w a Ha), <- (int_format_0d w b Hb), H.
  reflexivity.
Qed.

Lemma day_file_inj root k k' :
  day_nonneg k -> day_nonneg k' -> day_file root k = day_file root k' -> k = k'.
Proof.
  destruct k as [[y m] d], k' as [[y' m'] d']. intros (Hy & Hm & Hd) (Hy' & Hm' & Hd').
  unfold day_file, day_dir, day_name. rewrite <- !app_assoc. intros H.
  apply app_inv_head in H. injection H as Ey Em En.
  apply format_0d_inj in Ey; auto. apply format_0d_inj in Em; auto. subst.
  repeat first [apply app_inv_head in En | injection En as En].
  apply app_inv_tail in En. apply format_0d_inj in En; auto. subst. reflexivity.
Qed.

Lemma parse_entry_datetime_parts_nonneg e y m d hm :
  parse_entry_datetime_parts e = Some (y, m, d, hm) -> day_nonneg (y, m, d).
Proof.
  unfold parse_entry_datetime_parts. intros H.
  destruct (tier1 e) as [r |] eqn:E1.
  - injection H as ->. apply tier1_inv in E1.
    destruct E1 as (y' & mo & d' & hm' & _ & [= -> -> -> ->]).
    repeat split; apply int_bound.
  - apply tier2_inv in H. destruct H as (mo & d' & y' & h & mi & _ & _ & [= -> -> -> ->]).
    repeat split; apply int_bound.
Qed.

(** ** The file system *)

Lemma bind_ok {A B : Type} (m : io A) (f : A -> io B) fs b fs' :
  bind m f fs = (Ok b, fs') ->
  exists a fs1, m fs = (Ok a, fs1) /\ f a fs1 = (Ok b, fs').
Proof. unfold bind. destruct (m fs) as [[a | e] fs1]; [eauto | discriminate]. Qed.

Lemma is_dir_true fs q : is_dir fs q = true <-> q = [] \/ q ∈ dirs fs.
Proof. unfold is_dir. apply bool_decide_eq_true. Qed.

Lemma is_file_true fs q : is_file fs q = true <-> is_Some (files fs !! q).
Proof. unfold is_file. apply bool_decide_eq_true. Qed.

Lemma prefix_removelast (q p : path) :
  q `prefix_of` p -> q <> p -> q `prefix_of` removelast p.
Proof.
  intros [k ->] Hne. destruct k as [| x k] using rev_ind.
  - rewrite app_nil_r in Hne. congruence.
  - rewrite app_assoc, removelast_last. exists k. reflexivity.
Qed.

Lemma makedirs_from_ok todo :
  forall made fs fs',
    makedirs_from made todo fs = (Ok tt, fs') ->
    files fs' = files fs
    /\ forall d, d ∈ dirs fs' <->
                 d ∈ dirs fs \/ exists t, t <> [] /\ t `prefix_of` todo /\ d = made ++ t.
Proof.
  induction todo as [| c todo IH]; intros made fs fs' H.
  - injection H as <-. split; [reflexivity |]. intros d. split; [auto |].
    intros [H | (t & Hne & Hp & _)]; [exact H |].
    apply prefix_nil_inv in Hp. congruence.
  - cbn [makedirs_from] in H. destruct (is_file fs (made ++ [c])); [discriminate |].
    apply IH in H. destruct H as [Hf Hd]. split; [exact Hf |].
    intros d. rewrite Hd. cbn [dirs]. rewrite elem_of_union, elem_of_singleton. split.
    + intros [[-> | H] | (t & Hne & Hp & ->)].
      * right. exists [c]. split; [discriminate |]. split; [| reflexivity].
        apply prefix_cons, prefix_nil.
      * auto.
      * right. exists (c :: t). split; [discriminate |].
        split; [apply prefix_cons, Hp |]. rewrite <- app_assoc. reflexivity.
    + intros [H | (t & Hne & Hp & ->)]; [auto |].
      destruct t as [| c' t]; [congruence |].
      pose proof (prefix_cons_inv_1 _ _ _ _ Hp) as ->.
      apply prefix_cons_inv_2 in Hp.
      destruct t as [| c'' t]; [left; left; reflexivity |].
      right. exists (c'' :: t). split; [discriminate |]. split; [exact Hp |].
      rewrite <- app_assoc. reflexivity.
Qed.

Lemma makedirs_ok p fs fs' :
  fs_wf fs -> makedirs p fs = (Ok tt, fs') ->
  fs_wf fs' /\ files fs' = files fs
  /\ (forall q, q `prefix_of` p -> is_dir fs' q = true)
  /\ (forall d, d ∈ dirs fs -> d ∈ dirs fs').
Proof.
  intros [W1 W2] H. apply makedirs_from_ok in H. destruct H as [Hf Hd]. cbn [app] in Hd.
  assert (Hkeep : forall q, is_dir fs q = true -> is_dir fs' q = true).
  { intros q Hq. apply is_dir_true in Hq. apply is_dir_true.
    destruct Hq as [-> | Hq]; [auto |]. right. apply Hd. auto. }
  assert (Hnew : forall q, q `prefix_of` p -> is_dir fs' q = true).
  { intros q Hq. apply is_dir_true. destruct q as [| c q]; [auto |].
    right. apply Hd. right. exists (c :: q). split; [discriminate | auto]. }
  split; [split |]; [| | split; [exact Hf | split; [exact Hnew |]]].
  - intros f q Hfile Hq Hne. rewrite Hf in Hfile. eauto.
  - intros d q Hdir Hq. apply Hd in Hdir. destruct Hdir as [Hdir | (t & _ & Ht & ->)].
    + eauto.
    + apply Hnew. etransitivity; eassumption.
  - intros d Hdir. apply Hd. auto.
Qed.

Lemma rmtree_ok p fs fs' :
  fs_wf fs -> rmtree p fs = (Ok tt, fs') ->
  fs_wf fs'
  /\ files fs' = filter (fun kv => ~ p `prefix_of` kv.1) (files fs)
  /\ forall d, d ∈ dirs fs' -> d ∈ dirs fs.
Proof.
  intros [W1 W2] H. unfold rmtree in H. destruct (is_dir fs p); [| discriminate].
  destruct p as [| c0 p0]; [discriminate |]. set (p := c0 :: p0) in *.
  cbv zeta in H. injection H as <-. cbn [files dirs].
  assert (Hkeep : forall q r, q `prefix_of` r -> ~ p `prefix_of` r -> is_dir fs q = true ->
                  is_dir {| files := filter (fun kv => ~ p `prefix_of` kv.1) (files fs);
                            dirs := filter (fun d => ~ p `prefix_of` d) (dirs fs) |} q = true).
  { intros q r Hq Hr Hd. apply is_dir_true in Hd. apply is_dir_true. cbn [dirs].
    destruct Hd as [-> | Hd]; [auto |]. right. apply elem_of_filter. split; [| exact Hd].
    intros Hp. apply Hr. etransitivity; eassumption. }
  split; [split |]; [| | split; [reflexivity |]].
  - intros f q [c Hfile] Hq Hne. cbn [files] in Hfile.
    apply map_lookup_filter_Some in Hfile. destruct Hfile as [Hfile Hf].
    apply (Hkeep q f); eauto.
  - intros d q Hdir Hq. cbn [dirs] in Hdir. apply elem_of_filter in Hdir.
    destruct Hdir as [Hd Hdir]. apply (Hkeep q d); eauto.
  - intros d Hd. apply elem_of_filter in Hd. apply Hd.
Qed.

Lemma write_file_ok p c fs fs' :
  fs_wf fs -> write_file p c fs = (Ok tt, fs') ->
  fs_wf fs' /\ files fs' = <[p := c]> (files fs) /\ dirs fs' = dirs fs.
Proof.
  intros [W1 W2] H. unfold write_file in H.
  destruct (is_dir fs p); [discriminate |].
  destruct (is_dir fs (removelast p)) eqn:Ep; [| discriminate].
  cbn [negb] in H. destruct (content_ok c); [| discriminate].
  injection H as <-. cbn [files dirs]. split; [split |]; [| | auto].
  - intros f q [c' Hfile] Hq Hne. cbn [files] in Hfile.
    change (is_dir fs q = true).
    destruct (decide (f = p)) as [-> | Hfp].
    + pose proof (prefix_removelast _ _ Hq Hne) as Hq'.
      apply is_dir_true in Ep. destruct Ep as [Ep | Ep].
      * rewrite Ep in Hq'. apply prefix_nil_inv in Hq'. subst. reflexivity.
      * eauto.
    + rewrite lookup_insert_ne in Hfile by congruence. eauto.
  - intros d q Hdir Hq. change (is_dir fs q = true). eauto.
Qed.

Lemma write_days_ok root days :
  forall c fs c' fs',
    fs_wf fs -> write_days root days c fs = (Ok c', fs') ->
    c' = c + Z.of_nat (length days) /\ fs_wf fs'
    /\ files fs' = foldl (put_day root) (files fs) days.
Proof.
  induction days as [| [k raw] days IH]; intros c fs c' fs' W H.
  - injection H as <- <-. cbn. split; [lia | auto].
  - cbn [write_days] in H.
    apply bind_ok in H. destruct H as ([] & fs1 & H1 & H).
    apply bind_ok in H. destruct H as ([] & fs2 & H2 & H).
    apply makedirs_ok in H1; [| exact W]. destruct H1 as (W1 & F1 & _).
    apply write_file_ok in H2; [| exact W1]. destruct H2 as (W2 & F2 & _).
    apply IH in H; [| exact W2]. destruct H as (-> & W' & F').
    split; [cbn [length]; lia |]. split; [exact W' |].
    rewrite F', F2, F1. reflexivity.
Qed.

Lemma foldl_put_day_other root days :
  forall m p,
    (forall g, g ∈ days -> day_file root (fst g) <> p) ->
    foldl (put_day root) m days !! p = m !! p.
Proof.
  induction days as [| g days IH]; intros m p H; [reflexivity |].
  cbn [foldl]. rewrite IH by (intros g' Hg'; apply H; right; exact Hg').
  unfold put_day. apply lookup_insert_ne, H. left.
Qed.

Lemma foldl_put_day_this root days :
  forall m g,
    NoDup (day_file root <$> days.*1) -> g ∈ days ->
    foldl (put_day root) m days !! day_file root (fst g)
    = Some (TextFile (day_text (fst g) (sort_by str_leb fst (snd g)))).
Proof.
  induction days as [| g0 days IH]; intros m g Hnd Hg; [inversion Hg |].
  cbn [fmap list_fmap] in Hnd. apply NoDup_cons in Hnd. destruct Hnd as [Hfirst Hnd].
  cbn [foldl]. apply elem_of_cons in Hg. destruct Hg as [-> | Hg].
  - rewrite foldl_put_day_other.
    + unfold put_day. apply lookup_insert_eq.
    + intros g' Hg' E. apply Hfirst. rewrite <- E.
      apply list_elem_of_fmap. exists (fst g'). split; [reflexivity |].
      apply list_elem_of_fmap. exists g'. auto.
  - apply IH; assumption.
Qed.

(** ** The Markdown tree *)

Lemma day_file_under root k : root `prefix_of` day_file root k.
Proof.
  destruct k as [[y m] d]. unfold day_file, day_dir. rewrite <- app_assoc.
  eexists. reflexivity.
Qed.

Lemma group_by_day_nonneg entries k raw :
  (k, raw) ∈ group_by_day entries -> day_nonneg k.
Proof.
  intros H. apply group_by_day_items in H. destruct H as [-> H].
  apply items_of_day_nonempty in H.
  destruct H as (e & hm & _ & y & m & d & -> & H).
  eapply parse_entry_datetime_parts_nonneg, H.
Qed.

Lemma sorted_days_paths_NoDup entries root :
  NoDup (day_file root <$> (sort_by day_key_leb fst (group_by_day entries)).*1).
Proof.
  rewrite (sort_by_perm day_key_leb fst).
  apply NoDup_fmap_2_strong; [| apply group_by_day_NoDup].
  intros k k' Hk Hk' E.
  apply list_elem_of_fmap in Hk, Hk'.
  destruct Hk as ([k1 raw] & -> & Hk), Hk' as ([k2 raw'] & -> & Hk').
  eapply day_file_inj; eauto using group_by_day_nonneg.
Qed.

Lemma day_groups_of_sorted entries k raw :
  (k, raw) ∈ sort_by day_key_leb fst (group_by_day entries) ->
  (k, sort_by str_leb fst raw) ∈ day_groups entries.
Proof.
  intros H. unfold day_groups. apply list_elem_of_fmap. exists (k, raw). auto.
Qed.

(** What a successful [write_split_markdown] leaves behind. *)
Lemma write_split_markdown_files entries root fs c fs' :
  fs_wf fs -> write_split_markdown entries root fs = (Ok c, fs') ->
  fs_wf fs'
  /\ c = Z.of_nat (length (day_groups entries))
  /\ (forall k items, (k, items) ∈ day_groups entries ->
                      files fs' !! day_file root k = Some (TextFile (day_text k items)))
  /\ (forall p, root `prefix_of` p -> is_Some (files fs' !! p) ->
                exists k items, (k, items) ∈ day_groups entries /\ p = day_file root k)
  /\ (forall p, ~ root `prefix_of` p -> files fs' !! p = files fs !! p).
Proof.
  intros W H. unfold write_split_markdown in H.
  apply bind_ok in H. destruct H as (there & fs0 & H0 & H).
  unfold path_exists in H0. injection H0 as <- <-.
  apply bind_ok in H. destruct H as ([] & fs1 & H1 & H).
  apply bind_ok in H. destruct H as ([] & fs2 & H2 & H).
  assert (W1 : fs_wf fs1
               /\ files fs1 = filter (fun kv => ~ root `prefix_of` kv.1) (files fs)).
  { destruct (is_dir fs root || is_file fs root) eqn:E.
    - apply rmtree_ok in H1; [| exact W]. destruct H1 as (? & ? & _). auto.
    - injection H1 as <-. split; [exact W |]. symmetry. apply map_filter_id.
      intros p x Hp Hroot. cbn [fst] in Hroot.
      apply orb_false_elim in E. destruct E as [Ed Ef].
      destruct (decide (root = p)) as [-> | Hne].
      + assert (is_file fs p = true) by (apply is_file_true; eauto). congruence.
      + destruct W as [W _]. rewrite (W p root) in Ed; eauto. discriminate. }
  destruct W1 as [W1 F1].
  apply makedirs_ok in H2; [| exact W1]. destruct H2 as (W2 & F2 & _).
  apply write_days_ok in H; [| exact W2]. destruct H as (-> & W' & F').
  rewrite F2, F1 in F'.
  split; [exact W' |]. split; [| split; [| split]].
  - unfold day_groups. rewrite length_fmap. lia.
  - intros k items Hk. unfold day_groups in Hk. apply list_elem_of_fmap in Hk.
    destruct Hk as ([k' raw] & [= -> ->] & Hk). rewrite F'.
    apply (foldl_put_day_this root _ _ (k', raw)); [apply sorted_days_paths_NoDup | exact Hk].
  - intros p Hp [x Hx]. rewrite F' in Hx.
    destruct (decide (Exists (fun g : day_key * list (str * Entry) => day_file root (fst g) = p)
                             (sort_by day_key_leb fst (group_by_day entries)))) as [Hyes | Hno].
    + apply Exists_exists in Hyes. destruct Hyes as ([k raw] & Hg & <-).
      exists k, (sort_by str_leb fst raw). split; [| reflexivity].
      apply day_groups_of_sorted, Hg.
    + rewrite foldl_put_day_other in Hx
        by (intros g Hg E; apply Hno, Exists_exists; eauto).
      apply map_lookup_filter_Some in Hx. destruct Hx as [_ Hx]. exfalso. apply Hx, Hp.
  - intros p Hp. rewrite F'. rewrite foldl_put_day_other.
    + destruct (files fs !! p) as [x |] eqn:E.
      * apply map_lookup_filter_Some. auto.
      * apply map_lookup_filter_None. left. exact E.
    + intros g _ E. apply Hp. rewrite <- E. apply day_file_under.
Qed.

(** * The date resolver *)

(** C2. Date resolution is a fallback of two tiers. A [datetime_local] of
    the shape [YYYY-MM-DD HH:MM] is read as it stands, whatever the two
    labels say. Otherwise the result is made of the date
    [<month>月<day>日<year>] that starts first in [date_label] and of the
    time [HH:MM] that starts first in [time_label], the hour and the minute
    written with their two decimal digits; there are such a date and such
    a time whenever the labels contain one. When neither tier applies the
    result is [None]. *)
Theorem parse_entry_datetime_parts_two_tiers (e : Entry) :
  (forall y mo d hm,
      strict_datetime (datetime_local e) y mo d hm ->
      parse_entry_datetime_parts e = Some (int y, int mo, int d, hm))
  /\ (~ matches_strict (datetime_local e) ->
      forall mo d y h mi,
        first_date (date_label e) mo d y -> first_time (time_label e) h mi ->
        parse_entry_datetime_parts e
        = Some (int y, int mo, int d, two_digits (int h) ++ [58%N] ++ two_digits (int mi)))
  /\ (~ matches_strict (datetime_local e) ->
      contains_date (date_label e) -> contains_time (time_label e) ->
      exists mo d y h mi,
        first_date (date_label e) mo d y /\ first_time (time_label e) h mi
        /\ parse_entry_datetime_parts e
           = Some (int y, int mo, int d,
                   two_digits (int h) ++ [58%N] ++ two_digits (int mi)))
  /\ (~ matches_strict (datetime_local e) ->
      ~ (contains_date (date_label e) /\ contains_time (time_label e)) ->
      parse_entry_datetime_parts e = None).
Proof.
  unfold parse_entry_datetime_parts. split; [| split; [| split]].
  - intros y mo d hm H. rewrite (tier1_strict _ _ _ _ _ H). reflexivity.
  - intros H1 mo d y h mi Hd Ht. rewrite (tier1_none _ H1). apply tier2_first; assumption.
  - intros H1 Hd Ht. rewrite (tier1_none _ H1).
    destruct (contains_first_date _ Hd) as (mo & d & y & Hfd).
    destruct (contains_first_time _ Ht) as (h & mi & Hft).
    exists mo, d, y, h, mi. split; [exact Hfd |]. split; [exact Hft |].
    apply tier2_first; assumption.
  - intros H1 H2. rewrite (tier1_none _ H1). apply tier2_none, H2.
Qed.

(** C10. A [datetime_local] that is not empty and has not the shape of
    the first tier does not end the resolution: the result is that of
    the second tier, which resolves whenever the two labels contain a
    date and a time. *)
Theorem parse_entry_datetime_parts_falls_through (e : Entry) :
  datetime_local e <> [] ->
  ~ matches_strict (datetime_local e) ->
  parse_entry_datetime_parts e = tier2 e
  /\ (contains_date (date_label e) -> contains_time (time_label e) ->
      exists mo d y h mi,
        date_occurs (date_label e) mo d y /\ time_occurs (time_label e) h mi
        /\ parse_entry_datetime_parts e = Some (tier2_value mo d y h mi)).
Proof.
  intros _ H1. unfold parse_entry_datetime_parts. rewrite (tier1_none _ H1).
  split; [reflexivity |]. intros Hd Ht. apply tier2_some; assumption.
Qed.

Lemma not_strict_by_run s : re_match datetime_local_re s = None -> ~ matches_strict s.
Proof. intros E H. apply matches_strict_iff in H. rewrite E in H. destruct H. discriminate. Qed.

Lemma contains_date_by_run s r : re_search date_label_re s = Some r -> contains_date s.
Proof. intros E. apply contains_date_iff. eauto. Qed.

Lemma contains_time_by_run s r : re_search time_label_re s = Some r -> contains_time s.
Proof. intros E. apply contains_time_iff. eauto. Qed.

Lemma no_date_by_run s : re_search date_label_re s = None -> ~ contains_date s.
Proof. intros E H. apply contains_date_iff in H. rewrite E in H. destruct H. discriminate. Qed.

Lemma strict_datetime_ex :
  strict_datetime (u "2026-03-05 08:30") (u "2026") (u "03") (u "05") (u "08:30").
Proof.
  exists (u " "), (u "08"), (u "30"), []. unfold digits, spaces.
  repeat split; try reflexivity; try discriminate. left. reflexivity.
Qed.

Lemma parse_entry_datetime_parts_two_tiers_witness :
  parse_entry_datetime_parts
    (entry_of_labels (u "1月1日1999") (u "2026-03-05 08:30") (u "7:05"))
  = Some (2026, 3, 5, u "08:30")
  /\ parse_entry_datetime_parts (entry_of_labels (u "3月5日2026") (u "5 Mar") (u "8:30"))
     = Some (2026, 3, 5, u "08:30")
  /\ parse_entry_datetime_parts (entry_of_labels (u "12月25日2025") [] (u "12:30"))
     = Some (2025, 12, 25, u "12:30")
  /\ parse_entry_datetime_parts (entry_of_labels (u "3月5日") (u "5 Mar") (u "8:30")) = None.
Proof.
  split; [| split; [| split]].
  - apply (proj1 (parse_entry_datetime_parts_two_tiers
                    (entry_of_labels (u "1月1日1999") (u "2026-03-05 08:30") (u "7:05")))
                 (u "2026") (u "03") (u "05") (u "08:30")).
    exact strict_datetime_ex.
  - refine (proj1 (proj2 (parse_entry_datetime_parts_two_tiers
                    (entry_of_labels (u "3月5日2026") (u "5 Mar") (u "8:30"))))
              _ (u "3") (u "5") (u "2026") (u "8") (u "30") _ _).
    + apply not_strict_by_run. vm_compute. reflexivity.
    + apply first_date_by_run. vm_compute. reflexivity.
    + apply first_time_by_run. vm_compute. reflexivity.
  - refine (proj1 (proj2 (parse_entry_datetime_parts_two_tiers
                    (entry_of_labels (u "12月25日2025") [] (u "12:30"))))
              _ (u "12") (u "25") (u "2025") (u "12") (u "30") _ _).
    + apply not_strict_by_run. vm_compute. reflexivity.
    + apply first_date_by_run. vm_compute. reflexivity.
    + apply first_time_by_run. vm_compute. reflexivity.
  - apply (proj2 (proj2 (proj2 (parse_entry_datetime_parts_two_tiers
                    (entry_of_labels (u "3月5日") (u "5 Mar") (u "8:30")))))).
    + apply not_strict_by_run. reflexivity.
    + intros [H _]. revert H. apply no_date_by_run. reflexivity.
Defined.

Lemma parse_entry_datetime_parts_falls_through_witness :
  parse_entry_datetime_parts (entry_of_labels (u "3月5日2026") (u "5 Mar") (u "8:30"))
  = tier2 (entry_of_labels (u "3月5日2026") (u "5 Mar") (u "8:30")).
Proof.
  refine (proj1 (parse_entry_datetime_parts_falls_through
           (entry_of_labels (u "3月5日2026") (u "5 Mar") (u "8:30")) _ _)).
  - discriminate.
  - apply not_strict_by_run. reflexivity.
Defined.

(** * The page extractor *)

(** C7. The text of every extracted entry is normal: every line is
    right-trimmed, no two blank lines follow each other, and there is no
    blank line at its start or at its end. *)
Theorem extracted_text_normalized
    (html_parser : str -> node) (urljoin : str -> str -> str) (html : str) (e : Entry) :
  e ∈ extract_entries_from_page html_parser urljoin html ->
  normalized (text e).
Proof.
  revert e. apply Forall_forall, extract_entries_Forall.
  intros current_date li a _. unfold entry_of_item. cbn [text].
  destruct (select_one sel_comment li) as [c |]; [| exact empty_normalized].
  unfold html_to_text_with_breaks. apply normalize_text_normalized.
Qed.

(** C8. The id of every extracted entry is not empty. The detail link it
    comes from has a [href] that starts with [/a/]; the id is a segment
    [<id>] of letters and digits that follows an [/a/] in the [href] when
    there is one, and the whole [href] when there is none. *)
Theorem extracted_id_nonempty
    (html_parser : str -> node) (urljoin : str -> str -> str) (html : str) (e : Entry) :
  e ∈ extract_entries_from_page html_parser urljoin html ->
  id e <> []
  /\ exists href,
       starts_with (u "/a/") href = true
       /\ source_url e = urljoin BASE href
       /\ ((exists seg, id_occurs href seg /\ id e = seg)
           \/ ((forall seg, ~ id_occurs href seg) /\ id e = href)).
Proof.
  revert e. apply Forall_forall, extract_entries_Forall.
  intros current_date li a Ha. unfold entry_of_item. cbn [id source_url].
  destruct (select_meta_time_a_href li a Ha) as (href & -> & Hp).
  split; [apply entry_id_of_href_nonempty, Hp |].
  exists href. split; [exact Hp |]. split; [reflexivity |].
  apply entry_id_of_href_cases.
Qed.

Example messy_first_text :
  text Fixture.messy_first = u "one" ++ [10; 10]%N ++ u " two" ++ [10]%N ++ u "three".
Proof. reflexivity. Qed.

Example messy_ids : id Fixture.messy_first = u "a1" /\ id Fixture.messy_second = u "/a/".
Proof. split; reflexivity. Qed.

Lemma extracted_text_normalized_witness : normalized (text Fixture.messy_first).
Proof.
  apply (extracted_text_normalized Fixture.messy_parser Fixture.concat_url (u "messy")).
  vm_compute. apply list_elem_of_here.
Defined.

Lemma extracted_id_nonempty_witness :
  id Fixture.messy_second <> []
  /\ exists href,
       starts_with (u "/a/") href = true
       /\ source_url Fixture.messy_second = Fixture.concat_url BASE href
       /\ ((exists seg, id_occurs href seg /\ id Fixture.messy_second = seg)
           \/ ((forall seg, ~ id_occurs href seg) /\ id Fixture.messy_second = href)).
Proof.
  apply (extracted_id_nonempty Fixture.messy_parser Fixture.concat_url (u "messy")).
  vm_compute. apply list_elem_of_further, list_elem_of_here.
Defined.

(** * The aggregator *)

(** C1. The records a run returns are those of the pages it has read,
    without repeated ids: every id of a record read is the id of exactly
    one record returned, the records returned are a subsequence of the
    records read, page after page, and each of them is the first record
    read with its id. *)
Theorem scrape_all_keeps_first_of_each_id
    (html_parser : str -> node) (urljoin : str -> str -> str) (s : session)
    (posts_url : str) (max_pages : option Z) (fuel : nat)
    (evs : list event) (out : list Entry) :
  scrape_all html_parser urljoin s posts_url max_pages fuel = (evs, Some (Ok out)) ->
  exists n,
    (forall p, 1 <= p < 1 + Z.of_nat n ->
               is_Some (page_entries html_parser urljoin s posts_url p))
    /\ let all_entries := entries_of_pages html_parser urljoin s posts_url 1 n in
       out = dedup_entries all_entries
       /\ NoDup (id <$> out)
       /\ (forall e, e ∈ all_entries -> id e ∈ id <$> out)
       /\ out `sublist_of` all_entries
       /\ (forall e, e ∈ out -> first_with_id all_entries e).
Proof.
  unfold scrape_all.
  destruct (scrape_loop html_parser urljoin s posts_url max_pages fuel 1 [])
    as [evs' [[res | e] |]] eqn:E; try discriminate.
  intros [= _ <-]. apply scrape_loop_returns in E. destruct E as (n & -> & Hn).
  exists n. split; [exact Hn |]. cbn [app]. unfold dedup_entries.
  split; [reflexivity |]. split; [apply dedup_loop_NoDup |].
  split; [| split; [apply dedup_loop_sublist | apply dedup_loop_first]].
  intros e He. destruct (dedup_loop_complete _ ∅ e He) as [H | H]; [set_solver | exact H].
Qed.

(** C5. Pages are asked for in order, page 1 at the address of the list
    and page [n > 1] at that address followed by [?page=<n>]. When the
    pages before page [k] have records and [max_pages] is not reached on
    them, a run with enough fuel ends without an error on page [k] if that
    page has no record, or has records and reaches [max_pages]; nothing
    is asked for after page [k]. *)
Theorem scrape_all_pages_in_order
    (html_parser : str -> node) (urljoin : str -> str -> str) (s : session)
    (posts_url : str) (max_pages : option Z) (n fuel : nat) :
  (S n <= fuel)%nat ->
  (forall p, 1 <= p < 1 + Z.of_nat n ->
             page_full html_parser urljoin s posts_url p /\ goes_on max_pages p) ->
  (page_entries html_parser urljoin s posts_url (1 + Z.of_nat n) = Some []
   \/ (page_full html_parser urljoin s posts_url (1 + Z.of_nat n)
       /\ exists m, max_pages = Some m /\ m <= 1 + Z.of_nat n)) ->
  (exists evs,
      scrape_all html_parser urljoin s posts_url max_pages fuel
      = (evs, Some (Ok (dedup_entries
                          (entries_of_pages html_parser urljoin s posts_url 1 (S n)))))
      /\ requests evs = page_url posts_url <$> seqZ 1 (Z.of_nat (S n)))
  /\ page_url posts_url 1 = posts_url
  /\ (forall p, 1 < p -> page_url posts_url p = posts_url ++ u "?page=" ++ str_of_Z p).
Proof.
  intros Hfuel Hpages Hlast. split; [| apply page_url_scheme].
  destruct (scrape_loop_goes_on html_parser urljoin s posts_url max_pages n
              (fuel - n) 1 [] Hpages) as (evs & Hreq & Hrun).
  replace (n + (fuel - n))%nat with fuel in Hrun by lia.
  destruct (fuel - n)%nat as [| fuel'] eqn:Ef; [lia |].
  unfold scrape_all. rewrite Hrun. cbn [app].
  destruct Hlast as [Hempty | [(es & Hes & Hne) (m & Hm & Hle)]].
  - rewrite (scrape_loop_empty _ _ _ _ _ _ _ _ Hempty).
    exists (evs ++ [EvGet (page_url posts_url (1 + Z.of_nat n))]). split.
    + rewrite (entries_of_pages_last _ _ _ _ _ Hempty). reflexivity.
    + rewrite requests_app, Hreq, seqZ_S, fmap_app. reflexivity.
  - rewrite (scrape_loop_max _ _ _ _ _ _ _ _ _ _ Hes Hne Hm Hle).
    eexists. split.
    + rewrite (entries_of_pages_full _ _ _ _ _ _ Hes). reflexivity.
    + rewrite requests_app, Hreq, seqZ_S, fmap_app. reflexivity.
Qed.

(** C4. When the pages before page [p] have records and page [p] comes
    back as the login page, the run stops there with the error that names
    page [p], nothing is asked for after page [p], and [main] ends with
    status 1 without having written a file. *)
Theorem login_page_aborts_before_output
    (html_parser : str -> node) (urljoin : str -> str -> str) (s : session)
    (o : options) (n fuel : nat) :
  let posts_url := build_posts_url (target_user o) in
  let page := 1 + Z.of_nat n in
  (S n <= fuel)%nat ->
  (forall p, 1 <= p < page ->
             page_full html_parser urljoin s posts_url p /\ goes_on (max_pages o) p) ->
  page_is_login s posts_url page ->
  (exists evs,
      scrape_all html_parser urljoin s posts_url (max_pages o) fuel
      = (evs, Some (Raise (session_expired page)))
      /\ requests evs = page_url posts_url <$> seqZ 1 (Z.of_nat (S n)))
  /\ exn_str (session_expired page)
     = u "抓取到第 " ++ str_of_Z page ++ u " 页时会话失效，请重新运行"
  /\ (forall fs fs1,
         login html_parser s (username o) (password o) (target_user o) = Ok tt ->
         makedirs (output_dir o) fs = (Ok tt, fs1) ->
         export_main html_parser urljoin s o fuel fs
         = Some (Ok (1, u "导出失败：" ++ exn_str (session_expired page)), fs1)
         /\ files fs1 = files fs).
Proof.
  intros posts_url page Hfuel Hpages Hlogin.
  destruct (scrape_loop_goes_on html_parser urljoin s posts_url (max_pages o) n
              (fuel - n) 1 [] Hpages) as (evs & Hreq & Hrun).
  replace (n + (fuel - n))%nat with fuel in Hrun by lia.
  destruct (fuel - n)%nat as [| fuel'] eqn:Ef; [lia |].
  rewrite (scrape_loop_login _ _ _ _ _ _ _ _ Hlogin) in Hrun.
  assert (Hall : scrape_all html_parser urljoin s posts_url (max_pages o) fuel
                 = (evs ++ [EvGet (page_url posts_url page)],
                    Some (Raise (session_expired page)))).
  { unfold scrape_all. rewrite Hrun. reflexivity. }
  split; [| split].
  - eexists. split; [exact Hall |].
    rewrite requests_app, Hreq, seqZ_S, fmap_app. reflexivity.
  - reflexivity.
  - intros fs fs1 Hl Hmk. split.
    + unfold export_main, try_export. rewrite Hmk, Hl.
      fold posts_url. rewrite Hall. reflexivity.
    + pose proof (makedirs_from_files (output_dir o) [] fs) as H.
      unfold makedirs in Hmk. rewrite Hmk in H. exact H.
Qed.

Example overlap_ids : id <$> Fixture.overlap_out = [u "a1"; u "a2"; u "a3"].
Proof. reflexivity. Qed.

Lemma scrape_all_keeps_first_of_each_id_witness :
  NoDup (id <$> Fixture.overlap_out)
  /\ exists n,
       Fixture.overlap_out
       = dedup_entries (entries_of_pages Fixture.overlap_parser Fixture.concat_url
                          Fixture.overlap_site Fixture.posts 1 n).
Proof.
  destruct (scrape_all_keeps_first_of_each_id
              Fixture.overlap_parser Fixture.concat_url Fixture.overlap_site
              Fixture.posts None 5 Fixture.overlap_events Fixture.overlap_out)
    as (n & _ & Hout & Hnodup & _).
  - vm_compute. reflexivity.
  - split; [exact Hnodup | exists n; exact Hout].
Defined.

Lemma scrape_all_pages_in_order_witness :
  exists evs,
    scrape_all Fixture.overlap_parser Fixture.concat_url Fixture.overlap_site
               Fixture.posts None 3
    = (evs, Some (Ok (dedup_entries
                        (entries_of_pages Fixture.overlap_parser Fixture.concat_url
                           Fixture.overlap_site Fixture.posts 1 3))))
    /\ requests evs
       = [Fixture.posts; Fixture.posts ++ u "?page=2"; Fixture.posts ++ u "?page=3"].
Proof.
  destruct (scrape_all_pages_in_order
              Fixture.overlap_parser Fixture.concat_url Fixture.overlap_site
              Fixture.posts None 2 3) as [(evs & Hrun & Hreq) _].
  - lia.
  - intros p Hp. assert (p = 1 \/ p = 2) as [-> | ->] by lia;
      (split; [eexists; split; [vm_compute; reflexivity | discriminate]
              | intros m Hm; discriminate Hm]).
  - left. vm_compute. reflexivity.
  - exists evs. split; [exact Hrun | exact Hreq].
Defined.

Lemma login_page_aborts_before_output_witness :
  export_main Fixture.expired_parser Fixture.concat_url Fixture.expired_site
              Fixture.my_options 3 Fixture.empty_fs
  = Some (Ok (1, u "导出失败：抓取到第 3 页时会话失效，请重新运行"),
          {| files := ∅; dirs := {[ [u "export"] ]} ∪ ∅ |}).
Proof.
  destruct (login_page_aborts_before_output
              Fixture.expired_parser Fixture.concat_url Fixture.expired_site
              Fixture.my_options 2 3) as (_ & _ & H).
  - lia.
  - intros p Hp. assert (p = 1 \/ p = 2) as [-> | ->] by lia;
      (split; [eexists; split; [vm_compute; reflexivity | discriminate]
              | intros m Hm; discriminate Hm]).
  - eexists. split; vm_compute; reflexivity.
  - destruct (H Fixture.empty_fs {| files := ∅; dirs := {[ [u "export"] ]} ∪ ∅ |})
      as [E _]; [vm_compute; reflexivity | vm_compute; reflexivity |].
    rewrite E. vm_compute. reflexivity.
Defined.

(** ** Tidy text *)

Lemma spaced_app_r a b : spaced (a ++ b) -> spaced b.
Proof. induction a as [| c a IH]; simpl; [auto | intros [_ H]; auto]. Qed.

Lemma spaced_app_l a b : spaced (a ++ b) -> spaced a.
Proof.
  induction a as [| c a IH]; simpl; [auto |]. intros [Hc H]. split; [| auto].
  intros Hs. destruct (Hc Hs) as [-> Hn]. split; [reflexivity |].
  destruct a; simpl in *; auto.
Qed.

Lemma collapse_spaces_spaced s :
  forall b, spaced (collapse_spaces b s)
            /\ (b = true -> starts_dark (collapse_spaces b s)).
Proof.
  induction s as [| c s IH]; intros b; simpl; [auto |].
  destruct (is_space c) eqn:E.
  - destruct b.
    + apply IH.
    + split; [| discriminate]. simpl. destruct (IH true) as [Hs Hd]. split; [| exact Hs].
      intros _. split; [reflexivity |]. specialize (Hd eq_refl).
      destruct (collapse_spaces true s); simpl in *; auto.
  - split.
    + simpl. split; [congruence | apply IH].
    + intros _. simpl. exact E.
Qed.

Lemma lstrip_starts_dark s : starts_dark (lstrip s).
Proof.
  induction s as [| c s IH]; simpl; [exact I |].
  destruct (is_space c) eqn:E; [exact IH | simpl; exact E].
Qed.

Lemma rstrip_ends_dark s : ends_dark (rstrip s).
Proof.
  pose proof (rstrip_right_trimmed s) as H. apply right_trimmed_iff in H.
  unfold ends_dark. destruct H as [-> | (l & c & -> & E)]; [exact I |].
  rewrite last_snoc. exact E.
Qed.

Lemma rstrip_starts_dark s : starts_dark s -> starts_dark (rstrip s).
Proof.
  intros H. destruct (rstrip_prefix s) as [t Ht].
  destruct (rstrip s) as [| c r]; [exact I |].
  rewrite Ht in H. exact H.
Qed.

Lemma strip_tidy s : spaced s -> tidy (strip s).
Proof.
  intros H. unfold strip.
  destruct (lstrip_suffix s) as [a Ha]. rewrite Ha in H. apply spaced_app_r in H.
  destruct (rstrip_prefix (lstrip s)) as [b Hb]. rewrite Hb in H. apply spaced_app_l in H.
  split; [exact H |]. split; [apply rstrip_starts_dark, lstrip_starts_dark |].
  apply rstrip_ends_dark.
Qed.

Lemma clean_text_tidy s : tidy (clean_text s).
Proof. unfold clean_text. apply strip_tidy, collapse_spaces_spaced. Qed.

Lemma lstrip_dark s : starts_dark s -> lstrip s = s.
Proof. destruct s as [| c s]; simpl; [auto |]. intros ->. reflexivity. Qed.

Lemma rstrip_dark s : ends_dark s -> rstrip s = s.
Proof.
  intros H. apply right_trimmed_iff. unfold ends_dark in H.
  destruct s as [| c s] using rev_ind; [auto |]. right.
  rewrite last_snoc in H. eauto.
Qed.

Lemma collapse_spaces_id s :
  forall b, spaced s -> (b = true -> starts_dark s) -> collapse_spaces b s = s.
Proof.
  induction s as [| c s IH]; intros b Hs Hb; [reflexivity |].
  simpl in *. destruct Hs as [Hc Hs]. destruct (is_space c) eqn:E.
  - destruct b; [specialize (Hb eq_refl); congruence |].
    destruct (Hc eq_refl) as [-> Hn]. f_equal. apply IH; [exact Hs |].
    intros _. destruct s; simpl; auto.
  - f_equal. apply IH; [exact Hs | discriminate].
Qed.

Lemma replace_char_absent old new s : Forall (fun c => c <> old) s -> replace_char old new s = s.
Proof.
  induction 1 as [| c s Hc _ IH]; [reflexivity |].
  unfold replace_char in *. simpl. apply N.eqb_neq in Hc. rewrite Hc, IH. reflexivity.
Qed.

Lemma spaced_no_nbsp s : spaced s -> Forall (fun c => c <> 0xa0%N) s.
Proof.
  induction s as [| c s IH]; simpl; [constructor |]. intros [Hc Hs].
  constructor; [| auto]. intros ->. destruct (Hc eq_refl) as [? _]. discriminate.
Qed.

Lemma clean_text_of_tidy s : tidy s -> clean_text s = s.
Proof.
  intros (Hs & Hd & He). unfold clean_text, strip.
  rewrite replace_char_absent by (apply spaced_no_nbsp, Hs).
  rewrite collapse_spaces_id by (auto; discriminate).
  rewrite lstrip_dark by exact Hd. apply rstrip_dark, He.
Qed.

(** X1. [clean_text] gives tidy text: its white space is the plain space,
    never twice in a row, and neither at the start nor at the end. *)
Theorem clean_text_is_tidy (s : str) : tidy (clean_text s).
Proof. apply clean_text_tidy. Qed.

(** X2. [clean_text] changes nothing when applied a second time. *)
Theorem clean_text_idempotent (s : str) : clean_text (clean_text s) = clean_text s.
Proof. apply clean_text_of_tidy, clean_text_tidy. Qed.

(** ** Items and entries *)

Section ItemFacts.

Variable html_parser : str -> node.
Variable urljoin : str -> str -> str.

Lemma label_after_cons label li items :
  label_after label (li :: items)
  = label_after (if is_day_cut li then heading_text li else label) items.
Proof.
  unfold label_after. cbn [List.filter]. destruct (is_day_cut li); [| reflexivity].
  rewrite last_cons. destruct (last (List.filter is_day_cut items)); reflexivity.
Qed.

Lemma extract_step_fold items :
  forall label acc,
    fold_left (extract_step urljoin) items (label, acc)
    = (label_after label items, acc ++ entries_of_items urljoin label items).
Proof.
  induction items as [| li items IH]; intros label acc.
  - simpl. rewrite app_nil_r. reflexivity.
  - cbn [fold_left]. rewrite label_after_cons. cbn [entries_of_items].
    unfold extract_step at 2, detail_link. fold (is_day_cut li).
    destruct (is_day_cut li) eqn:Ed.
    + rewrite IH. reflexivity.
    + destruct (has_class (u "diary") (fst li)); cbn [negb].
      * destruct (select_one sel_meta_time_a li) as [a |].
        -- rewrite IH, <- app_assoc. reflexivity.
        -- apply IH.
      * apply IH.
Qed.

Lemma extract_entries_items html :
  extract_entries_from_page html_parser urljoin html
  = entries_of_items urljoin [] (page_items (html_parser html)).
Proof.
  unfold extract_entries_from_page, page_items.
  destruct (select_one sel_posts_list (html_parser html, [])) as [posts_list |];
    [| reflexivity].
  rewrite extract_step_fold. reflexivity.
Qed.

Lemma omap_seq_S {B : Type} (f : nat -> option B) n :
  forall j, omap f (seq (S j) n) = omap (fun i => f (S i)) (seq j n).
Proof.
  induction n as [| n IH]; intros j; [reflexivity |].
  cbn [seq omap list_omap]. rewrite IH. reflexivity.
Qed.

Lemma entries_of_items_at items :
  forall label,
    entries_of_items urljoin label items
    = omap (fun i =>
              match items !! i with
              | Some li =>
                match detail_link li with
                | Some a =>
                  Some (entry_of_item urljoin (label_after label (take i items)) li a)
                | None => None
                end
              | None => None
              end) (seq 0 (length items)).
Proof.
  induction items as [| li items IH]; intros label; [reflexivity |].
  cbn [length seq omap list_omap]. rewrite omap_seq_S.
  cbn [lookup list_lookup take entries_of_items].
  assert (Hrest : forall label',
             label' = (if is_day_cut li then heading_text li else label) ->
             entries_of_items urljoin label' items
             = omap (fun i =>
                       match (li :: items) !! S i with
                       | Some li0 =>
                         match detail_link li0 with
                         | Some a =>
                           Some (entry_of_item urljoin
                                   (label_after label (take (S i) (li :: items))) li0 a)
                         | None => None
                         end
                       | None => None
                       end) (seq 0 (length items))).
  { intros label' ->. rewrite IH. apply list_omap_ext, Forall_Forall2_diag, Forall_forall.
    intros i _. cbn [lookup list_lookup take]. rewrite label_after_cons. reflexivity. }
  destruct (is_day_cut li) eqn:Ed.
  - assert (detail_link li = None) as -> by (unfold detail_link; rewrite Ed; reflexivity).
    apply Hrest. reflexivity.
  - destruct (detail_link li) as [a |].
    + rewrite (Hrest label) by reflexivity. reflexivity.
    + apply Hrest. reflexivity.
Qed.

End ItemFacts.

Lemma entry_at_date_label urljoin items i e :
  entry_at urljoin items i = Some e -> date_label e = label_after [] (take i items).
Proof.
  unfold entry_at. destruct (items !! i) as [li |]; [| discriminate].
  destruct (detail_link li) as [a |]; [| discriminate]. intros [= <-]. reflexivity.
Qed.

(** X3. The entries of a page are made, in the order of the document, from
    the items of its list that are diary items, are no date heading and
    have a detail link; the date label of the entry made from the item at
    position [i] is the text of the last date heading among the items in
    front of position [i], and empty when there is none. *)
Theorem extract_entries_by_position
    (html_parser : str -> node) (urljoin : str -> str -> str) (html : str) :
  let items := page_items (html_parser html) in
  extract_entries_from_page html_parser urljoin html
  = omap (entry_at urljoin items) (seq 0 (length items))
  /\ (forall i e,
        entry_at urljoin items i = Some e ->
        (exists li, items !! i = Some li /\ is_day_cut li = false
                    /\ has_class (u "diary") (fst li) = true
                    /\ is_Some (select_one sel_meta_time_a li))
        /\ date_label e
           = match last (List.filter is_day_cut (take i items)) with
             | Some heading => heading_text heading
             | None => []
             end).
Proof.
  intros items. split.
  - rewrite extract_entries_items, entries_of_items_at. reflexivity.
  - intros i e H. split; [| apply (entry_at_date_label _ _ _ _ H)].
    unfold entry_at in H. destruct (items !! i) as [li |]; [| discriminate].
    exists li. split; [reflexivity |]. unfold detail_link in H.
    destruct (is_day_cut li); [discriminate |]. split; [reflexivity |].
    destruct (has_class (u "diary") (fst li)); [| discriminate]. split; [reflexivity |].
    destruct (select_one sel_meta_time_a li); [eauto | discriminate].
Qed.

Lemma extract_entries_by_position_witness :
  date_label Fixture.messy_first = u "3月5日2026".
Proof.
  destruct (proj2 (extract_entries_by_position
                     Fixture.messy_parser Fixture.concat_url (u "messy"))
              1%nat Fixture.messy_first) as [_ E].
  - vm_compute. reflexivity.
  - rewrite E. vm_compute. reflexivity.
Defined.

Lemma label_after_tidy label items : tidy label -> tidy (label_after label items).
Proof.
  intros H. unfold label_after. destruct (last _); [apply clean_text_tidy | exact H].
Qed.

Lemma nil_tidy : tidy [].
Proof. repeat split. Qed.

(** X4. In every extracted entry the date label, the time label, the title
    and the location are tidy text. *)
Theorem extracted_labels_tidy
    (html_parser : str -> node) (urljoin : str -> str -> str) (html : str) (e : Entry) :
  e ∈ extract_entries_from_page html_parser urljoin html ->
  tidy (date_label e) /\ tidy (time_label e) /\ tidy (title e) /\ tidy (location e).
Proof.
  rewrite extract_entries_items, entries_of_items_at. intros H.
  apply list_elem_of_omap in H. destruct H as (i & _ & H).
  destruct (_ !! i) as [li |]; [| discriminate].
  destruct (detail_link li) as [a |]; [| discriminate]. injection H as <-.
  unfold entry_of_item. cbn [date_label time_label title location].
  split; [apply label_after_tidy, nil_tidy |].
  split; [destruct (select_one sel_time_hours a); [apply clean_text_tidy | apply nil_tidy] |].
  split; [destruct (select_one sel_title li); [apply clean_text_tidy | apply nil_tidy] |].
  destruct (select_one sel_location li); [apply clean_text_tidy | apply nil_tidy].
Qed.

Lemma extracted_labels_tidy_witness :
  tidy (date_label Fixture.messy_first) /\ tidy (time_label Fixture.messy_first)
  /\ tidy (title Fixture.messy_first) /\ tidy (location Fixture.messy_first).
Proof.
  apply (extracted_labels_tidy Fixture.messy_parser Fixture.concat_url (u "messy")).
  vm_compute. apply list_elem_of_here.
Defined.

(** ** More on the fetch loop *)

Lemma int_str_of_Z z : 0 <= z -> int (str_of_Z z) = z.
Proof.
  intros Hz. unfold str_of_Z.
  assert ((z <? 0) = false) as -> by (apply Z.ltb_ge; exact Hz).
  rewrite int_str_of_N. lia.
Qed.

Lemma page_url_inj posts_url p q :
  1 <= p -> 1 <= q -> page_url posts_url p = page_url posts_url q -> p = q.
Proof.
  intros Hp Hq. unfold page_url.
  destruct (p =? 1) eqn:Ep, (q =? 1) eqn:Eq;
    try apply Z.eqb_eq in Ep; try apply Z.eqb_eq in Eq; try congruence.
  - intros H. rewrite <- (app_nil_r posts_url) in H at 1.
    apply app_inv_head in H. discriminate.
  - intros H. rewrite <- (app_nil_r posts_url) in H at 2.
    apply app_inv_head in H. discriminate.
  - intros H. do 2 apply app_inv_head in H.
    apply (f_equal int) in H. rewrite !int_str_of_Z in H by lia. exact H.
Qed.

Lemma page_urls_NoDup posts_url n : NoDup (page_url posts_url <$> seqZ 1 n).
Proof.
  apply NoDup_fmap_2_strong; [| apply NoDup_seqZ].
  intros p q Hp Hq. apply elem_of_seqZ in Hp, Hq. apply page_url_inj; lia.
Qed.

Lemma paced_cons url urls :
  urls <> [] -> paced (url :: urls) = EvGet url :: EvSleep :: paced urls.
Proof. destruct urls; [congruence | reflexivity]. Qed.

Section LoopShape.

Variable html_parser : str -> node.
Variable urljoin : str -> str -> str.
Variable s : session.
Variable posts_url : str.
Variable max_pages : option Z.

Local Abbreviation loop := (scrape_loop html_parser urljoin s posts_url max_pages).

(** Whatever the server does, the loop asks for consecutive pages, and
    pauses after every page it goes on from. *)
Lemma scrape_loop_shape fuel :
  forall page acc evs r,
    loop fuel page acc = (evs, r) ->
    exists n : nat,
      (n <= fuel)%nat
      /\ requests evs = page_url posts_url <$> seqZ page (Z.of_nat n)
      /\ (forall m, max_pages = Some m -> Z.of_nat n <= Z.max 1 (m - page + 1))
      /\ (is_Some r -> (0 < n)%nat /\ without_prints evs = paced (requests evs)).
Proof.
  induction fuel as [| fuel IH]; intros page acc evs r H.
  - injection H as <- <-. exists O. split; [lia |]. split; [reflexivity |].
    split; [intros; lia |]. intros [? ?]. discriminate.
  - cbn [scrape_loop] in H.
    assert (Hone : forall r0, evs = [EvGet (page_url posts_url page)] \/
                     (exists line, evs = [EvGet (page_url posts_url page); EvPrint line]) ->
                   r = Some r0 ->
                   exists n : nat,
                     (n <= S fuel)%nat
                     /\ requests evs = page_url posts_url <$> seqZ page (Z.of_nat n)
                     /\ (forall m, max_pages = Some m -> Z.of_nat n <= Z.max 1 (m - page + 1))
                     /\ (is_Some r -> (0 < n)%nat /\ without_prints evs = paced (requests evs))).
    { intros r0 Hevs ->. exists 1%nat. split; [lia |].
      destruct Hevs as [-> | [line ->]];
        (split; [reflexivity |]; split; [intros; lia |]; intros _; split; [lia | reflexivity]). }
    destruct (session_get s (page_url posts_url page)) as [html | e].
    2: { injection H as <- <-. eapply Hone; eauto. }
    destruct (is_login_page html).
    { injection H as <- <-. eapply Hone; eauto. }
    destruct (extract_entries_from_page html_parser urljoin html) as [| e es].
    { injection H as <- <-. eapply Hone; eauto. }
    destruct (match max_pages with Some m => m <=? page | None => false end) eqn:Emax.
    { injection H as <- <-. eapply Hone; eauto. }
    destruct (loop fuel (page + 1) (acc ++ e :: es)) as [later r'] eqn:El.
    injection H as <- <-. apply IH in El. destruct El as (n & Hn & Hreq & Hmax & Hfin).
    cbn [app].
    assert (Hr1 : forall url line,
               requests (EvGet url :: EvPrint line :: EvSleep :: later)
               = url :: requests later) by reflexivity.
    assert (Hw1 : forall url line,
               without_prints (EvGet url :: EvPrint line :: EvSleep :: later)
               = EvGet url :: EvSleep :: without_prints later) by reflexivity.
    exists (S n). rewrite Hr1, Hw1. split; [lia |]. split; [| split].
    + rewrite Hreq. rewrite Nat2Z.inj_succ, (seqZ_cons page) by lia.
      rewrite Z.pred_succ. reflexivity.
    + intros m Hm. specialize (Hmax m Hm). rewrite Hm in Emax.
      apply Z.leb_gt in Emax. lia.
    + intros Hr. destruct (Hfin Hr) as [Hpos Hp]. split; [lia |].
      rewrite Hp. rewrite paced_cons; [reflexivity |].
      rewrite Hreq. destruct n; [lia |].
      rewrite Nat2Z.inj_succ, seqZ_cons by lia. discriminate.
Qed.

End LoopShape.

(** X5. Whatever the server answers and however long the run lasts, the
    addresses asked for are those of the pages 1, 2, ..., n, in this order
    and without a gap, and no address is asked for twice. *)
Theorem scrape_all_requests_consecutive
    (html_parser : str -> node) (urljoin : str -> str -> str) (s : session)
    (posts_url : str) (max_pages : option Z) (fuel : nat) :
  let evs := fst (scrape_all html_parser urljoin s posts_url max_pages fuel) in
  (exists n : nat, (n <= fuel)%nat
                   /\ requests evs = page_url posts_url <$> seqZ 1 (Z.of_nat n))
  /\ NoDup (requests evs).
Proof.
  unfold scrape_all.
  destruct (scrape_loop html_parser urljoin s posts_url max_pages fuel 1 []) as [evs r] eqn:E.
  cbn [fst]. apply scrape_loop_shape in E. destruct E as (n & Hn & Hreq & _).
  split; [eauto |]. rewrite Hreq. apply page_urls_NoDup.
Qed.

(** X6. With [max_pages] set to [m], a run never asks for more than [m]
    pages, and for one page when [m] is below one. *)
Theorem scrape_all_respects_max_pages
    (html_parser : str -> node) (urljoin : str -> str -> str) (s : session)
    (posts_url : str) (m : Z) (fuel : nat) :
  Z.of_nat (length (requests (fst (scrape_all html_parser urljoin s posts_url (Some m) fuel))))
  <= Z.max 1 m.
Proof.
  unfold scrape_all.
  destruct (scrape_loop html_parser urljoin s posts_url (Some m) fuel 1 []) as [evs r] eqn:E.
  cbn [fst]. apply scrape_loop_shape in E. destruct E as (n & _ & Hreq & Hmax & _).
  rewrite Hreq, length_fmap, length_seqZ. specialize (Hmax m eq_refl). lia.
Qed.

(** X7. In a run that has ended, with records or with an error, there is
    a pause between any two requests that follow each other and none
    after the last. *)
Theorem scrape_all_pauses_between_requests
    (html_parser : str -> node) (urljoin : str -> str -> str) (s : session)
    (posts_url : str) (max_pages : option Z) (fuel : nat)
    (evs : list event) (r : result (list Entry)) :
  scrape_all html_parser urljoin s posts_url max_pages fuel = (evs, Some r) ->
  without_prints evs = paced (requests evs).
Proof.
  unfold scrape_all.
  destruct (scrape_loop html_parser urljoin s posts_url max_pages fuel 1 []) as [evs' r'] eqn:E.
  intros [= <- Hr]. apply scrape_loop_shape in E. destruct E as (n & _ & _ & _ & Hfin).
  apply Hfin. destruct r' as [[? | ?] |]; try discriminate; eauto.
Qed.

Lemma scrape_all_pauses_between_requests_witness :
  without_prints Fixture.overlap_events = paced (requests Fixture.overlap_events).
Proof.
  apply (scrape_all_pauses_between_requests
           Fixture.overlap_parser Fixture.concat_url Fixture.overlap_site
           Fixture.posts None 5 Fixture.overlap_events (Ok Fixture.overlap_out)).
  vm_compute. reflexivity.
Defined.

(** ** More on deduplication *)

Lemma dedup_loop_id l :
  forall seen, NoDup (id <$> l) -> (forall e, e ∈ l -> id e ∉ seen) -> dedup_loop seen l = l.
Proof.
  induction l as [| e l IH]; intros seen Hnd Hseen; [reflexivity |].
  cbn [dedup_loop]. rewrite fmap_cons in Hnd. apply NoDup_cons in Hnd.
  destruct Hnd as [Hfresh Hnd].
  rewrite bool_decide_eq_false_2 by (apply Hseen; left).
  f_equal. apply IH; [exact Hnd |].
  intros x Hx Hin. apply elem_of_union in Hin. destruct Hin as [Hin | Hin].
  - apply elem_of_singleton in Hin. apply Hfresh. rewrite <- Hin.
    apply list_elem_of_fmap. eauto.
  - apply (Hseen x); [right; exact Hx | exact Hin].
Qed.

(** X8. Records whose ids are all different come out of the
    deduplication as they went in. *)
Theorem dedup_entries_keeps_distinct (l : list Entry) :
  NoDup (id <$> l) -> dedup_entries l = l.
Proof. intros H. apply dedup_loop_id; [exact H | set_solver]. Qed.

Lemma dedup_entries_keeps_distinct_witness :
  dedup_entries Fixture.overlap_out = Fixture.overlap_out.
Proof.
  apply (dedup_entries_keeps_distinct Fixture.overlap_out).
  apply (bool_decide_unpack _). vm_compute. reflexivity.
Defined.

(** ** The command line *)

Lemma strip_strip s : strip (strip s) = strip s.
Proof.
  unfold strip at 1.
  rewrite lstrip_dark by (apply rstrip_starts_dark, lstrip_starts_dark).
  apply rstrip_dark, rstrip_ends_dark.
Qed.

Section ConsoleFacts.

Variable input_fn : str -> str.
Variable getpass_fn : str -> str.
Variable lower : str -> str.
Variable os_sep : str.

Lemma prompt_with_default_value prompt default_value :
  default_value <> [] ->
  fst (prompt_with_default input_fn prompt default_value) <> []
  /\ (fst (prompt_with_default input_fn prompt default_value) = default_value
      \/ strip (fst (prompt_with_default input_fn prompt default_value))
         = fst (prompt_with_default input_fn prompt default_value)).
Proof.
  intros Hd. unfold prompt_with_default. destruct default_value as [| c d]; [congruence |].
  cbn [fst]. destruct (strip (input_fn _)) as [| x v] eqn:E.
  - split; [discriminate | left; reflexivity].
  - split; [discriminate |]. right. rewrite <- E. apply strip_strip.
Qed.

Lemma resolve_credentials_inr username password name pass log :
  resolve_credentials input_fn getpass_fn username password = (inr (name, pass), log) ->
  name <> [] /\ strip name = name /\ pass <> [].
Proof.
  unfold resolve_credentials.
  destruct (strip (default [] username)) as [| c given] eqn:Eg.
  - destruct (strip (input_fn _)) as [| x v] eqn:E; [discriminate |].
    destruct password as [p |].
    + destruct p; [discriminate |]. intros [= <- <- _].
      split; [discriminate |]. split; [| discriminate]. rewrite <- E. apply strip_strip.
    + destruct (getpass_fn _) eqn:Ep; [discriminate |]. intros [= <- <- _].
      split; [discriminate |]. split; [| discriminate]. rewrite <- E. apply strip_strip.
  - destruct password as [p |].
    + destruct p; [discriminate |]. intros [= <- <- _].
      split; [discriminate |]. split; [| discriminate]. rewrite <- Eg. apply strip_strip.
    + destruct (getpass_fn _) eqn:Ep; [discriminate |]. intros [= <- <- _].
      split; [discriminate |]. split; [| discriminate]. rewrite <- Eg. apply strip_strip.
Qed.

Lemma resolve_credentials_given username pass :
  strip username <> [] ->
  resolve_credentials input_fn getpass_fn (Some username) (Some pass)
  = match pass with
    | [] => (inl (ValueError (u "密码不能为空")), [])
    | _ => (inr (strip username, pass), [])
    end.
Proof.
  intros H. unfold resolve_credentials. cbn [default from_option]. unfold Datatypes.id.
  destruct (strip username); [congruence |]. destruct pass; reflexivity.
Qed.

End ConsoleFacts.
Lemma py_or_default_nonempty a d : d <> [] -> default [] (py_or a (Some d)) <> [].
Proof.
  intros Hd. unfold py_or.
  destruct a as [[| c s] |]; simpl; first [exact Hd | discriminate].
Qed.

Lemma py_or_chain_nonempty a b d :
  d <> [] -> default [] (py_or a (py_or b (Some d))) <> [].
Proof.
  intros Hd. unfold py_or.
  destruct a as [[| c s] |], b as [[| c' s'] |]; simpl; first [exact Hd | discriminate].
Qed.

(** X9. With a default that is not empty, [prompt_with_default] never
    returns the empty text: it returns the default, or a reply without
    white space around it. *)
Theorem prompt_with_default_never_empty
    (input_fn : str -> str) (prompt default_value : str) :
  default_value <> [] ->
  fst (prompt_with_default input_fn prompt default_value) <> []
  /\ (fst (prompt_with_default input_fn prompt default_value) = default_value
      \/ strip (fst (prompt_with_default input_fn prompt default_value))
         = fst (prompt_with_default input_fn prompt default_value)).
Proof. apply prompt_with_default_value. Qed.

Lemma prompt_with_default_never_empty_witness :
  fst (prompt_with_default Sample.answers (u "请输入导出目录") (u "./export")) <> [].
Proof.
  destruct (prompt_with_default_never_empty Sample.answers (u "请输入导出目录") (u "./export"))
    as [H _]; [vm_compute; discriminate | exact H].
Defined.

(** X10. What [resolve_credentials] returns is a name that is not empty and
    has no white space around it, and a password that is not empty. *)
Theorem resolve_credentials_valid
    (input_fn getpass_fn : str -> str) (username password : option str)
    (name pass : str) (log : list console_event) :
  resolve_credentials input_fn getpass_fn username password = (inr (name, pass), log) ->
  name <> [] /\ strip name = name /\ pass <> [].
Proof. apply resolve_credentials_inr. Qed.

Lemma resolve_credentials_valid_witness :
  u "me" <> [] /\ strip (u "me") = u "me" /\ u "secret" <> [].
Proof.
  apply (resolve_credentials_valid Sample.answers Sample.typed None None (u "me") (u "secret")
           (snd (resolve_credentials Sample.answers Sample.typed None None))).
  vm_compute. reflexivity.
Defined.

(** X11. Given a name that is not blank and a password, [resolve_credentials]
    asks nothing; the name loses the white space around it, the password is
    taken as it is, and the empty password is an error. *)
Theorem resolve_credentials_does_not_ask
    (input_fn getpass_fn : str -> str) (username pass : str) :
  strip username <> [] ->
  resolve_credentials input_fn getpass_fn (Some username) (Some pass)
  = match pass with
    | [] => (inl (ValueError (u "密码不能为空")), [])
    | _ => (inr (strip username, pass), [])
    end.
Proof. apply resolve_credentials_given. Qed.

Lemma resolve_credentials_does_not_ask_witness :
  resolve_credentials Sample.answers Sample.typed (Some (u " me ")) (Some (u " secret "))
  = (inr (u "me", u " secret "), []).
Proof.
  rewrite (resolve_credentials_does_not_ask Sample.answers Sample.typed (u " me ") (u " secret "))
    by (vm_compute; discriminate).
  vm_compute. reflexivity.
Defined.

(** X12. When [main] gets as far as the export, the login name and the
    target user are not empty and have no white space around them, the
    password, the output directory and the prefix are not empty, and
    [max_pages], when set, is at least 1. *)
Theorem main_setup_ready
    (input_fn getpass_fn lower : str -> str) (os_sep : str)
    (args : arguments) (st : setup) (log : list console_event) :
  main_setup input_fn getpass_fn lower os_sep args = (inr st, log) ->
  the_username st <> [] /\ strip (the_username st) = the_username st
  /\ the_password st <> []
  /\ the_target_user st <> [] /\ strip (the_target_user st) = the_target_user st
  /\ the_output_dir st <> [] /\ the_prefix st <> []
  /\ (forall m, the_max_pages st = Some m -> 1 <= m).
Proof.
  unfold main_setup.
  destruct (match arg_max_pages args with Some m => m <? 1 | None => false end) eqn:Emax;
    [discriminate |].
  destruct (negb (negb (no_interactive args)) && _); [discriminate |].
  destruct (resolve_credentials _ _ _ _) as [[[msg] | [name pass]] log1] eqn:Ec;
    [discriminate |].
  apply resolve_credentials_inr in Ec. destruct Ec as (Hn & Hns & Hp).
  set (interactive := negb (no_interactive args)).
  assert (Ht : forall target log2,
             (if interactive && negb (truthy (arg_target_user args))
              then prompt_with_default input_fn (u "请输入要导出的用户ID") name
              else (strip (default [] (py_or (arg_target_user args) (Some name))), []))
             = (target, log2) ->
             target <> [] -> strip target = target).
  { intros target log2 H Hne. destruct (interactive && _).
    - pose proof (prompt_with_default_value input_fn (u "请输入要导出的用户ID") name Hn) as [_ Hv].
      rewrite H in Hv. cbn [fst] in Hv. destruct Hv as [-> | Hv]; assumption.
    - injection H as <- _. apply strip_strip. }
  destruct (if interactive && negb (truthy (arg_target_user args)) then _ else _)
    as [target log2] eqn:Et.
  specialize (Ht target log2 eq_refl).
  destruct target as [| c target]; [discriminate |].
  assert (Hdir : u "." ++ os_sep ++ u "export" <> []) by discriminate.
  assert (Hpre : u "icity_" ++ (c :: target) ++ u "_diary_export" <> []) by discriminate.
  assert (Hd' : forall dir log3,
             (if interactive && negb (truthy (arg_output_dir args))
              then prompt_with_default input_fn (u "请输入导出目录")
                     (u "." ++ os_sep ++ u "export")
              else (default [] (py_or (arg_output_dir args)
                                  (Some (u "." ++ os_sep ++ u "export"))), []))
             = (dir, log3) -> dir <> []).
  { intros dir log3 H. destruct (interactive && negb (truthy (arg_output_dir args))).
    - pose proof (prompt_with_default_value input_fn (u "请输入导出目录") _ Hdir) as [Hv _].
      rewrite H in Hv. exact Hv.
    - injection H as <- _. apply py_or_default_nonempty, Hdir. }
  assert (Hp' : forall pre log4,
             (if interactive && negb (truthy (arg_prefix args))
                 && negb (truthy (legacy_prefix args))
              then prompt_with_default input_fn (u "请输入导出文件名前缀")
                     (u "icity_" ++ (c :: target) ++ u "_diary_export")
              else (default [] (py_or (arg_prefix args)
                                  (py_or (legacy_prefix args)
                                     (Some (u "icity_" ++ (c :: target)
                                            ++ u "_diary_export")))), []))
             = (pre, log4) -> pre <> []).
  { intros pre log4 H.
    destruct (interactive && negb (truthy (arg_prefix args))
              && negb (truthy (legacy_prefix args))).
    - pose proof (prompt_with_default_value input_fn (u "请输入导出文件名前缀") _ Hpre) as [Hv _].
      rewrite H in Hv. exact Hv.
    - injection H as <- _. apply py_or_chain_nonempty, Hpre. }
  destruct (if interactive && negb (truthy (arg_output_dir args)) then _ else _)
    as [dir log3] eqn:Ed.
  destruct (if interactive && negb (truthy (arg_prefix args))
               && negb (truthy (legacy_prefix args)) then _ else _)
    as [pre log4] eqn:Epre.
  destruct (if interactive && bool_decide (argv_len args = 1%nat) && negb (no_split_md args)
            then _ else _) as [split log5].
  intros [= <- _]. cbn.
  split; [exact Hn |]. split; [exact Hns |]. split; [exact Hp |].
  split; [discriminate |]. split; [apply Ht; discriminate |].
  split; [eapply Hd'; reflexivity |]. split; [eapply Hp'; reflexivity |].
  intros m Hm. rewrite Hm in Emax. apply Z.ltb_ge in Emax. exact Emax.
Qed.

Lemma main_setup_ready_witness :
  the_username Sample.guided_setup <> []
  /\ strip (the_username Sample.guided_setup) = the_username Sample.guided_setup
  /\ the_password Sample.guided_setup <> []
  /\ the_target_user Sample.guided_setup <> []
  /\ strip (the_target_user Sample.guided_setup) = the_target_user Sample.guided_setup
  /\ the_output_dir Sample.guided_setup <> [] /\ the_prefix Sample.guided_setup <> []
  /\ (forall m, the_max_pages Sample.guided_setup = Some m -> 1 <= m).
Proof.
  apply (main_setup_ready Sample.answers Sample.typed Sample.lower_plain Sample.slash
           Sample.guided_args Sample.guided_setup
           (snd (main_setup Sample.answers Sample.typed Sample.lower_plain Sample.slash
                   Sample.guided_args))).
  vm_compute. reflexivity.
Defined.

(** X13. With [--no-interactive] and a name that is not blank, [main] asks
    nothing before the export: all it does at the console is print. *)
Theorem main_setup_silent
    (input_fn getpass_fn lower : str -> str) (os_sep : str) (args : arguments) :
  no_interactive args = true ->
  strip (default [] (py_or (arg_username args) (legacy_username args))) <> [] ->
  Forall is_printed (snd (main_setup input_fn getpass_fn lower os_sep args)).
Proof.
  intros Hni Hname. unfold main_setup. rewrite Hni. cbn [negb andb].
  destruct (match arg_max_pages args with Some m => m <? 1 | None => false end);
    [repeat constructor |].
  destruct (truthy (py_or (arg_username args) (legacy_username args))) eqn:Eu;
    [| repeat constructor].
  destruct (truthy (py_or (arg_password args) (legacy_password args))) eqn:Ep;
    [| repeat constructor].
  cbn [negb orb].
  destruct (py_or (arg_username args) (legacy_username args)) as [name |]; [| discriminate].
  destruct (py_or (arg_password args) (legacy_password args)) as [pass |]; [| discriminate].
  rewrite resolve_credentials_given by exact Hname.
  destruct pass as [| p pass]; [repeat constructor |].
  destruct (strip (default [] (py_or (arg_target_user args) (Some (strip name)))));
    repeat constructor.
Qed.

Lemma main_setup_silent_witness :
  Forall is_printed
    (snd (main_setup Sample.answers Sample.typed Sample.lower_plain Sample.slash
            Sample.silent_args)).
Proof.
  apply (main_setup_silent Sample.answers Sample.typed Sample.lower_plain Sample.slash
           Sample.silent_args).
  - vm_compute. reflexivity.
  - vm_compute. discriminate.
Defined.

(** X14. With [--no-interactive], a name that is given but blank and a
    password, [main] still asks for the name at the console. *)
Theorem main_setup_blank_username_asks
    (input_fn getpass_fn lower : str -> str) (os_sep : str) (args : arguments)
    (name : str) :
  no_interactive args = true ->
  (forall m, arg_max_pages args = Some m -> 1 <= m) ->
  py_or (arg_username args) (legacy_username args) = Some name ->
  name <> [] -> strip name = [] ->
  truthy (py_or (arg_password args) (legacy_password args)) = true ->
  exists rest,
    snd (main_setup input_fn getpass_fn lower os_sep args)
    = Asked (u "请输入 iCity 登录用户名或邮箱：") :: rest.
Proof.
  intros Hni Hmax Hname Hne Hblank Hpass. unfold main_setup.
  destruct (match arg_max_pages args with Some m => m <? 1 | None => false end) eqn:E.
  { destruct (arg_max_pages args) as [m |]; [| discriminate].
    apply Z.ltb_lt in E. specialize (Hmax m eq_refl). lia. }
  rewrite Hni, Hname, Hpass.
  assert (truthy (Some name) = true) as -> by (destruct name; [congruence | reflexivity]).
  cbn [negb andb orb].
  destruct (py_or (arg_password args) (legacy_password args)) as [[| c pass] |];
    try discriminate.
  unfold resolve_credentials. cbn [default from_option]. unfold Datatypes.id.
  rewrite Hblank.
  destruct (strip (input_fn _)) as [| x v]; [eexists; reflexivity |].
  match goal with
  | |- context [match strip ?t with [] => _ | _ :: _ => _ end] => destruct (strip t)
  end; eexists; reflexivity.
Qed.

Lemma main_setup_blank_username_asks_witness :
  exists rest,
    snd (main_setup Sample.answers Sample.typed Sample.lower_plain Sample.slash
           Sample.blank_args)
    = Asked (u "请输入 iCity 登录用户名或邮箱：") :: rest.
Proof.
  apply (main_setup_blank_username_asks Sample.answers Sample.typed Sample.lower_plain
           Sample.slash Sample.blank_args (u "  ")).
  - vm_compute. reflexivity.
  - intros m Hm. vm_compute in Hm. injection Hm as <-. lia.
  - vm_compute. reflexivity.
  - vm_compute. discriminate.
  - vm_compute. reflexivity.
  - vm_compute. reflexivity.
Defined.

(** ** What can be encoded *)

Lemma utf8_ok_app a b : utf8_ok (a ++ b) = utf8_ok a && utf8_ok b.
Proof. apply forallb_app. Qed.

Lemma utf8_ok_app_l a b : utf8_ok (a ++ b) = true -> utf8_ok a = true.
Proof. rewrite utf8_ok_app. intros H. apply andb_prop in H. apply H. Qed.

Lemma utf8_ok_app_r a b : utf8_ok (a ++ b) = true -> utf8_ok b = true.
Proof. rewrite utf8_ok_app. intros H. apply andb_prop in H. apply H. Qed.

Lemma utf8_ok_strip s : utf8_ok s = true -> utf8_ok (strip s) = true.
Proof.
  intros H. unfold strip.
  destruct (lstrip_suffix s) as [t Et]. rewrite Et in H. apply utf8_ok_app_r in H.
  destruct (rstrip_prefix (lstrip s)) as [t' Et']. rewrite Et' in H.
  apply utf8_ok_app_l in H. exact H.
Qed.

Lemma utf8_ok_join sep parts :
  utf8_ok sep = true -> Forall (fun p => utf8_ok p = true) parts ->
  utf8_ok (join sep parts) = true.
Proof.
  intros Hsep H. induction H as [| p ps Hp Hps IH]; [reflexivity |].
  destruct ps as [| q ps]; [exact Hp |].
  change (join sep (p :: q :: ps)) with (p ++ sep ++ join sep (q :: ps)).
  rewrite !utf8_ok_app, Hp, Hsep, IH. reflexivity.
Qed.

Lemma utf8_ok_ascii s : Forall (fun c => (c < 128)%N) s -> utf8_ok s = true.
Proof.
  intros H. apply forallb_forall. intros c Hc. rewrite Forall_forall in H.
  apply list_elem_of_In, H in Hc. unfold utf8_char.
  apply orb_true_intro. left. apply N.ltb_lt. lia.
Qed.

Lemma dec_digits_ascii fuel : forall n, Forall (fun c => (c < 128)%N) (dec_digits fuel n).
Proof.
  induction fuel as [| fuel IH]; intros n; cbn [dec_digits]; [constructor |].
  destruct (n <? 10)%N eqn:E.
  - apply N.ltb_lt in E. repeat constructor. lia.
  - apply Forall_app. split; [apply IH |]. repeat constructor.
    pose proof (N.mod_lt n 10). lia.
Qed.

Lemma str_of_Z_ascii z : Forall (fun c => (c < 128)%N) (str_of_Z z).
Proof.
  unfold str_of_Z, str_of_N. destruct (z <? 0); [constructor; [lia |] |]; apply dec_digits_ascii.
Qed.

Lemma format_0d_ascii w z : Forall (fun c => (c < 128)%N) (format_0d w z).
Proof.
  assert (Hz : forall k s, Forall (fun c => (c < 128)%N) s ->
                           Forall (fun c => (c < 128)%N) (zfill k s)).
  { intros k s Hs. unfold zfill. apply Forall_app. split; [| exact Hs].
    apply Forall_replicate. lia. }
  unfold format_0d, str_of_N.
  destruct (z <? 0); [constructor; [lia |] |]; apply Hz, dec_digits_ascii.
Qed.

Lemma digit_in_range zs c v :
  digit_in zs c = Some v -> exists z, In z zs /\ (z <= c < z + 10)%N.
Proof.
  induction zs as [| z zs IH]; [discriminate |]. cbn [digit_in].
  destruct ((z <=? c) && (c <? z + 10))%N eqn:E.
  - intros _. apply andb_prop in E. destruct E as [E1 E2].
    apply N.leb_le in E1. apply N.ltb_lt in E2. exists z. split; [left; reflexivity | lia].
  - intros H. destruct (IH H) as (z' & Hin & Hr). exists z'. split; [right; exact Hin | exact Hr].
Qed.

Lemma is_digit_utf8 c : is_digit c = true -> utf8_char c = true.
Proof.
  unfold is_digit, digit_value. destruct (digit_in digit_zeros c) as [v |] eqn:E;
    [| discriminate].
  intros _. apply digit_in_range in E. destruct E as (z & Hin & Hr).
  assert (H : forallb (fun z => (z + 10 <=? 0xD800) || (0xDFFF <? z))%N digit_zeros = true)
    by (vm_compute; reflexivity).
  rewrite forallb_forall in H. apply H in Hin. unfold utf8_char.
  apply orb_prop in Hin. apply orb_true_intro. destruct Hin as [Hin | Hin].
  - left. apply N.leb_le in Hin. apply N.ltb_lt. lia.
  - right. apply N.ltb_lt in Hin. apply N.ltb_lt. lia.
Qed.

Lemma digits_utf8 w : forallb is_digit w = true -> utf8_ok w = true.
Proof.
  intros H. apply forallb_forall. intros c Hc. rewrite forallb_forall in H.
  apply is_digit_utf8, H, Hc.
Qed.

(** The time of a resolved date can be encoded. *)
Lemma parse_entry_datetime_parts_utf8 e y m d hm :
  parse_entry_datetime_parts e = Some (y, m, d, hm) -> utf8_ok hm = true.
Proof.
  unfold parse_entry_datetime_parts. intros H.
  destruct (tier1 e) as [r |] eqn:E1.
  - injection H as ->. apply tier1_inv in E1.
    destruct E1 as (y' & mo & d' & hm' & Hs & [= -> -> -> ->]).
    destruct Hs as (ws & h & mi & nl & _ & -> & _ & _ & _ & [_ Hh] & [_ Hmi] & _).
    rewrite !utf8_ok_app, (digits_utf8 _ Hh), (digits_utf8 _ Hmi). reflexivity.
  - apply tier2_inv in H.
    destruct H as (mo & d' & y' & h & mi & _ & _ & [= -> -> -> ->]).
    apply utf8_ok_ascii. apply Forall_app. split; [apply format_0d_ascii |].
    constructor; [lia | apply format_0d_ascii].
Qed.

Lemma entry_utf8_fields e :
  entry_utf8 e = true ->
  utf8_ok (id e) = true /\ utf8_ok (date_label e) = true /\ utf8_ok (datetime_iso e) = true
  /\ utf8_ok (datetime_local e) = true /\ utf8_ok (time_label e) = true
  /\ utf8_ok (title e) = true /\ utf8_ok (text e) = true /\ utf8_ok (location e) = true
  /\ utf8_ok (source_url e) = true.
Proof.
  unfold entry_utf8. intros H.
  repeat (apply andb_prop in H; destruct H as [H ?]). auto 10.
Qed.

Ltac utf8_pieces :=
  rewrite ?utf8_ok_app;
  repeat (apply andb_true_intro; split);
  first [assumption | vm_compute; reflexivity | idtac].

Lemma utf8_ok_format_entry_markdown e hm :
  entry_utf8 e = true -> utf8_ok hm = true -> utf8_ok (format_entry_markdown e hm) = true.
Proof.
  intros He Hhm. apply entry_utf8_fields in He.
  destruct He as (Hid & _ & _ & _ & _ & Hti & Htx & Hlo & Hurl).
  unfold format_entry_markdown. cbv zeta.
  apply utf8_ok_join; [reflexivity |].
  apply Forall_app. split; [| apply Forall_app; split].
  - apply Forall_cons_2; [| apply Forall_cons_2; [reflexivity |];
                            apply Forall_cons_2; [| apply Forall_nil_2]].
    + destruct (title e) eqn:Et; [utf8_pieces | rewrite <- Et in *; utf8_pieces].
    + utf8_pieces.
  - destruct (location e) eqn:El; [apply Forall_nil_2 |].
    rewrite <- El in *. apply Forall_cons_2; [| apply Forall_nil_2]. utf8_pieces.
  - apply Forall_cons_2; [| apply Forall_cons_2; [reflexivity |];
                            apply Forall_cons_2; [| apply Forall_cons_2; [reflexivity |];
                                                    apply Forall_nil_2]].
    + utf8_pieces.
    + destruct (text e) eqn:Et; [reflexivity |]. rewrite <- Et in *. apply utf8_ok_strip, Htx.
Qed.

Lemma utf8_ok_day_sections items :
  Forall (fun it => utf8_ok (fst it) = true /\ entry_utf8 (snd it) = true) items ->
  utf8_ok (day_sections items) = true.
Proof.
  intros H. induction H as [| [hm e] rest [Hhm He] Hrest IH]; [reflexivity |].
  cbn [fst snd] in *. cbn [day_sections].
  pose proof (utf8_ok_format_entry_markdown e hm He Hhm) as Hf.
  destruct rest as [| it rest]; [exact Hf |]. utf8_pieces.
Qed.

Lemma utf8_ok_day_text k items :
  Forall (fun it => utf8_ok (fst it) = true /\ entry_utf8 (snd it) = true) items ->
  utf8_ok (day_text k items) = true.
Proof.
  intros H. apply utf8_ok_day_sections in H. unfold day_text, day_name.
  destruct k as [[y m] d].
  pose proof (utf8_ok_ascii _ (format_0d_ascii 4 y)) as Hy.
  pose proof (utf8_ok_ascii _ (format_0d_ascii 2 m)) as Hm.
  pose proof (utf8_ok_ascii _ (format_0d_ascii 2 d)) as Hd.
  pose proof (utf8_ok_ascii _ (str_of_Z_ascii (Z.of_nat (length items)))) as Hn.
  utf8_pieces.
Qed.

Lemma json_ok_asdict e : entry_utf8 e = true -> json_ok (asdict e) = true.
Proof.
  intros He. apply entry_utf8_fields in He.
  destruct He as (H1 & H2 & H3 & H4 & H5 & H6 & H7 & H8 & H9).
  unfold asdict. cbn [json_ok forallb].
  rewrite H1, H2, H3, H4, H5, H6, H7, H8, H9.
  vm_compute. reflexivity.
Qed.

Lemma json_ok_entries entries :
  Forall (fun e => entry_utf8 e = true) entries ->
  json_ok (JArray (asdict <$> entries)) = true.
Proof.
  intros H. cbn [json_ok]. apply forallb_forall. intros v Hv.
  apply list_elem_of_In, list_elem_of_fmap in Hv. destruct Hv as (e & -> & He).
  apply json_ok_asdict. rewrite Forall_forall in H. apply H, He.
Qed.

(** ** The Markdown tree: what is left alone, and when it is written *)

Lemma rmtree_frame root fs r fs' p :
  rmtree root fs = (r, fs') -> ~ root `prefix_of` p -> files fs' !! p = files fs !! p.
Proof.
  unfold rmtree. destruct (is_dir fs root); [| intros [= <- <-] Hp; reflexivity].
  cbv zeta. intros H Hp.
  assert (fs' = {| files := filter (fun kv => ~ root `prefix_of` kv.1) (files fs);
                   dirs := filter (fun d => ~ root `prefix_of` d) (dirs fs) |}) as ->.
  { destruct root; injection H as _ <-; reflexivity. }
  cbn [files]. destruct (files fs !! p) as [x |] eqn:E.
  - apply map_lookup_filter_Some. auto.
  - apply map_lookup_filter_None. left. exact E.
Qed.

Lemma write_file_frame q c fs r fs' p :
  write_file q c fs = (r, fs') -> p <> q -> files fs' !! p = files fs !! p.
Proof.
  unfold write_file. destruct (is_dir fs q); [intros [= <- <-]; reflexivity |].
  destruct (negb (is_dir fs (removelast q))); [intros [= <- <-] Hp; reflexivity |].
  destruct (content_ok c); intros [= <- <-] Hp; cbn [files]; apply lookup_insert_ne; congruence.
Qed.

Lemma makedirs_files p fs : files (snd (makedirs p fs)) = files fs.
Proof. apply makedirs_from_files. Qed.

Lemma write_days_frame root days :
  forall c fs r fs' p,
    write_days root days c fs = (r, fs') -> ~ root `prefix_of` p ->
    files fs' !! p = files fs !! p.
Proof.
  induction days as [| [k raw] days IH]; intros c fs r fs' p H Hp.
  - injection H as <- <-. reflexivity.
  - cbn [write_days] in H. unfold bind in H.
    pose proof (makedirs_files (day_dir root k) fs) as Hm.
    destruct (makedirs (day_dir root k) fs) as [[[] | e] fs1]; cbn [snd] in Hm.
    2: { injection H as <- <-. rewrite Hm. reflexivity. }
    destruct (write_file (day_file root k) _ fs1) as [[[] | e] fs2] eqn:Ew.
    + eapply IH in H; [| exact Hp]. rewrite H.
      erewrite write_file_frame; [rewrite Hm; reflexivity | exact Ew |].
      intros ->. apply Hp, day_file_under.
    + injection H as <- <-.
      erewrite write_file_frame; [rewrite Hm; reflexivity | exact Ew |].
      intros ->. apply Hp, day_file_under.
Qed.



Lemma makedirs_from_succeeds todo :
  forall made fs,
    (forall t, t `prefix_of` todo -> t <> [] -> is_file fs (made ++ t) = false) ->
    exists fs', makedirs_from made todo fs = (Ok tt, fs').
Proof.
  induction todo as [| c todo IH]; intros made fs H; [eexists; reflexivity |].
  cbn [makedirs_from]. rewrite (H [c]); [| apply prefix_cons, prefix_nil | discriminate].
  apply IH. intros t Ht Hne. unfold is_file. cbn [files].
  rewrite <- app_assoc. apply (H (c :: t)); [apply prefix_cons, Ht | discriminate].
Qed.

Lemma makedirs_succeeds p fs :
  (forall q, q `prefix_of` p -> q <> [] -> is_file fs q = false) ->
  exists fs', makedirs p fs = (Ok tt, fs').
Proof. intros H. apply makedirs_from_succeeds. exact H. Qed.

Lemma makedirs_dirs p fs fs' :
  makedirs p fs = (Ok tt, fs') ->
  files fs' = files fs
  /\ forall d, d ∈ dirs fs' <-> d ∈ dirs fs \/ (d <> [] /\ d `prefix_of` p).
Proof.
  intros H. apply makedirs_from_ok in H. destruct H as [Hf Hd]. split; [exact Hf |].
  intros d. rewrite Hd. cbn [app]. split.
  - intros [? | (t & ? & ? & ->)]; auto.
  - intros [? | [? ?]]; [auto | right; eauto].
Qed.

Lemma day_dir_under root k : root `prefix_of` day_dir root k.
Proof. destruct k as [[y m] d]. unfold day_dir. eexists. reflexivity. Qed.

Lemma length_day_dir root k : length (day_dir root k) = (length root + 2)%nat.
Proof. destruct k as [[y m] d]. unfold day_dir. rewrite length_app. reflexivity. Qed.

Lemma length_day_file root k : length (day_file root k) = (length root + 3)%nat.
Proof. unfold day_file. rewrite length_app, length_day_dir. simpl. lia. Qed.

Lemma removelast_day_file root k : removelast (day_file root k) = day_dir root k.
Proof. unfold day_file. apply removelast_last. Qed.

Lemma prefix_under_or_above (q root p : path) :
  q `prefix_of` p -> root `prefix_of` p -> q `prefix_of` root \/ root `prefix_of` q.
Proof. intros Hq Hr. destruct (prefix_weak_total q root p Hq Hr); auto. Qed.

Lemma write_days_succeeds root days :
  Forall (fun g => utf8_ok (day_text (fst g) (sort_by str_leb fst (snd g))) = true) days ->
  forall c fs, tree_ready root fs -> exists c' fs', write_days root days c fs = (Ok c', fs').
Proof.
  intros Hok. induction Hok as [| [k raw] days Hk Hdays IH]; intros c fs (R1 & R2 & R3);
    [eexists _, _; reflexivity |].
  cbn [fst snd] in Hk. cbn [write_days]. unfold bind.
  destruct (makedirs_succeeds (day_dir root k) fs) as [fs1 Hm].
  { intros q Hq Hne. destruct (is_file fs q) eqn:Ef; [| reflexivity]. exfalso.
    destruct (prefix_under_or_above q root _ Hq (day_dir_under root k)) as [Hqr | Hrq].
    - rewrite (R1 q Hqr Hne) in Ef. discriminate.
    - apply is_file_true in Ef. apply R2 in Ef; [| exact Hrq]. apply prefix_length in Hq.
      rewrite length_day_dir in Hq. lia. }
  rewrite Hm. apply makedirs_dirs in Hm. destruct Hm as [Hf Hd].
  assert (Hw : write_file (day_file root k)
                 (TextFile (day_text k (sort_by str_leb fst raw))) fs1
               = (Ok tt, {| files := <[day_file root k :=
                                         TextFile (day_text k (sort_by str_leb fst raw))]>
                                       (files fs1);
                            dirs := dirs fs1 |})).
  { unfold write_file.
    assert (is_dir fs1 (day_file root k) = false) as ->.
    { apply bool_decide_eq_false. intros [E | E].
      - apply (f_equal length) in E. rewrite length_day_file in E. simpl in E. lia.
      - apply Hd in E. destruct E as [E | [_ E]].
        + apply R3 in E; [| apply day_file_under]. rewrite length_day_file in E. lia.
        + apply prefix_length in E. rewrite length_day_file, length_day_dir in E. lia. }
    assert (is_dir fs1 (removelast (day_file root k)) = true) as ->.
    { rewrite removelast_day_file. apply is_dir_true. right. apply Hd. right.
      split; [| reflexivity]. intros E. apply (f_equal length) in E.
      rewrite length_day_dir in E. simpl in E. lia. }
    cbn [negb content_ok]. rewrite Hk. reflexivity. }
  rewrite Hw. apply IH. split; [| split].
  - intros q Hq Hne. unfold is_file. cbn [files]. apply bool_decide_eq_false.
    rewrite lookup_insert_ne.
    + rewrite Hf. specialize (R1 q Hq Hne). apply bool_decide_eq_false in R1. exact R1.
    + intros E. apply prefix_length in Hq. rewrite <- E, length_day_file in Hq. lia.
  - intros p Hp Hr. cbn [files] in Hp.
    destruct (decide (p = day_file root k)) as [-> | Hne]; [apply length_day_file |].
    rewrite lookup_insert_ne in Hp by congruence. rewrite Hf in Hp. auto.
  - intros d Hdir Hr. cbn [dirs] in Hdir. apply Hd in Hdir. destruct Hdir as [? | [_ Hp]].
    + auto.
    + apply prefix_length in Hp. rewrite length_day_dir in Hp. exact Hp.
Qed.

Lemma fs_wf_empty : fs_wf {| files := ∅; dirs := ∅ |}.
Proof.
  split.
  - intros p q [x Hx]. cbn [files] in Hx. rewrite lookup_empty in Hx. discriminate.
  - intros d q Hd. cbn [dirs] in Hd. set_solver.
Qed.


Lemma good_out_utf8 : Forall (fun e => entry_utf8 e = true) Sample.good_out.
Proof. repeat constructor. Qed.


(** ** The export of [main] *)

Lemma json_path_not_under_md o : ~ md_root_of o `prefix_of` json_path_of o.
Proof.
  unfold md_root_of, json_path_of. intros [k E].
  rewrite <- app_assoc in E. apply app_inv_head in E.
  injection E as E _. apply app_inv_head in E. discriminate.
Qed.

Lemma txt_path_not_under_md o : ~ md_root_of o `prefix_of` txt_path_of o.
Proof.
  unfold md_root_of, txt_path_of. intros [k E].
  rewrite <- app_assoc in E. apply app_inv_head in E.
  injection E as E _. apply app_inv_head in E. discriminate.
Qed.

Lemma json_path_not_txt_path o : json_path_of o <> txt_path_of o.
Proof.
  unfold json_path_of, txt_path_of. intros E. apply app_inv_head in E.
  injection E as E. apply app_inv_head in E. discriminate.
Qed.

Lemma md_not_under_output_file o p :
  md_root_of o `prefix_of` p -> p <> json_path_of o /\ p <> txt_path_of o.
Proof.
  intros H. split; intros ->.
  - eapply json_path_not_under_md, H.
  - eapply txt_path_not_under_md, H.
Qed.

Lemma write_outputs_ok entries jp tp fs fs' :
  fs_wf fs -> write_outputs entries jp tp fs = (Ok tt, fs') ->
  fs_wf fs'
  /\ files fs' = <[tp := TextFile (txt_text entries)]>
                   (<[jp := JsonFile (JArray (asdict <$> entries))]> (files fs)).
Proof.
  intros W H. unfold write_outputs in H.
  apply bind_ok in H. destruct H as ([] & fs1 & H1 & H2).
  apply write_file_ok in H1; [| exact W]. destruct H1 as (W1 & F1 & _).
  apply write_file_ok in H2; [| exact W1]. destruct H2 as (W2 & F2 & _).
  split; [exact W2 |]. rewrite F2, F1. reflexivity.
Qed.

Lemma write_outputs_frame entries jp tp fs r fs' p :
  write_outputs entries jp tp fs = (r, fs') -> p <> jp -> p <> tp ->
  files fs' !! p = files fs !! p.
Proof.
  unfold write_outputs, bind. intros H Hj Ht.
  destruct (write_file jp _ fs) as [[[] | e] fs1] eqn:E1.
  - erewrite (write_file_frame tp); [| exact H | exact Ht].
    eapply write_file_frame; eauto.
  - injection H as <- <-. eapply write_file_frame; eauto.
Qed.

(** X18. Whether it ends well or with an error, [write_outputs] leaves
    every file other than the JSON file and the text file as it was. *)
Theorem write_outputs_touches_two_paths
    (entries : list Entry) (jp tp : path) (fs : filesystem) (r : result unit)
    (fs' : filesystem) (p : path) :
  write_outputs entries jp tp fs = (r, fs') -> p <> jp -> p <> tp ->
  files fs' !! p = files fs !! p.
Proof. apply write_outputs_frame. Qed.

Lemma write_outputs_touches_two_paths_witness :
  files (snd (write_outputs Fixture.overlap_out Sample.out_json Sample.out_txt Sample.kept_fs))
    !! Sample.notes
  = Some (TextFile (u "kept")).
Proof.
  rewrite (write_outputs_touches_two_paths
             Fixture.overlap_out Sample.out_json Sample.out_txt Sample.kept_fs
             (fst (write_outputs Fixture.overlap_out Sample.out_json Sample.out_txt
                     Sample.kept_fs))
             (snd (write_outputs Fixture.overlap_out Sample.out_json Sample.out_txt
                     Sample.kept_fs))
             Sample.notes).
  - vm_compute. reflexivity.
  - apply surjective_pairing.
  - vm_compute. discriminate.
  - vm_compute. discriminate.
Defined.

Lemma dedup_entries_nil l : dedup_entries l = [] -> l = [].
Proof.
  destruct l as [| e l]; [reflexivity |]. unfold dedup_entries. cbn [dedup_loop].
  rewrite bool_decide_eq_false_2 by set_solver. discriminate.
Qed.


Lemma run_end (run : option (result (Z * str) * filesystem)) (r : result (Z * str)) :
  fst <$> run = Some r -> run = Some (r, end_of run).
Proof. destruct run as [[r' fs'] |]; [intros [= ->]; reflexivity | discriminate]. Qed.

Lemma good_first_resolved :
  parse_entry_datetime_parts (nth 0 Sample.good_out Fixture.no_entry)
  = Some (2026, 3, 5, u "08:30").
Proof. vm_compute. reflexivity. Qed.


Lemma Some_pair_snd {A B : Type} (a a' : A) (b b' : B) :
  Some (a, b) = Some (a', b') -> b = b'.
Proof. intros H. injection H as _ H. exact H. Qed.

(** X22. Without Markdown, [main] leaves everything at and below the Markdown
    root as it was, however the run ends. *)
Theorem export_main_without_markdown
    (html_parser : str -> node) (urljoin : str -> str -> str) (s : session)
    (o : options) (fuel : nat) (fs : filesystem) (r : result (Z * str))
    (fs' : filesystem) (p : path) :
  split_md o = false ->
  export_main html_parser urljoin s o fuel fs = Some (r, fs') ->
  md_root_of o `prefix_of` p ->
  files fs' !! p = files fs !! p.
Proof.
  intros Hs H Hp. unfold export_main, try_export in H.
  pose proof (makedirs_files (output_dir o) fs) as Hm.
  destruct (makedirs (output_dir o) fs) as [[[] | e] fs1]; cbn [snd] in Hm.
  2: { apply Some_pair_snd in H. subst fs'. rewrite Hm. reflexivity. }
  rewrite <- Hm. clear Hm.
  destruct (md_not_under_output_file o p Hp) as [Hj Ht].
  destruct (login _ _ _ _ _) as [[] | e].
  2: { unfold raise in H. destruct e; cbv beta iota in H; apply Some_pair_snd in H; subst fs'; reflexivity. }
  destruct (scrape_all _ _ _ _ _ _) as [evs [[entries | e] |]]; cbn [snd] in H.
  - destruct entries as [| e0 es].
    + unfold raise in H. cbv beta iota in H. apply Some_pair_snd in H. subst fs'. reflexivity.
    + rewrite Hs in H. unfold bind at 1 in H.
      destruct (write_outputs (e0 :: es) (json_path_of o) (txt_path_of o) fs1)
        as [[[] | e] fs2] eqn:Ew.
      * unfold ret in H. cbv beta iota in H. apply Some_pair_snd in H. subst fs'. eapply write_outputs_frame; eauto.
      * assert (fs' = fs2) as -> by (destruct e; cbv beta iota in H; apply Some_pair_snd in H; subst fs'; reflexivity).
        eapply write_outputs_frame; eauto.
  - unfold raise in H. destruct e; cbv beta iota in H; apply Some_pair_snd in H; subst fs'; reflexivity.
  - discriminate.
Qed.

Lemma export_main_without_markdown_witness :
  files Sample.plain_end !! Sample.old_day = Some (TextFile (u "old")).
Proof.
  rewrite (export_main_without_markdown Sample.good_parser Fixture.concat_url Sample.good_site
             Sample.plain_options 5 Sample.old_md_fs
             (Ok (0, [])) Sample.plain_end Sample.old_day).
  - vm_compute. reflexivity.
  - reflexivity.
  - apply run_end. vm_compute. reflexivity.
  - exists [u "old.md"]. reflexivity.
Defined.
(** ** Resolved dates and the names of the day files *)

Lemma format_0d_4_length z : 0 <= z < 10000 -> length (format_0d 4 z) = 4%nat.
Proof.
  intros Hz.
  assert (H : forallb (fun n => Nat.eqb (length (format_0d 4 (Z.of_nat n))) 4) (seq 0 (Z.to_nat 10000)) = true)
    by (vm_compute; reflexivity).
  rewrite forallb_forall in H. specialize (H (Z.to_nat z)).
  rewrite Z2Nat.id in H by lia. apply Nat.eqb_eq, H, in_seq. lia.
Qed.

Lemma int_digits_lt n w : digits n w -> 0 <= int w < 10 ^ Z.of_nat n.
Proof. intros [<- _]. apply int_bound. Qed.

Lemma int_digits12_lt w : digits12 w -> 0 <= int w < 100.
Proof.
  intros [Hl _]. pose proof (int_bound w) as Hb.
  assert (10 ^ Z.of_nat (length w) <= 10 ^ 2) by (apply Z.pow_le_mono_r; lia). lia.
Qed.

(** X25. A date that [parse_entry_datetime_parts] resolves has a year
    from 0 to 9999 and a month and a day from 0 to 99, which need not be
    those of a calendar; the time has five characters, the third of which
    is the colon. *)
Theorem parse_entry_datetime_parts_range (e : Entry) (y m d : Z) (hm : str) :
  parse_entry_datetime_parts e = Some (y, m, d, hm) ->
  0 <= y < 10000 /\ 0 <= m < 100 /\ 0 <= d < 100
  /\ length hm = 5%nat /\ hm !! 2%nat = Some 58%N.
Proof.
  unfold parse_entry_datetime_parts. intros H.
  destruct (tier1 e) as [r |] eqn:E1.
  - injection H as ->. apply tier1_inv in E1.
    destruct E1 as (y' & mo & d' & hm' & Hs & [= -> -> -> ->]).
    destruct Hs as (ws & h & mi & nl & _ & -> & Hy & Hmo & Hd & Hh & Hmi & _).
    split; [apply (int_digits_lt 4), Hy |].
    split; [apply (int_digits_lt 2), Hmo |].
    split; [apply (int_digits_lt 2), Hd |].
    destruct Hh as [Lh _], Hmi as [Lmi _].
    destruct h as [| h1 [| h2 [| ? ?]]]; try discriminate.
    destruct mi as [| m1 [| m2 [| ? ?]]]; try discriminate.
    split; reflexivity.
  - apply tier2_inv in H.
    destruct H as (mo & d' & y' & h & mi & Hd & Ht & [= -> -> -> ->]).
    destruct Hd as (_ & _ & _ & _ & _ & Hmo & Hdd & Hy & _).
    destruct Ht as (_ & _ & _ & Hh & Hmi).
    split; [apply (int_digits_lt 4), Hy |].
    split; [apply int_digits12_lt, Hmo |].
    split; [apply int_digits12_lt, Hdd |].
    pose proof (format_0d_2_digits12 h Hh) as Lh.
    pose proof (format_0d_2_digits2 mi Hmi) as Lmi.
    destruct (format_0d 2 (int h)) as [| h1 [| h2 [| ? ?]]]; try discriminate.
    destruct (format_0d 2 (int mi)) as [| m1 [| m2 [| ? ?]]]; try discriminate.
    split; reflexivity.
Qed.

Lemma parse_entry_datetime_parts_range_witness :
  0 <= 2026 < 10000 /\ 0 <= 3 < 100 /\ 0 <= 5 < 100
  /\ length (u "08:30") = 5%nat /\ u "08:30" !! 2%nat = Some 58%N.
Proof.
  apply (parse_entry_datetime_parts_range Fixture.messy_first).
  vm_compute. reflexivity.
Defined.

(** X26. For every date that [parse_entry_datetime_parts] resolves, the
    names [write_split_markdown] makes of it have a fixed width: four
    characters for the year, two for the month and for the day, and ten
    for the name of the day. *)
Theorem day_name_fixed_width (e : Entry) (y m d : Z) (hm : str) :
  parse_entry_datetime_parts e = Some (y, m, d, hm) ->
  length (format_0d 4 y) = 4%nat /\ length (format_0d 2 m) = 2%nat
  /\ length (format_0d 2 d) = 2%nat /\ length (day_name (y, m, d)) = 10%nat.
Proof.
  intros H. apply parse_entry_datetime_parts_nonneg in H as Hn.
  assert (Hr : 0 <= y < 10000 /\ 0 <= m < 100 /\ 0 <= d < 100).
  { unfold parse_entry_datetime_parts in H.
    destruct (tier1 e) as [r |] eqn:E1.
    - injection H as ->. apply tier1_inv in E1.
      destruct E1 as (y' & mo & d' & hm' & Hs & [= -> -> -> ->]).
      destruct Hs as (ws & h & mi & nl & _ & -> & Hy & Hmo & Hd & _).
      split; [apply (int_digits_lt 4), Hy |].
      split; [apply (int_digits_lt 2), Hmo | apply (int_digits_lt 2), Hd].
    - apply tier2_inv in H.
      destruct H as (mo & d' & y' & h & mi & Hd & _ & [= -> -> -> ->]).
      destruct Hd as (_ & _ & _ & _ & _ & Hmo & Hdd & Hy & _).
      split; [apply (int_digits_lt 4), Hy |].
      split; [apply int_digits12_lt, Hmo | apply int_digits12_lt, Hdd]. }
  destruct Hr as (Hy & Hm & Hd).
  pose proof (format_0d_4_length y Hy) as Ly.
  pose proof (format_0d_2_length m Hm) as Lm.
  pose proof (format_0d_2_length d Hd) as Ld.
  split; [exact Ly |]. split; [exact Lm |]. split; [exact Ld |].
  unfold day_name. rewrite !length_app, Ly, Lm, Ld. reflexivity.
Qed.

Lemma day_name_fixed_width_witness :
  length (format_0d 4 2026) = 4%nat /\ length (format_0d 2 3) = 2%nat
  /\ length (format_0d 2 5) = 2%nat /\ length (day_name (2026, 3, 5)) = 10%nat.
Proof.
  apply (day_name_fixed_width Fixture.messy_first 2026 3 5 (u "08:30")).
  vm_compute. reflexivity.
Defined.

(** ** Errors of the export *)

(** X17. When a file is in the place of the Markdown root,
    [write_split_markdown] ends with an error and has changed nothing. *)
Theorem write_split_markdown_on_file
    (entries : list Entry) (root : path) (fs : filesystem) :
  is_file fs root = true -> is_dir fs root = false ->
  exists e, write_split_markdown entries root fs = (Raise e, fs).
Proof.
  intros Hf Hd. unfold write_split_markdown, bind, path_exists.
  rewrite Hf, Hd. cbn [orb]. unfold rmtree. rewrite Hd. eexists. reflexivity.
Qed.

Lemma write_split_markdown_on_file_witness :
  exists e,
    write_split_markdown Fixture.overlap_out Sample.md_root Sample.file_root_fs
    = (Raise e, Sample.file_root_fs).
Proof.
  apply (write_split_markdown_on_file Fixture.overlap_out Sample.md_root Sample.file_root_fs).
  - vm_compute. reflexivity.
  - vm_compute. reflexivity.
Defined.

(** X19. When every field of every entry can be encoded, the JSON file
    can be opened and the text file cannot, [write_outputs] ends with an
    error and leaves the whole JSON file behind. *)
Theorem write_outputs_txt_fails
    (entries : list Entry) (jp tp : path) (fs : filesystem) :
  Forall (fun e => entry_utf8 e = true) entries ->
  is_dir fs jp = false -> is_dir fs (removelast jp) = true ->
  is_dir fs tp = true \/ is_dir fs (removelast tp) = false ->
  exists e,
    write_outputs entries jp tp fs
    = (Raise e, {| files := <[jp := JsonFile (JArray (asdict <$> entries))]> (files fs);
                   dirs := dirs fs |}).
Proof.
  intros Hutf H1 H2 H3. unfold write_outputs, bind.
  set (fs1 := {| files := <[jp := JsonFile (JArray (asdict <$> entries))]> (files fs);
                 dirs := dirs fs |}).
  assert (E1 : write_file jp (JsonFile (JArray (asdict <$> entries))) fs = (Ok tt, fs1))
    by (unfold write_file; rewrite H1, H2; cbn [negb content_ok];
        rewrite (json_ok_entries entries Hutf); reflexivity).
  rewrite E1. unfold write_file.
  assert (D : forall q, is_dir fs1 q = is_dir fs q) by reflexivity.
  rewrite !D. destruct H3 as [H3 | H3]; rewrite H3.
  - eexists. reflexivity.
  - destruct (is_dir fs tp); eexists; reflexivity.
Qed.

Lemma write_outputs_txt_fails_witness :
  exists e,
    write_outputs Sample.good_out Sample.out_json Sample.out_txt Sample.txt_dir_fs
    = (Raise e,
       {| files := <[Sample.out_json := JsonFile (JArray (asdict <$> Sample.good_out))]>
                     (files Sample.txt_dir_fs);
          dirs := dirs Sample.txt_dir_fs |}).
Proof.
  apply (write_outputs_txt_fails Sample.good_out Sample.out_json Sample.out_txt
           Sample.txt_dir_fs).
  - exact good_out_utf8.
  - vm_compute. reflexivity.
  - vm_compute. reflexivity.
  - left. vm_compute. reflexivity.
Defined.

(** X20. When the JSON file cannot be written, [write_outputs] ends with an
    error and has changed nothing: the text file is not tried. *)
Theorem write_outputs_json_fails
    (entries : list Entry) (jp tp : path) (fs : filesystem) :
  is_dir fs jp = true \/ is_dir fs (removelast jp) = false ->
  exists e, write_outputs entries jp tp fs = (Raise e, fs).
Proof.
  intros H. unfold write_outputs, bind, write_file.
  destruct H as [H | H]; rewrite H; [| destruct (is_dir fs jp)]; eexists; reflexivity.
Qed.

Lemma write_outputs_json_fails_witness :
  exists e,
    write_outputs Fixture.overlap_out Sample.out_json Sample.out_txt Fixture.empty_fs
    = (Raise e, Fixture.empty_fs).
Proof.
  apply (write_outputs_json_fails Fixture.overlap_out Sample.out_json Sample.out_txt
           Fixture.empty_fs).
  right. vm_compute. reflexivity.
Defined.

(** ** Logging in *)

Lemma is_login_page_markers html :
  is_login_page html = true ->
  contains (u "开始使用网页版") html && contains (u "用户名 / Email") html = true.
Proof. unfold is_login_page. intros H. apply andb_prop in H. apply H. Qed.

(** X27. When the page of the target user comes back as what
    [is_login_page] takes for the login page, [login] ends with an
    error. *)
Theorem login_on_login_page
    (html_parser : str -> node) (s : session) (username password target_user page : str) :
  session_get s (BASE ++ u "/u/" ++ target_user) = Ok page ->
  is_login_page page = true ->
  exists e, login html_parser s username password target_user = Raise e.
Proof.
  intros Hg Hl. unfold login.
  destruct (session_get s LOGIN_PAGE); [| eauto].
  destruct (get_csrf_token html_parser _); [| eauto].
  destruct (session_post s LOGIN_POST _); [| eauto].
  rewrite Hg, (is_login_page_markers _ Hl). eauto.
Qed.

Lemma login_on_login_page_witness :
  exists e,
    login Sample.good_parser Sample.closed_site (u "me") (u "secret") (u "me") = Raise e.
Proof.
  apply (login_on_login_page Sample.good_parser Sample.closed_site (u "me") (u "secret")
           (u "me") (u "开始使用网页版 用户名 / Email 登入")).
  - vm_compute. reflexivity.
  - vm_compute. reflexivity.
Defined.

Lemma truthy_attr_not_empty n key t : truthy_attr n key = Some t -> t <> [].
Proof.
  unfold truthy_attr. destruct n as [tag |]; [| discriminate].
  destruct (get tag key []); [discriminate |]. intros [= <-]. discriminate.
Qed.

(** X28. A token that [get_csrf_token] returns is not empty: an empty
    [content] of the [meta] element makes it look at the [input] element,
    and an empty [value] there makes it return nothing. *)
Theorem get_csrf_token_not_empty (html_parser : str -> node) (html t : str) :
  get_csrf_token html_parser html = Some t -> t <> [].
Proof.
  unfold get_csrf_token.
  destruct (truthy_attr (find_with_attr (u "meta") _ _ _) _) eqn:E.
  - intros [= <-]. eapply truthy_attr_not_empty, E.
  - apply truthy_attr_not_empty.
Qed.

Lemma get_csrf_token_not_empty_witness : u "token" <> [].
Proof.
  apply (get_csrf_token_not_empty Sample.good_parser (u "welcome")).
  vm_compute. reflexivity.
Defined.

(** ** Runs that end early *)

Lemma scrape_loop_fetch_fails html_parser urljoin s posts_url max_pages fuel page acc e :
  session_get s (page_url posts_url page) = Raise e ->
  scrape_loop html_parser urljoin s posts_url max_pages (S fuel) page acc
  = ([EvGet (page_url posts_url page)], Some (Raise e)).
Proof. intros H. cbn [scrape_loop]. rewrite H. reflexivity. Qed.

(** X23. When the pages before page [n + 1] have records, [max_pages] is
    not reached on them and page [n + 1] cannot be fetched, [main] ends
    with status 1 and the message of a failed request, and has written no
    file. *)
Theorem export_main_fetch_fails
    (html_parser : str -> node) (urljoin : str -> str -> str) (s : session)
    (o : options) (n fuel : nat) (msg : str) (fs fs1 : filesystem) :
  let posts_url := build_posts_url (target_user o) in
  (S n <= fuel)%nat ->
  (forall p, 1 <= p < 1 + Z.of_nat n ->
             page_full html_parser urljoin s posts_url p /\ goes_on (max_pages o) p) ->
  session_get s (page_url posts_url (1 + Z.of_nat n)) = Raise (RequestException msg) ->
  login html_parser s (username o) (password o) (target_user o) = Ok tt ->
  makedirs (output_dir o) fs = (Ok tt, fs1) ->
  export_main html_parser urljoin s o fuel fs
  = Some (Ok (1, u "网络请求失败：" ++ msg), fs1)
  /\ files fs1 = files fs.
Proof.
  intros posts_url Hfuel Hpages Hfail Hl Hmk.
  destruct (scrape_loop_goes_on html_parser urljoin s posts_url (max_pages o) n
              (fuel - n) 1 [] Hpages) as (evs & Hreq & Hrun).
  replace (n + (fuel - n))%nat with fuel in Hrun by lia.
  destruct (fuel - n)%nat as [| fuel'] eqn:Ef; [lia |].
  rewrite (scrape_loop_fetch_fails _ _ _ _ _ _ _ _ _ Hfail) in Hrun.
  split.
  - unfold export_main, try_export. rewrite Hmk, Hl. fold posts_url.
    unfold scrape_all. rewrite Hrun. cbv beta iota delta [raise]. reflexivity.
  - pose proof (makedirs_files (output_dir o) fs) as H. rewrite Hmk in H. exact H.
Qed.

Lemma export_main_fetch_fails_witness :
  export_main Sample.good_parser Fixture.concat_url Sample.flaky_site
              Fixture.my_options 3 Fixture.empty_fs
  = Some (Ok (1, u "网络请求失败：timed out"),
          {| files := ∅; dirs := {[ [u "export"] ]} ∪ ∅ |}).
Proof.
  destruct (export_main_fetch_fails
              Sample.good_parser Fixture.concat_url Sample.flaky_site
              Fixture.my_options 1 3 (u "timed out") Fixture.empty_fs
              {| files := ∅; dirs := {[ [u "export"] ]} ∪ ∅ |}) as [E _].
  - lia.
  - intros p Hp. assert (p = 1) as -> by lia.
    split; [eexists; split; [vm_compute; reflexivity | discriminate]
           | intros m Hm; discriminate Hm].
  - vm_compute. reflexivity.
  - vm_compute. reflexivity.
  - vm_compute. reflexivity.
  - rewrite E. vm_compute. reflexivity.
Defined.

(** X24. When the first page has no record, [main] ends with status 1 and
    the message that nothing was fetched, and has written no file. *)
Theorem export_main_nothing_found
    (html_parser : str -> node) (urljoin : str -> str -> str) (s : session)
    (o : options) (fuel : nat) (fs fs1 : filesystem) :
  page_entries html_parser urljoin s (build_posts_url (target_user o)) 1 = Some [] ->
  login html_parser s (username o) (password o) (target_user o) = Ok tt ->
  makedirs (output_dir o) fs = (Ok tt, fs1) ->
  export_main html_parser urljoin s o (S fuel) fs
  = Some (Ok (1, u "导出失败：" ++ u "没有抓到任何日记，请检查账号权限或目标用户"), fs1)
  /\ files fs1 = files fs.
Proof.
  intros Hempty Hl Hmk. split.
  - unfold export_main, try_export. rewrite Hmk, Hl.
    unfold scrape_all.
    rewrite (scrape_loop_empty html_parser urljoin s (build_posts_url (target_user o))
               (max_pages o) fuel 1 [] Hempty).
    cbv beta iota delta [raise exn_str]. reflexivity.
  - pose proof (makedirs_files (output_dir o) fs) as H. rewrite Hmk in H. exact H.
Qed.

Lemma export_main_nothing_found_witness :
  export_main Sample.good_parser Fixture.concat_url Sample.empty_site
              Fixture.my_options 1 Fixture.empty_fs
  = Some (Ok (1, u "导出失败：没有抓到任何日记，请检查账号权限或目标用户"),
          {| files := ∅; dirs := {[ [u "export"] ]} ∪ ∅ |}).
Proof.
  destruct (export_main_nothing_found
              Sample.good_parser Fixture.concat_url Sample.empty_site
              Fixture.my_options 0 Fixture.empty_fs
              {| files := ∅; dirs := {[ [u "export"] ]} ∪ ∅ |}) as [E _].
  - vm_compute. reflexivity.
  - vm_compute. reflexivity.
  - vm_compute. reflexivity.
  - rewrite E. vm_compute. reflexivity.
Defined.
